(** * search-go: the book loader and the book searcher

    A shallow embedding of [cmd/load-books/main.go] and of the two copies of
    the search tool ([cmd/search-books/main.go] and its older sibling), with
    the parts of the Go runtime they call ([unicode/utf8], [encoding/json],
    [fmt], [net/url], [bufio]) modelled as executable functions, and the
    remote services (Elasticsearch client, bulk indexer, file system) as an
    explicit environment record.

    Go strings and byte slices are lists of bytes; runes and byte values are
    integers in [Z] with the truncations written out. *)

From Stdlib Require Import Strings.String Strings.Byte.
From Stdlib Require Import List ZArith Lia Bool.
From Stdlib Require Import Floats.SpecFloat.
Import ListNotations.
Open Scope Z_scope.

(* ================================================================== *)
(** * Part I: definitions                                              *)
(* ================================================================== *)

(** ** Bytes and Go strings *)

Definition gostring := list byte.

Definition b2z (b : byte) : Z := Z.of_N (Byte.to_N b).

(** Go's conversion [byte(x)]: keep the low eight bits. *)
Definition z2b (z : Z) : byte :=
  match Byte.of_N (Z.to_N (z mod 256)) with
  | Some b => b
  | None => x00
  end.

(** A Go string literal. *)
Definition lit (s : string) : gostring := list_byte_of_string s.
Arguments lit s%_string.

(** A Go string literal as the source writes it: [\n], [\t] and [\\] are
    the escapes of the source, and ['] stands for the double quote. *)
Fixpoint unescape (s : list byte) : gostring :=
  match s with
  | [] => []
  | x5c :: c :: t =>
    match c with
    | x6e => x0a
    | x74 => x09
    | _ => c
    end :: unescape t
  | x27 :: t => x22 :: unescape t
  | c :: t => c :: unescape t
  end.

Definition golit (s : string) : gostring := unescape (list_byte_of_string s).
Arguments golit s%_string.

(** Go's [int32(x)] on an integer that may have overflowed. *)
Definition int32 (z : Z) : Z := (z + 2 ^ 31) mod 2 ^ 32 - 2 ^ 31.

(** Go's [uint32(x)]. *)
Definition uint32 (z : Z) : Z := z mod 2 ^ 32.

(** Go [error] values.  The three sentinels are the ones the programs can
    tell apart; every other error is opaque. *)
Inductive error :=
| io_EOF
| json_SyntaxError
| json_UnmarshalTypeError
| other_error (text : gostring).

(** ** unicode/utf8 *)

Module utf8.

Definition RuneError : Z := 0xFFFD.
Definition RuneSelf : Z := 0x80.
Definition MaxRune : Z := 0x10FFFF.

Definition surrogateMin : Z := 0xD800.
Definition surrogateMax : Z := 0xDFFF.

Definition tx : Z := 0x80.
Definition t2 : Z := 0xC0.
Definition t3 : Z := 0xE0.
Definition t4 : Z := 0xF0.

Definition maskx : Z := 0x3F.
Definition mask2 : Z := 0x1F.
Definition mask3 : Z := 0x0F.
Definition mask4 : Z := 0x07.

Definition rune1Max : Z := 0x7F.
Definition rune2Max : Z := 0x7FF.
Definition rune3Max : Z := 0xFFFF.

Definition locb : Z := 0x80.
Definition hicb : Z := 0xBF.

Definition xx : Z := 0xF1.
Definition as_ : Z := 0xF0.
Definition s1 : Z := 0x02.
Definition s2 : Z := 0x13.
Definition s3 : Z := 0x03.
Definition s4 : Z := 0x23.
Definition s5 : Z := 0x34.
Definition s6 : Z := 0x04.
Definition s7 : Z := 0x44.

(** The table [first]: information about the first byte of an encoding. *)
Definition first (b : Z) : Z :=
  if b <? 0x80 then as_
  else if b <? 0xC2 then xx
  else if b <? 0xE0 then s1
  else if b =? 0xE0 then s2
  else if b <? 0xED then s3
  else if b =? 0xED then s4
  else if b <? 0xF0 then s3
  else if b =? 0xF0 then s5
  else if b <? 0xF4 then s6
  else if b =? 0xF4 then s7
  else xx.

(** The table [acceptRanges] (sixteen entries, the last eleven zero). *)
Definition acceptRanges (i : Z) : Z * Z :=
  match i with
  | 0 => (locb, hicb)
  | 1 => (0xA0, hicb)
  | 2 => (locb, 0x9F)
  | 3 => (0x90, hicb)
  | 4 => (locb, 0x8F)
  | _ => (0, 0)
  end.

Definition at_ (p : list byte) (i : nat) : Z := b2z (nth i p x00).

Definition DecodeRune (p : list byte) : Z * nat :=
  let n := Z.of_nat (length p) in
  if n <? 1 then (RuneError, 0%nat) else
  let p0 := at_ p 0 in
  let x := first p0 in
  if x >=? as_ then
    let mask := Z.shiftr (int32 (Z.shiftl x 31)) 31 in
    (Z.lor (Z.ldiff p0 mask) (Z.land RuneError mask), 1%nat)
  else
  let sz := Z.land x 7 in
  let accept := acceptRanges (Z.shiftr x 4) in
  if n <? sz then (RuneError, 1%nat) else
  let b1 := at_ p 1 in
  if (b1 <? fst accept) || (snd accept <? b1) then (RuneError, 1%nat) else
  if sz <=? 2 then
    (Z.lor (Z.shiftl (Z.land p0 mask2) 6) (Z.land b1 maskx), 2%nat)
  else
  let b2 := at_ p 2 in
  if (b2 <? locb) || (hicb <? b2) then (RuneError, 1%nat) else
  if sz <=? 3 then
    (Z.lor (Z.lor (Z.shiftl (Z.land p0 mask3) 12)
                  (Z.shiftl (Z.land b1 maskx) 6))
           (Z.land b2 maskx), 3%nat)
  else
  let b3 := at_ p 3 in
  if (b3 <? locb) || (hicb <? b3) then (RuneError, 1%nat) else
  (Z.lor (Z.lor (Z.lor (Z.shiftl (Z.land p0 mask4) 18)
                       (Z.shiftl (Z.land b1 maskx) 12))
                (Z.shiftl (Z.land b2 maskx) 6))
         (Z.land b3 maskx), 4%nat).

(** [byte(r >> k)] as a number. *)
Definition byte_of (r : Z) : Z := r mod 256.

Definition encode3 (r : Z) : list byte :=
  [ z2b (Z.lor t3 (byte_of (Z.shiftr r 12)));
    z2b (Z.lor tx (Z.land (byte_of (Z.shiftr r 6)) maskx));
    z2b (Z.lor tx (Z.land (byte_of r) maskx)) ].

Definition EncodeRune (r : Z) : list byte :=
  let i := uint32 r in
  if i <=? rune1Max then [ z2b (byte_of r) ]
  else if i <=? rune2Max then
    [ z2b (Z.lor t2 (byte_of (Z.shiftr r 6)));
      z2b (Z.lor tx (Z.land (byte_of r) maskx)) ]
  else if (MaxRune <? i) || ((surrogateMin <=? i) && (i <=? surrogateMax))
  then encode3 RuneError
  else if i <=? rune3Max then encode3 r
  else
    [ z2b (Z.lor t4 (byte_of (Z.shiftr r 18)));
      z2b (Z.lor tx (Z.land (byte_of (Z.shiftr r 12)) maskx));
      z2b (Z.lor tx (Z.land (byte_of (Z.shiftr r 6)) maskx));
      z2b (Z.lor tx (Z.land (byte_of r) maskx)) ].

(** Scalar values: what a rune may hold. *)
Definition scalar (r : Z) : Prop :=
  0 <= r <= 0x10FFFF /\ ~ (0xD800 <= r <= 0xDFFF).

(** Well-formed UTF-8: a sequence of encoded scalar values. *)
Inductive valid : gostring -> Prop :=
| valid_nil : valid []
| valid_rune r rest : scalar r -> valid rest -> valid (EncodeRune r ++ rest).

(** The classes of first bytes, with the range accepted for the second
    byte: [first] and [acceptRanges] read together. *)
Inductive lead_class := LAscii | LBad | L2 | L3 (lo hi : Z) | L4 (lo hi : Z).

Definition classify (p0 : Z) : lead_class :=
  if p0 <? 0x80 then LAscii
  else if p0 <? 0xC2 then LBad
  else if p0 <? 0xE0 then L2
  else if p0 =? 0xE0 then L3 0xA0 0xBF
  else if p0 <? 0xED then L3 0x80 0xBF
  else if p0 =? 0xED then L3 0x80 0x9F
  else if p0 <? 0xF0 then L3 0x80 0xBF
  else if p0 =? 0xF0 then L4 0x90 0xBF
  else if p0 <? 0xF4 then L4 0x80 0xBF
  else if p0 =? 0xF4 then L4 0x80 0x8F
  else LBad.

End utf8.

(** ** unicode/utf16 *)

Module utf16.

Definition replacementChar : Z := 0xFFFD.
Definition surr1 : Z := 0xd800.
Definition surr2 : Z := 0xdc00.
Definition surr3 : Z := 0xe000.
Definition surrSelf : Z := 0x10000.

Definition IsSurrogate (r : Z) : bool := (surr1 <=? r) && (r <? surr3).

Definition DecodeRune (r1 r2 : Z) : Z :=
  if (surr1 <=? r1) && (r1 <? surr2) && (surr2 <=? r2) && (r2 <? surr3)
  then Z.lor (Z.shiftl (r1 - surr1) 10) (r2 - surr2) + surrSelf
  else replacementChar.

End utf16.

(** ** encoding/json: the scanner *)

Module json.

(** A scanned JSON value.  String and number literals are kept as they
    stand in the input (for a string: the bytes between the quotes, escapes
    still in place); the decoder unquotes them when it stores them. *)
#[warnings="-register-all"]
Inductive value :=
| Null
| Bool (b : bool)
| Number (literal : gostring)
| String (literal : gostring)
| Array (elems : list value)
| Object (members : list (gostring * value)).

Definition is_ (c : byte) (k : Z) : bool := b2z c =? k.

Definition isSpace (c : byte) : bool :=
  is_ c 0x20 || is_ c 0x09 || is_ c 0x0d || is_ c 0x0a.

Fixpoint skip_ws (s : list byte) : list byte :=
  match s with
  | c :: t => if isSpace c then skip_ws t else s
  | [] => []
  end.

Definition isDigit (c : byte) : bool := (0x30 <=? b2z c) && (b2z c <=? 0x39).

Definition isHex (c : byte) : bool :=
  isDigit c
  || ((0x61 <=? b2z c) && (b2z c <=? 0x66))
  || ((0x41 <=? b2z c) && (b2z c <=? 0x46)).

Definition prepend {A : Type} (pre : list A) (r : option (list A * list A))
  : option (list A * list A) :=
  match r with
  | Some (a, rest) => Some (pre ++ a, rest)
  | None => None
  end.

(** States [stateInString], [stateInStringEsc], [stateInStringEscU] ...:
    the input after an opening quote up to the closing one. *)
Fixpoint scan_string (s : list byte) : option (gostring * list byte) :=
  match s with
  | [] => None
  | c :: t =>
    if is_ c 0x22 then Some ([], t)
    else if is_ c 0x5c then
      match t with
      | [] => None
      | e :: t1 =>
        if is_ e 0x62 || is_ e 0x66 || is_ e 0x6e || is_ e 0x72 || is_ e 0x74
           || is_ e 0x5c || is_ e 0x2f || is_ e 0x22
        then prepend [c; e] (scan_string t1)
        else if is_ e 0x75 then
          match t1 with
          | h1 :: h2 :: h3 :: h4 :: t2 =>
            if isHex h1 && isHex h2 && isHex h3 && isHex h4
            then prepend [c; e; h1; h2; h3; h4] (scan_string t2)
            else None
          | _ => None
          end
        else None
      end
    else if b2z c <? 0x20 then None
    else prepend [c] (scan_string t)
  end.

Fixpoint scan_digits (s : list byte) : gostring * list byte :=
  match s with
  | c :: t =>
    if isDigit c then let '(ds, rest) := scan_digits t in (c :: ds, rest)
    else ([], s)
  | [] => ([], [])
  end.

(** States [stateE], [stateESign], [stateE0]. *)
Definition scan_exponent (acc : gostring) (s : list byte)
  : option (gostring * list byte) :=
  match s with
  | e :: t =>
    if is_ e 0x65 || is_ e 0x45 then
      let '(sign, t1) :=
        match t with
        | c :: t' => if is_ c 0x2b || is_ c 0x2d then ([c], t') else ([], t)
        | [] => ([], t)
        end in
      match scan_digits t1 with
      | ([], _) => None
      | (ds, rest) => Some (acc ++ e :: sign ++ ds, rest)
      end
    else Some (acc, s)
  | [] => Some (acc, s)
  end.

(** States [state0], [stateDot], [stateDot0]. *)
Definition scan_fraction (acc : gostring) (s : list byte)
  : option (gostring * list byte) :=
  match s with
  | d :: t =>
    if is_ d 0x2e then
      match scan_digits t with
      | ([], _) => None
      | (ds, rest) => scan_exponent (acc ++ d :: ds) rest
      end
    else scan_exponent acc s
  | [] => Some (acc, s)
  end.

(** States [stateNeg], [state0], [state1]. *)
Definition scan_number (s : list byte) : option (gostring * list byte) :=
  let '(sign, s1) :=
    match s with
    | c :: t => if is_ c 0x2d then ([c], t) else ([], s)
    | [] => ([], s)
    end in
  match s1 with
  | d :: t =>
    if is_ d 0x30 then scan_fraction (sign ++ [d]) t
    else if isDigit d then
      let '(ds, rest) := scan_digits t in scan_fraction (sign ++ d :: ds) rest
    else None
  | [] => None
  end.

Fixpoint strip_prefix (pre s : list byte) : option (list byte) :=
  match pre, s with
  | [], _ => Some s
  | p :: pre', c :: s' => if b2z p =? b2z c then strip_prefix pre' s' else None
  | _ :: _, [] => None
  end.

(** The scanner refuses input nested deeper than this. *)
Definition maxNestingDepth : Z := 10000.

(** One value, with the input that follows it.  [fuel] bounds the number
    of nested calls; the length of the input is always enough. *)
Fixpoint parse_value (fuel : nat) (depth : Z) (s : list byte) {struct fuel}
  : option (value * list byte) :=
  match fuel with
  | O => None
  | S fuel' =>
    match skip_ws s with
    | [] => None
    | c :: t =>
      if is_ c 0x7b then
        if maxNestingDepth <? depth + 1 then None else
        match skip_ws t with
        | c' :: t' =>
          if is_ c' 0x7d then Some (Object [], t')
          else match parse_members fuel' (depth + 1) t with
               | Some (ms, rest) => Some (Object ms, rest)
               | None => None
               end
        | [] => None
        end
      else if is_ c 0x5b then
        if maxNestingDepth <? depth + 1 then None else
        match skip_ws t with
        | c' :: t' =>
          if is_ c' 0x5d then Some (Array [], t')
          else match parse_elements fuel' (depth + 1) t with
               | Some (vs, rest) => Some (Array vs, rest)
               | None => None
               end
        | [] => None
        end
      else if is_ c 0x22 then
        match scan_string t with
        | Some (l, rest) => Some (String l, rest)
        | None => None
        end
      else if is_ c 0x74 then
        option_map (fun rest => (Bool true, rest)) (strip_prefix (lit "rue") t)
      else if is_ c 0x66 then
        option_map (fun rest => (Bool false, rest)) (strip_prefix (lit "alse") t)
      else if is_ c 0x6e then
        option_map (fun rest => (Null, rest)) (strip_prefix (lit "ull") t)
      else if is_ c 0x2d || isDigit c then
        match scan_number (c :: t) with
        | Some (l, rest) => Some (Number l, rest)
        | None => None
        end
      else None
    end
  end

with parse_members (fuel : nat) (depth : Z) (s : list byte) {struct fuel}
  : option (list (gostring * value) * list byte) :=
  match fuel with
  | O => None
  | S fuel' =>
    match skip_ws s with
    | q :: t =>
      if is_ q 0x22 then
        match scan_string t with
        | Some (k, r) =>
          match skip_ws r with
          | colon :: r1 =>
            if is_ colon 0x3a then
              match parse_value fuel' depth r1 with
              | Some (v, r2) =>
                match skip_ws r2 with
                | sep :: r3 =>
                  if is_ sep 0x2c then
                    match parse_members fuel' depth r3 with
                    | Some (ms, r4) => Some ((k, v) :: ms, r4)
                    | None => None
                    end
                  else if is_ sep 0x7d then Some ([(k, v)], r3)
                  else None
                | [] => None
                end
              | None => None
              end
            else None
          | [] => None
          end
        | None => None
        end
      else None
    | [] => None
    end
  end

with parse_elements (fuel : nat) (depth : Z) (s : list byte) {struct fuel}
  : option (list value * list byte) :=
  match fuel with
  | O => None
  | S fuel' =>
    match parse_value fuel' depth s with
    | Some (v, r) =>
      match skip_ws r with
      | sep :: r1 =>
        if is_ sep 0x2c then
          match parse_elements fuel' depth r1 with
          | Some (vs, r2) => Some (v :: vs, r2)
          | None => None
          end
        else if is_ sep 0x5d then Some ([v], r1)
        else None
      | [] => None
      end
    | None => None
    end
  end.

(** [checkValid] followed by the scan the decoder repeats: the whole input
    is one value surrounded by white space. *)
Definition scan (data : list byte) : option value :=
  match parse_value (S (length data)) 0 data with
  | Some (v, rest) =>
    match skip_ws rest with
    | [] => Some v
    | _ :: _ => None
    end
  | None => None
  end.

(** [json.Valid]. *)
Definition Valid (data : list byte) : bool :=
  match scan data with Some _ => true | None => false end.

(** *** Decoding: [unquoteBytes] *)

Definition hexval (c : byte) : option Z :=
  let z := b2z c in
  if (0x30 <=? z) && (z <=? 0x39) then Some (z - 0x30)
  else if (0x61 <=? z) && (z <=? 0x66) then Some (z - 0x61 + 10)
  else if (0x41 <=? z) && (z <=? 0x46) then Some (z - 0x41 + 10)
  else None.

(** [getu4]: the value of a leading [\uXXXX], or -1. *)
Definition getu4 (s : list byte) : Z :=
  match s with
  | b :: u :: h1 :: h2 :: h3 :: h4 :: _ =>
    if is_ b 0x5c && is_ u 0x75 then
      match hexval h1, hexval h2, hexval h3, hexval h4 with
      | Some d1, Some d2, Some d3, Some d4 =>
        ((d1 * 16 + d2) * 16 + d3) * 16 + d4
      | _, _, _, _ => -1
      end
    else -1
  | _ => -1
  end.

(** The first loop of [unquoteBytes]: the number of leading bytes that
    need no unquoting. *)
Fixpoint unquote_plain (fuel : nat) (s : list byte) : nat :=
  match fuel with
  | O => O
  | S fuel' =>
    match s with
    | [] => O
    | c :: t =>
      if is_ c 0x5c || is_ c 0x22 || (b2z c <? 0x20) then O
      else if b2z c <? utf8.RuneSelf then S (unquote_plain fuel' t)
      else
        let '(rr, size) := utf8.DecodeRune s in
        if (rr =? utf8.RuneError) && (size =? 1)%nat then O
        else (size + unquote_plain fuel' (skipn size s))%nat
    end
  end.

(** The second loop of [unquoteBytes]. *)
Fixpoint unquote_loop (fuel : nat) (s : list byte) : option gostring :=
  match s with
  | [] => Some []
  | c :: t =>
    match fuel with
    | O => None
    | S fuel' =>
      if is_ c 0x5c then
        match t with
        | [] => None
        | e :: t1 =>
          if is_ e 0x22 || is_ e 0x5c || is_ e 0x2f || is_ e 0x27
          then option_map (cons e) (unquote_loop fuel' t1)
          else if is_ e 0x62 then option_map (cons x08) (unquote_loop fuel' t1)
          else if is_ e 0x66 then option_map (cons x0c) (unquote_loop fuel' t1)
          else if is_ e 0x6e then option_map (cons x0a) (unquote_loop fuel' t1)
          else if is_ e 0x72 then option_map (cons x0d) (unquote_loop fuel' t1)
          else if is_ e 0x74 then option_map (cons x09) (unquote_loop fuel' t1)
          else if is_ e 0x75 then
            let rr := getu4 s in
            if rr <? 0 then None else
            let s6 := skipn 6 s in
            if utf16.IsSurrogate rr then
              let dec := utf16.DecodeRune rr (getu4 s6) in
              if negb (dec =? utf16.replacementChar) then
                option_map (app (utf8.EncodeRune dec))
                           (unquote_loop fuel' (skipn 6 s6))
              else
                option_map (app (utf8.EncodeRune utf16.replacementChar))
                           (unquote_loop fuel' s6)
            else
              option_map (app (utf8.EncodeRune rr)) (unquote_loop fuel' s6)
          else None
        end
      else if is_ c 0x22 || (b2z c <? 0x20) then None
      else if b2z c <? utf8.RuneSelf then
        option_map (cons c) (unquote_loop fuel' t)
      else
        let '(rr, size) := utf8.DecodeRune s in
        option_map (app (utf8.EncodeRune rr))
                   (unquote_loop fuel' (skipn size s))
    end
  end.

(** [unquoteBytes], on the bytes between the quotes of a literal. *)
Definition unquoteBytes (s : gostring) : option gostring :=
  let r := unquote_plain (length s) s in
  if (r =? length s)%nat then Some s
  else option_map (app (firstn r s)) (unquote_loop (length s) (skipn r s)).

(** *** Encoding: [encodeState.string] with [escapeHTML] set *)

Definition hex : gostring := lit "0123456789abcdef".

Definition hexdigit (n : Z) : byte := nth (Z.to_nat n) hex x00.

(** The table [htmlSafeSet]: ASCII from space on, without the quote, the
    backslash and the three characters that are escaped for HTML. *)
Definition htmlSafeSet (b : byte) : bool :=
  (0x20 <=? b2z b) && (b2z b <=? 0x7f)
  && negb (is_ b 0x22) && negb (is_ b 0x5c)
  && negb (is_ b 0x26) && negb (is_ b 0x3c) && negb (is_ b 0x3e).

Definition escape_ascii (b : byte) : gostring :=
  x5c ::
  (if is_ b 0x5c || is_ b 0x22 then [b]
   else if is_ b 0x0a then [x6e]
   else if is_ b 0x0d then [x72]
   else if is_ b 0x09 then [x74]
   else lit "u00" ++ [hexdigit (Z.shiftr (b2z b) 4); hexdigit (Z.land (b2z b) 0xF)]).

(** The bytes written between the two quotes.  The source copies the runs
    between escapes lazily ([start] .. [i]); here every byte is written
    when it is passed. *)
Fixpoint encode_string_loop (fuel : nat) (s : gostring) : gostring :=
  match fuel with
  | O => []
  | S fuel' =>
    match s with
    | [] => []
    | b :: t =>
      if b2z b <? utf8.RuneSelf then
        if htmlSafeSet b then b :: encode_string_loop fuel' t
        else escape_ascii b ++ encode_string_loop fuel' t
      else
        let '(c, size) := utf8.DecodeRune s in
        if (c =? utf8.RuneError) && (size =? 1)%nat then
          x5c :: lit "ufffd" ++ encode_string_loop fuel' (skipn size s)
        else if (c =? 0x2028) || (c =? 0x2029) then
          x5c :: lit "u202" ++ hexdigit (Z.land c 0xF)
              :: encode_string_loop fuel' (skipn size s)
        else firstn size s ++ encode_string_loop fuel' (skipn size s)
    end
  end.

Definition encode_string_body (s : gostring) : gostring :=
  encode_string_loop (length s) s.

(** What the loop writes for one scalar value. *)
Definition encode_rune (r : Z) : gostring :=
  if r <? utf8.RuneSelf then
    if htmlSafeSet (z2b r) then [z2b r] else escape_ascii (z2b r)
  else if (r =? 0x2028) || (r =? 0x2029) then
    x5c :: lit "u202" ++ [hexdigit (Z.land r 0xF)]
  else utf8.EncodeRune r.

Definition encode_string (s : gostring) : gostring :=
  x22 :: encode_string_body s ++ [x22].

(** *** Struct fields *)

Definition caseMask : Z := 0xDF.
Definition kelvin : Z := 0x212a.
Definition smallLongEss : Z := 0x17f.

Fixpoint simpleLetterEqualFold_loop (s t : gostring) : bool :=
  match s, t with
  | [], _ => true
  | b :: s', c :: t' =>
    if negb (Z.land (b2z b) caseMask =? Z.land (b2z c) caseMask) then false
    else simpleLetterEqualFold_loop s' t'
  | _ :: _, [] => false
  end.

Definition simpleLetterEqualFold (s t : gostring) : bool :=
  if negb (length s =? length t)%nat then false
  else simpleLetterEqualFold_loop s t.

Fixpoint equalFoldRight (s t : gostring) : bool :=
  match s with
  | [] => (length t =? 0)%nat
  | sb :: s' =>
    match t with
    | [] => false
    | tb :: t' =>
      if b2z tb <? utf8.RuneSelf then
        if negb (b2z sb =? b2z tb) then
          let sbUpper := Z.land (b2z sb) caseMask in
          if (0x41 <=? sbUpper) && (sbUpper <=? 0x5a) then
            if negb (sbUpper =? Z.land (b2z tb) caseMask) then false
            else equalFoldRight s' t'
          else false
        else equalFoldRight s' t'
      else
        let '(tr, size) := utf8.DecodeRune t in
        if is_ sb 0x73 || is_ sb 0x53 then
          if negb (tr =? smallLongEss) then false
          else equalFoldRight s' (skipn size t)
        else if is_ sb 0x6b || is_ sb 0x4b then
          if negb (tr =? kelvin) then false
          else equalFoldRight s' (skipn size t)
        else false
    end
  end.

(** What the decoder and the encoder know about one field of a struct
    type [T]: its JSON name, the folding function [foldFunc] picks for that
    name, how a JSON value is stored into the field and how the field is
    encoded. *)
Inductive decoded (T : Type) :=
| Stored (v : T) (savedError : option error)
| Panicked.
Arguments Stored {T}.
Arguments Panicked {T}.

Record field (T : Type) := mkField {
  name : gostring;
  equalFold : gostring -> gostring -> bool;
  store : value -> T -> option error -> decoded T;
  encode : T -> gostring
}.
Arguments mkField {T}.
Arguments name {T}.
Arguments equalFold {T}.
Arguments store {T}.
Arguments encode {T}.

Fixpoint bytes_eqb (s t : gostring) : bool :=
  match s, t with
  | [], [] => true
  | b :: s', c :: t' => (b2z b =? b2z c) && bytes_eqb s' t'
  | _, _ => false
  end.

(** An exact match of the name first, then the first field whose name
    folds to the key. *)
Definition find_field {T} (fields : list (field T)) (key : gostring)
  : option (field T) :=
  match find (fun f => bytes_eqb (name f) key) fields with
  | Some f => Some f
  | None => find (fun f => equalFold f (name f) key) fields
  end.

(** [d.saveError]: the first error is kept, decoding goes on. *)
Definition saveError (saved : option error) (e : error) : option error :=
  match saved with
  | Some _ => saved
  | None => Some e
  end.

(** [literalStore], [array] and [object] on a field of kind string. *)
Definition store_string {T} (set : gostring -> T -> T) (v : value) (cur : T)
  (saved : option error) : decoded T :=
  match v with
  | Null => Stored cur saved
  | String l =>
    match unquoteBytes l with
    | Some s => Stored (set s cur) saved
    | None => Panicked
    end
  | Bool _ | Number _ | Array _ | Object _ =>
    Stored cur (saveError saved json_UnmarshalTypeError)
  end.

(** The loop of [object] over the members of a JSON object. *)
Fixpoint decode_members {T} (fields : list (field T))
  (ms : list (gostring * value)) (cur : T) (saved : option error)
  : decoded T :=
  match ms with
  | [] => Stored cur saved
  | (k, v) :: ms' =>
    match unquoteBytes k with
    | None => Panicked
    | Some key =>
      match find_field fields key with
      | Some f =>
        match store f v cur saved with
        | Stored cur' saved' => decode_members fields ms' cur' saved'
        | Panicked => Panicked
        end
      | None => decode_members fields ms' cur saved
      end
    end
  end.

(** [d.value] on a struct. *)
Definition decode_struct {T} (fields : list (field T)) (v : value) (cur : T)
  (saved : option error) : decoded T :=
  match v with
  | Object ms => decode_members fields ms cur saved
  | Null => Stored cur saved
  | Array _ | Bool _ | Number _ | String _ =>
    Stored cur (saveError saved json_UnmarshalTypeError)
  end.

(** A field that is itself a struct. *)
Definition store_struct {T U} (fields : list (field U))
  (get : T -> U) (set : U -> T -> T) (v : value) (cur : T)
  (saved : option error) : decoded T :=
  match decode_struct fields v (get cur) saved with
  | Stored u saved' => Stored (set u cur) saved'
  | Panicked => Panicked
  end.

(** The loop of [array] on a slice: element [i] is decoded into the
    element the slice already has there, or into a zero element. *)
Fixpoint decode_elements {E} (store_elem : value -> E -> option error -> decoded E)
  (zero : E) (vs : list value) (old : list E) (saved : option error)
  : decoded (list E) :=
  match vs with
  | [] => Stored [] saved
  | v :: vs' =>
    match store_elem v (hd zero old) saved with
    | Stored e saved' =>
      match decode_elements store_elem zero vs' (tl old) saved' with
      | Stored es saved'' => Stored (e :: es) saved''
      | Panicked => Panicked
      end
    | Panicked => Panicked
    end
  end.

(** A field that is a slice. *)
Definition store_slice {T E} (store_elem : value -> E -> option error -> decoded E)
  (zero : E) (get : T -> list E) (set : list E -> T -> T) (v : value) (cur : T)
  (saved : option error) : decoded T :=
  match v with
  | Array vs =>
    match decode_elements store_elem zero vs (get cur) saved with
    | Stored es saved' => Stored (set es cur) saved'
    | Panicked => Panicked
    end
  | Null => Stored (set [] cur) saved
  | Object _ | Bool _ | Number _ | String _ =>
    Stored cur (saveError saved json_UnmarshalTypeError)
  end.

(** A field of kind float64; [ParseFloat] is [strconv.ParseFloat(s, 64)],
    [None] when it reports an error. *)
Definition store_float {T F} (ParseFloat : gostring -> option F)
  (set : F -> T -> T) (v : value) (cur : T) (saved : option error)
  : decoded T :=
  match v with
  | Null => Stored cur saved
  | Number l =>
    match ParseFloat l with
    | Some f => Stored (set f cur) saved
    | None => Stored cur (saveError saved json_UnmarshalTypeError)
    end
  | Bool _ | String _ | Array _ | Object _ =>
    Stored cur (saveError saved json_UnmarshalTypeError)
  end.

(** What [json.Unmarshal] and [Decoder.Decode] hand back to their caller. *)
Inductive unmarshalled (T : Type) :=
| Ok (v : T)
| Err (e : error)
| Panic.
Arguments Ok {T}.
Arguments Err {T}.
Arguments Panic {T}.

Definition finish {T} (d : decoded T) : unmarshalled T :=
  match d with
  | Stored b None => Ok b
  | Stored _ (Some e) => Err e
  | Panicked => Panic
  end.

(** [json.Unmarshal(data, &v)] for a struct, [v] holding [zero]. *)
Definition Unmarshal {T} (fields : list (field T)) (zero : T) (data : list byte)
  : unmarshalled T :=
  match scan data with
  | None => Err json_SyntaxError
  | Some v => finish (decode_struct fields v zero None)
  end.

(** [json.NewDecoder(r).Decode(&v)] on a stream holding [data]: the first
    value of the stream is decoded, what follows it is left unread. *)
Definition Decode {T} (fields : list (field T)) (zero : T) (data : list byte)
  : unmarshalled T :=
  match parse_value (S (length data)) 0 data with
  | None => Err json_SyntaxError
  | Some (v, _) => finish (decode_struct fields v zero None)
  end.

(** [structEncoder.encode]: the loop over the fields. *)
Fixpoint encode_fields {T} (fields : list (field T)) (v : T) (next : byte)
  : gostring * byte :=
  match fields with
  | [] => ([], next)
  | f :: fields' =>
    let '(out, next') := encode_fields fields' v x2c in
    (next :: encode_string (name f) ++ [x3a] ++ encode f v ++ out, next')
  end.

(** [json.Marshal(v)] for a struct whose fields encode without error. *)
Definition Marshal {T} (fields : list (field T)) (v : T) : gostring :=
  let '(out, next) := encode_fields fields v x7b in
  if is_ next 0x7b then out ++ lit "{}" else out ++ [x7d].

(** A field of kind string. *)
Definition string_field {T} (name : gostring)
  (equalFold : gostring -> gostring -> bool)
  (get : T -> gostring) (set : gostring -> T -> T) : field T :=
  mkField name equalFold (store_string set) (fun v => encode_string (get v)).

(** A string literal: its content scans up to the closing quote. *)
Definition scans (l : gostring) : Prop :=
  forall R, scan_string (l ++ x22 :: R) = Some (l, R).

(** The bytes [json.Marshal] writes for a Book. *)
Definition book_bytes (T U D : gostring) : gostring :=
  x7b :: x22 :: lit "title" ++ x22 :: x3a :: x22 :: encode_string_body T ++ x22 ::
  x2c :: x22 :: lit "url" ++ x22 :: x3a :: x22 :: encode_string_body U ++ x22 ::
  x2c :: x22 :: lit "description" ++ x22 :: x3a :: x22 :: encode_string_body D ++ x22 ::
  [x7d].

Definition book_value (T U D : gostring) : value :=
  Object [ (lit "title", String (encode_string_body T));
                (lit "url", String (encode_string_body U));
                (lit "description", String (encode_string_body D)) ].

End json.

(** ** fmt *)

Module fmt.

(** A float64 is a sign, a mantissa and a binary exponent, or one of the
    special values. *)
Definition float64 := spec_float.

Inductive arg :=
| Str (s : gostring)
| F64 (f : float64).

Definition digit (n : Z) : byte := z2b (0x30 + n).

Fixpoint digits (fuel : nat) (n : Z) (acc : gostring) : gostring :=
  match fuel with
  | O => acc
  | S fuel' =>
    let acc' := digit (n mod 10) :: acc in
    if n <? 10 then acc' else digits fuel' (n / 10) acc'
  end.

(** The decimal digits of a natural number. *)
Definition itoa (n : Z) : gostring := digits (S (Z.to_nat (Z.log2 n))) n [].

(** The nearest integer to [num / den], halves to the even side. *)
Definition round_half_even (num den : Z) : Z :=
  let q := num / den in
  let r := num mod den in
  if (den <? 2 * r) || ((2 * r =? den) && Z.odd q) then q + 1 else q.

(** [m * 2^e] in millionths, rounded as [strconv] rounds. *)
Definition millionths (m : positive) (e : Z) : Z :=
  if 0 <=? e then Z.pos m * 2 ^ e * 1000000
  else round_half_even (Z.pos m * 1000000) (2 ^ (- e)).

Definition sign (neg : bool) : gostring := if neg then [x2d] else [].

Definition pad6 (n : Z) : gostring :=
  map (fun k => digit ((n / 10 ^ k) mod 10)) [5; 4; 3; 2; 1; 0].

(** The verb [%f] with its default precision of six digits. *)
Definition fmt_f (f : float64) : gostring :=
  match f with
  | S754_nan => lit "NaN"
  | S754_infinity false => lit "+Inf"
  | S754_infinity true => lit "-Inf"
  | S754_zero s => sign s ++ lit "0.000000"
  | S754_finite s m e =>
    let q := millionths m e in
    sign s ++ itoa (q / 1000000) ++ [x2e] ++ pad6 (q mod 1000000)
  end.

(** [fmt.Sprintf] for the verbs the two programs print data with: [%s] on
    a string, [%f] on a float64, and [%%].  [None] stands for every other
    pairing of a directive and an operand. *)
Fixpoint Sprintf (format : gostring) (args : list arg) : option gostring :=
  match format with
  | [] => match args with [] => Some [] | _ :: _ => None end
  | c :: t =>
    if json.is_ c 0x25 then
      match t with
      | [] => None
      | v :: t' =>
        if json.is_ v 0x73 then
          match args with
          | Str s :: args' => option_map (app s) (Sprintf t' args')
          | _ => None
          end
        else if json.is_ v 0x66 then
          match args with
          | F64 f :: args' => option_map (app (fmt_f f)) (Sprintf t' args')
          | _ => None
          end
        else if json.is_ v 0x25 then option_map (cons v) (Sprintf t' args)
        else None
      end
    else option_map (cons c) (Sprintf t args)
  end.

End fmt.

(** ** log: messages are kept as the call wrote them *)

Inductive logarg :=
| AStr (s : gostring)
| AErr (e : error)
| AStatus (StatusCode : Z)                        (* resp.Status() *)
| AResponse (StatusCode : Z) (body : gostring).   (* resp.String() *)

Inductive message :=
| Print (args : list logarg)
| Printf (format : gostring) (args : list logarg).

(** ** net/url *)

Module url.

Definition upperhex : gostring := lit "0123456789ABCDEF".

(** [shouldEscape(c, encodeQueryComponent)]. *)
Definition shouldEscape (c : byte) : bool :=
  let z := b2z c in
  if ((0x61 <=? z) && (z <=? 0x7a)) || ((0x41 <=? z) && (z <=? 0x5a))
     || ((0x30 <=? z) && (z <=? 0x39))
  then false
  else if json.is_ c 0x2d || json.is_ c 0x5f || json.is_ c 0x2e || json.is_ c 0x7e
  then false
  else true.

Definition escape_byte (c : byte) : gostring :=
  if json.is_ c 0x20 then [x2b]
  else if shouldEscape c then
    [x25; nth (Z.to_nat (Z.shiftr (b2z c) 4)) upperhex x00;
          nth (Z.to_nat (Z.land (b2z c) 15)) upperhex x00]
  else [c].

Definition QueryEscape (s : gostring) : gostring := flat_map escape_byte s.

End url.

(** ** bufio *)

Module bufio.

(** A reader over a file: the bytes the file still delivers, and the
    error that ends them when it is not the end of the file. *)
Record Reader := mkReader {
  pending : list byte;
  fault : option error
}.

Fixpoint split_after (delim : byte) (s : list byte) : option (list byte * list byte) :=
  match s with
  | [] => None
  | c :: t =>
    if b2z c =? b2z delim then Some ([c], t)
    else json.prepend [c] (split_after delim t)
  end.

(** [ReadBytes]: the data up to and including the first [delim]; when the
    input ends before one is found, the data read so far and the error. *)
Definition ReadBytes (r : Reader) (delim : byte) : list byte * option error * Reader :=
  match split_after delim (pending r) with
  | Some (line, rest) => (line, None, mkReader rest (fault r))
  | None =>
    (pending r,
     Some match fault r with Some e => e | None => io_EOF end,
     mkReader [] (fault r))
  end.

End bufio.

(** ** The Elasticsearch client *)

(** What an API call of the client returns: an error when the request
    could not be performed, else the response of the server, whatever its
    status. *)
Inductive api_result :=
| TransportError (err : error)
| Response (StatusCode : Z) (body : gostring).

(** [Response.IsError]. *)
Definition IsError (StatusCode : Z) : bool := 299 <? StatusCode.

(** ** Runs: a trace of events and the way the process ends *)

Inductive outcome :=
| Exit0                      (* main returns *)
| Fatal (m : message)        (* log.Fatal, log.Fatalf: the process exits with status 1 *)
| GoPanic                    (* a panic of the runtime *)
| Stuck.                     (* the model does not cover the execution *)

Definition exits_nonzero (o : outcome) : Prop :=
  match o with
  | Fatal _ | GoPanic => True
  | Exit0 | Stuck => False
  end.

(** A computation that logs events of type [E] and either goes on with a
    value or ends the process. *)
Definition M (E A : Type) : Type := list E * (outcome + A).

Definition ret {E A} (a : A) : M E A := ([], inr a).

Definition bind {E A B} (m : M E A) (k : A -> M E B) : M E B :=
  match m with
  | (t, inl o) => (t, inl o)
  | (t, inr a) => let '(t', r) := k a in (t ++ t', r)
  end.

Definition emit {E} (e : E) : M E unit := ([e], inr tt).

Definition halt {E A} (o : outcome) : M E A := ([], inl o).

(** [if err != nil { log.Fatal... }]. *)
Definition check {E} (err : option error) (m : error -> message) : M E unit :=
  match err with
  | Some e => halt (Fatal (m e))
  | None => ret tt
  end.

Definition finish {E} (m : M E unit) : list E * outcome :=
  match m with
  | (t, inl o) => (t, o)
  | (t, inr _) => (t, Exit0)
  end.

Declare Scope run_scope.
Delimit Scope run_scope with run.
Notation "x <- m ;; k" := (bind m (fun x => k))
  (at level 61, m at next level, right associativity) : run_scope.
Notation "m ;;; k" := (bind m (fun _ => k))
  (at level 61, right associativity) : run_scope.

(** ** cmd/load-books/main.go *)

Module LoadBooks.

Open Scope run_scope.

Record Book := mkBook {
  Title : gostring;
  Url : gostring;
  Description : gostring
}.

(** The fields of [Book] with their json tags.  [foldFunc] picks
    [simpleLetterEqualFold] for a name of letters without k or s, and
    [equalFoldRight] for a name with one of them. *)
Definition Book_fields : list (json.field Book) :=
  [ json.string_field (lit "title") json.simpleLetterEqualFold Title
      (fun s b => mkBook s (Url b) (Description b));
    json.string_field (lit "url") json.simpleLetterEqualFold Url
      (fun s b => mkBook (Title b) s (Description b));
    json.string_field (lit "description") json.equalFoldRight Description
      (fun s b => mkBook (Title b) (Url b) s) ].

(** [var book Book]. *)
Definition zero_Book : Book := mkBook [] [] [].

(** What the worker of the bulk indexer calls back with: [OnError] for a
    flush that failed as a whole, [OnFailure] for one item, with the
    [Error.Type] and [Error.Reason] of its response and the error. *)
Inductive callback :=
| OnError (err : error)
| OnFailure (res_Error_Type res_Error_Reason : gostring) (err : option error).

(** Everything outside the program.  The worker of the bulk indexer runs
    beside the loop; its callbacks are observed at the granularity of the
    items: [bulk_Add n] gives the callbacks that ran while the [n]-th item
    was added and what that call of [Add] returned. *)
Record Env := mkEnv {
  godotenv_Load : option error;
  NewClient : option error;
  Indices_Create : api_result;
  NewBulkIndexer : option error;
  os_Open : error + bufio.Reader;
  bulk_Add : nat -> list callback * option error;
  bulk_Close : list callback * option error
}.

Inductive event :=
| Stdout (text : gostring)
| Log (m : message)
| IndicesCreate (index body : gostring)
| ReadBytes
| Decoded (book : Book)
| BulkAdd (Action body : gostring)
| BulkClose
| FileClose.

Definition indexName : gostring := golit "books".

Definition indexBody : gostring :=
  golit "\n\t{\n\t  'settings': {\n\t    'number_of_shards': 1\n\t  },\n\t  'mappings': {\n\t    'properties': {\n\t      'title': {\n\t        'type': 'text'\n\t      },\n\t      'url': {\n\t        'type': 'text'\n\t      },\n\t      'description': {\n\t        'type': 'text'\n\t      }\n\t    }\n\t  }\n\t}".

(** The two callbacks the program installs (lines 79-81 and 125-131). *)
Definition run_callback (c : callback) : M event unit :=
  match c with
  | OnError err =>
    halt (Fatal (Printf (golit "bulkindexer OnError %#v") [AErr err]))
  | OnFailure _ _ (Some err) =>
    emit (Log (Printf (golit "ERROR: %s") [AErr err]))
  | OnFailure ty reason None =>
    emit (Log (Printf (golit "ERROR: %s: %s") [AStr ty; AStr reason]))
  end.

Fixpoint run_callbacks (cs : list callback) : M event unit :=
  match cs with
  | [] => ret tt
  | c :: cs' => run_callback c ;;; run_callbacks cs'
  end.

(** Lines 106-137: one line that was read is decoded, encoded again and
    added; [n] counts the items added before. *)
Definition process (env : Env) (readBytes : list byte) (n : nat) : M event unit :=
  match json.Unmarshal Book_fields zero_Book readBytes with
  | json.Err e =>
    halt (Fatal (Printf (golit "error unmarshalling json: %v") [AErr e]))
  | json.Panic => halt GoPanic
  | json.Ok book =>
    emit (Decoded book) ;;;
    let documentBytes := json.Marshal Book_fields book in
    emit (BulkAdd (golit "index") documentBytes) ;;;
    let '(callbacks, err) := bulk_Add env n in
    run_callbacks callbacks ;;;
    check err (fun e =>
      Printf (golit "error adding item to bulk indexer: %v") [AErr e])
  end.

(** The loop of lines 95-138. *)
Fixpoint loop (fuel : nat) (env : Env) (reader : bufio.Reader) (n : nat)
  : M event unit :=
  match fuel with
  | O => halt Stuck
  | S fuel' =>
    emit ReadBytes ;;;
    let '(readBytes, err, reader') := bufio.ReadBytes reader x0a in
    match err with
    | Some io_EOF => ret tt
    | Some e => halt (Fatal (Printf (golit "error reading readBytes: %v") [AErr e]))
    | None => process env readBytes n ;;; loop fuel' env reader' (S n)
    end
  end.

(** The loop on a reader; the fuel covers one pass per byte and the
    last call of [ReadBytes]. *)
Definition run_loop (env : Env) (reader : bufio.Reader) (n : nat) : M event unit :=
  loop (S (length (bufio.pending reader))) env reader n.

(** Lines 26-91: everything before the loop. *)
Definition startup (env : Env) : M event bufio.Reader :=
  emit (Stdout (golit "Hello from load-books\n")) ;;;
  check (godotenv_Load env) (fun _ => Print [AStr (golit "Error loading .env file")]) ;;;
  check (NewClient env) (fun e => Print [AErr e]) ;;;
  emit (IndicesCreate indexName indexBody) ;;;
  match Indices_Create env with
  | TransportError e => halt (Fatal (Print [AErr e]))
  | Response _ _ => ret tt
  end ;;;
  check (NewBulkIndexer env) (fun e => Print [AErr e]) ;;;
  match os_Open env with
  | inl e => halt (Fatal (Print [AErr e]))
  | inr r => ret r
  end.

(** Lines 139-142: everything after the loop. *)
Definition closing (env : Env) : M event unit :=
  emit BulkClose ;;;
  let '(callbacks, err) := bulk_Close env in
  run_callbacks callbacks ;;;
  check err (fun e => Printf (golit "Unexpected error: %s") [AErr e]) ;;;
  emit FileClose.

Definition main (env : Env) : list event * outcome :=
  finish (
    reader <- startup env ;;
    run_loop env reader 0 ;;;
    closing env).

(** One pass of the loop on a line that was read, and the passes on a
    list of lines. *)
Definition handle_line (env : Env) (readBytes : list byte) (n : nat) : M event unit :=
  emit ReadBytes ;;; process env readBytes n.

Fixpoint handle_lines (env : Env) (lines : list (list byte)) (n : nat) : M event unit :=
  match lines with
  | [] => ret tt
  | l :: lines' => handle_line env l n ;;; handle_lines env lines' (S n)
  end.

(** The environment gets the program as far as the loop, on [reader]. *)
Definition starts (env : Env) (reader : bufio.Reader) : Prop :=
  godotenv_Load env = None /\ NewClient env = None /\
  (exists code body, Indices_Create env = Response code body) /\
  NewBulkIndexer env = None /\ os_Open env = inr reader.

Definition is_OnError (c : callback) : bool :=
  match c with OnError _ => true | OnFailure _ _ _ => false end.

(** The bulk indexer reports no failed flush and no failed call of [Add]
    for the first [k] items. *)
Definition quiet (env : Env) (k : nat) : Prop :=
  forall n, (n < k)%nat ->
    existsb is_OnError (fst (bulk_Add env n)) = false /\ snd (bulk_Add env n) = None.

(** The same environment with another file. *)
Definition with_file (env : Env) (content : list byte) : Env :=
  mkEnv (godotenv_Load env) (NewClient env) (Indices_Create env)
        (NewBulkIndexer env) (inr (bufio.mkReader content None))
        (bulk_Add env) (bulk_Close env).


Definition is_Log (e : event) : bool :=
  match e with Log _ => true | _ => false end.

(** A record all of whose fields are well-formed UTF-8. *)
Definition valid_Book (b : Book) : Prop :=
  utf8.valid (Title b) /\ utf8.valid (Url b) /\ utf8.valid (Description b).

(** The decoder turns the line into the record, without error. *)
Definition decodes (l : list byte) (b : Book) : Prop :=
  json.Unmarshal Book_fields zero_Book l = json.Ok b.

(** One line of the file: it ends with its only newline. *)
Definition is_line (l : list byte) : Prop :=
  bufio.split_after x0a l = Some (l, []).

(** The bodies handed to [bulkIndexer.Add], in order. *)
Fixpoint submitted (t : list event) : list gostring :=
  match t with
  | [] => []
  | BulkAdd _ body :: t' => body :: submitted t'
  | _ :: t' => submitted t'
  end.

(** The records [json.Unmarshal] produced, in order. *)
Fixpoint decoded_books (t : list event) : list Book :=
  match t with
  | [] => []
  | Decoded b :: t' => b :: decoded_books t'
  | _ :: t' => decoded_books t'
  end.

(** The number of calls of [reader.ReadBytes]. *)
Fixpoint reads (t : list event) : nat :=
  match t with
  | [] => O
  | ReadBytes :: t' => S (reads t')
  | _ :: t' => reads t'
  end.

(** The lines written by [log.Printf]. *)
Fixpoint logged (t : list event) : list message :=
  match t with
  | [] => []
  | Log m :: t' => m :: logged t'
  | _ :: t' => logged t'
  end.

End LoadBooks.

(** ** cmd/search-books/main.go *)

Module SearchBooks.

Open Scope run_scope.

Record Book := mkBook {
  Title : gostring;
  Url : gostring;
  Description : gostring
}.

Definition Book_fields : list (json.field Book) :=
  [ json.string_field (lit "title") json.simpleLetterEqualFold Title
      (fun s b => mkBook s (Url b) (Description b));
    json.string_field (lit "url") json.simpleLetterEqualFold Url
      (fun s b => mkBook (Title b) s (Description b));
    json.string_field (lit "description") json.equalFoldRight Description
      (fun s b => mkBook (Title b) (Url b) s) ].

Definition zero_Book : Book := mkBook [] [] [].

(** The element type of [Hits.Hits]: a [Book] tagged [_source] and a
    [Score] tagged [_score]. *)
Record Hit := mkHit {
  Book_ : Book;
  Score : fmt.float64
}.

(** The type of the field [Hits]: a struct with one field [Hits] tagged
    [hits]. *)
Record HitsStruct := mkHits {
  Hits : list Hit
}.

Record BookSearchResponse := mkResponse {
  Took : fmt.float64;
  Hits_ : HitsStruct
}.

Definition zero_float : fmt.float64 := S754_zero false.
Definition zero_Hit : Hit := mkHit zero_Book zero_float.
Definition zero_Response : BookSearchResponse :=
  mkResponse zero_float (mkHits []).

Section Decoding.

(** [strconv.ParseFloat(s, 64)], [None] when it reports an error. *)
Variable ParseFloat : gostring -> option fmt.float64.

Definition Hit_fields : list (json.field Hit) :=
  [ json.mkField (lit "_source") json.equalFoldRight
      (json.store_struct Book_fields Book_ (fun b h => mkHit b (Score h)))
      (fun _ => []);
    json.mkField (lit "_score") json.equalFoldRight
      (json.store_float ParseFloat (fun f h => mkHit (Book_ h) f))
      (fun _ => []) ].

Definition HitsStruct_fields : list (json.field HitsStruct) :=
  [ json.mkField (lit "hits") json.equalFoldRight
      (json.store_slice (json.decode_struct Hit_fields) zero_Hit Hits
         (fun hs _ => mkHits hs))
      (fun _ => []) ].

Definition BookSearchResponse_fields : list (json.field BookSearchResponse) :=
  [ json.mkField (lit "took") json.equalFoldRight
      (json.store_float ParseFloat (fun f r => mkResponse f (Hits_ r)))
      (fun _ => []);
    json.mkField (lit "hits") json.equalFoldRight
      (json.store_struct HitsStruct_fields Hits_ (fun h r => mkResponse (Took r) h))
      (fun _ => []) ].

End Decoding.

Record Env := mkEnv {
  godotenv_Load : option error;
  NewClient : option error;
  client_Search : gostring -> gostring -> api_result;
  ParseFloat : gostring -> option fmt.float64
}.

Inductive event :=
| Stdout (text : gostring)
| Search (index body : gostring)
| BodyClose.

(** [fmt.Printf]. *)
Definition printf (format : gostring) (args : list fmt.arg) : M event unit :=
  match fmt.Sprintf format args with
  | Some text => emit (Stdout text)
  | None => halt Stuck
  end.

Definition sprintf (format : gostring) (args : list fmt.arg) : M event gostring :=
  match fmt.Sprintf format args with
  | Some text => ret text
  | None => halt Stuck
  end.

Definition query_template : gostring :=
  golit " {\n\t   'query': {\n\t   \t'multi_match':{\n\t\t  'query':'%s',\n\t\t  'fields': [ 'title', 'url', 'description' ]\n\t\t}\n\t   },\n\t   'size': 10\n\t}".

(** The loop of lines 85-87. *)
Fixpoint print_hits (hits : list Hit) : M event unit :=
  match hits with
  | [] => ret tt
  | bookHit :: hits' =>
    printf (golit "%s, %s with score of %f\n")
      [fmt.Str (Title (Book_ bookHit)); fmt.Str (Url (Book_ bookHit));
       fmt.F64 (Score bookHit)] ;;;
    print_hits hits'
  end.

(** Lines 57-87, shared by the two copies of the tool: the request is
    sent with the body [query] and the response is printed. *)
Definition search_and_print (env : Env) (query : gostring) : M event unit :=
  emit (Search (golit "books") query) ;;;
  resp <- match client_Search env (golit "books") query with
          | TransportError e => halt (Fatal (Print [AErr e]))
          | Response code body => ret (code, body)
          end ;;
  let '(code, body) := resp in
  (if IsError code
   then halt (Fatal (Printf (golit "Error querying, status: %s, response body: %s")
                            [AStatus code; AResponse code body]))
   else ret tt) ;;;
  match json.Decode (BookSearchResponse_fields (ParseFloat env)) zero_Response body with
  | json.Err e => halt (Fatal (Print [AErr e]))
  | json.Panic => halt GoPanic
  | json.Ok bookSearchResponse =>
    print_hits (Hits (Hits_ bookSearchResponse)) ;;;
    emit BodyClose
  end.

(** [main]; [queryPtr] is the value of the flag [-query] after
    [flag.Parse], the empty string when the flag is not given. *)
Definition main (env : Env) (queryPtr : gostring) : list event * outcome :=
  finish (
    (if (length queryPtr =? 0)%nat
     then halt (Fatal (Printf (golit "No query provided for -query parameter") []))
     else ret tt) ;;;
    printf (golit "Searching books for: %s\n") [fmt.Str queryPtr] ;;;
    check (godotenv_Load env) (fun _ => Print [AStr (golit "Error loading .env file")]) ;;;
    check (NewClient env) (fun e => Print [AErr e]) ;;;
    query <- sprintf query_template [fmt.Str queryPtr] ;;
    search_and_print env query).

(** A response of the server with one hit whose [_source] is the given
    document. *)
Definition response_with (source : gostring) : gostring :=
  golit "{'hits':{'hits':[{'_source':" ++ source ++ golit "}]}}".

(** The bodies of the search requests issued. *)
Fixpoint requests (t : list event) : list gostring :=
  match t with
  | [] => []
  | Search _ body :: t' => body :: requests t'
  | _ :: t' => requests t'
  end.

(** Everything written to the standard output. *)
Fixpoint stdout (t : list event) : gostring :=
  match t with
  | [] => []
  | Stdout text :: t' => text ++ stdout t'
  | _ :: t' => stdout t'
  end.

End SearchBooks.

(** ** The second copy of the search tool (a source file whose name is
    not known): no check of the flag, and the query goes through
    [url.QueryEscape].  It declares the same types as the first copy. *)

Module SearchBooksAlt.

Import SearchBooks.
Open Scope run_scope.

Definition query : gostring := SearchBooks.query_template.

Definition main (env : Env) (queryPtr : gostring) : list event * outcome :=
  finish (
    emit (Stdout (golit "Hello from search-books\n")) ;;;
    check (godotenv_Load env) (fun _ => Print [AStr (golit "Error loading .env file")]) ;;;
    check (NewClient env) (fun e => Print [AErr e]) ;;;
    body <- sprintf query [fmt.Str (url.QueryEscape queryPtr)] ;;
    search_and_print env body).

End SearchBooksAlt.

(** ** Vocabulary of the statements *)

(** [bulkIndexer.Close] reports no error, neither by its callback nor by
    its result. *)
Definition closes (env : LoadBooks.Env) : Prop :=
  existsb LoadBooks.is_OnError (fst (LoadBooks.bulk_Close env)) = false /\
  snd (LoadBooks.bulk_Close env) = None.

Definition without_logs (t : list LoadBooks.event) : list LoadBooks.event :=
  filter (fun e => negb (LoadBooks.is_Log e)) t.

(** Two computations that differ by log lines only. *)
Definition same_but_logs {A} (m m' : M LoadBooks.event A) : Prop :=
  without_logs (fst m) = fst m' /\ snd m = snd m'.

Definition no_percent (s : gostring) : bool :=
  forallb (fun c => negb (json.is_ c 0x25)) s.

(** The template of the request body, before and after its [%s]. *)
Definition query_prefix : gostring :=
  Eval vm_compute in golit " {\n\t   'query': {\n\t   \t'multi_match':{\n\t\t  'query':'".

Definition query_suffix : gostring :=
  Eval vm_compute in golit "',\n\t\t  'fields': [ 'title', 'url', 'description' ]\n\t\t}\n\t   },\n\t   'size': 10\n\t}".

Definition query_body (text : gostring) : gostring :=
  query_prefix ++ text ++ query_suffix.

(** The document the request body is meant to be, with the string [text]
    as it is written between the quotes. *)
Definition query_value (text : gostring) : json.value :=
  json.Object
    [ (lit "query", json.Object
        [ (lit "multi_match", json.Object
            [ (lit "query", json.String text);
              (lit "fields", json.Array
                 [json.String (lit "title"); json.String (lit "url");
                  json.String (lit "description")]) ]) ]);
      (lit "size", json.Number (lit "10")) ].

(** A byte that stands for itself inside a JSON string. *)
Definition plain (c : byte) : bool :=
  negb (json.is_ c 0x22) && negb (json.is_ c 0x5c) && negb (b2z c <? 0x20).

(** The inside of a string literal the scanner accepts: bytes that stand
    for themselves, the escapes of one letter, and [\u] with four
    hexadecimal digits. *)
Inductive quotable : gostring -> Prop :=
| quotable_nil : quotable []
| quotable_plain c t : plain c = true -> quotable t -> quotable (c :: t)
| quotable_escape e t :
    json.is_ e 0x62 || json.is_ e 0x66 || json.is_ e 0x6e || json.is_ e 0x72
    || json.is_ e 0x74 || json.is_ e 0x5c || json.is_ e 0x2f || json.is_ e 0x22 = true ->
    quotable t -> quotable (x5c :: e :: t)
| quotable_u h1 h2 h3 h4 t :
    json.isHex h1 && json.isHex h2 && json.isHex h3 && json.isHex h4 = true ->
    quotable t -> quotable (x5c :: x75 :: h1 :: h2 :: h3 :: h4 :: t).

(** A value all of whose keys and strings are such literals. *)
#[warnings="-register-all"]
Inductive wf_value : json.value -> Prop :=
| wf_Null : wf_value json.Null
| wf_Bool b : wf_value (json.Bool b)
| wf_Number l : wf_value (json.Number l)
| wf_String l : quotable l -> wf_value (json.String l)
| wf_Array vs : Forall wf_value vs -> wf_value (json.Array vs)
| wf_Object ms :
    Forall (fun kv => quotable (fst kv) /\ wf_value (snd kv)) ms ->
    wf_value (json.Object ms).

(** The line of output of one hit. *)
Definition hit_line (h : SearchBooks.Hit) : gostring :=
  SearchBooks.Title (SearchBooks.Book_ h) ++ lit ", " ++
  SearchBooks.Url (SearchBooks.Book_ h) ++ lit " with score of " ++
  fmt.fmt_f (SearchBooks.Score h) ++ [x0a].

Definition hit_events (hits : list SearchBooks.Hit) : list SearchBooks.event :=
  map (fun h => SearchBooks.Stdout (hit_line h)) hits.

(** The texts written to the standard output, one per call. *)
Fixpoint printed (t : list SearchBooks.event) : list gostring :=
  match t with
  | [] => []
  | SearchBooks.Stdout text :: t' => text :: printed t'
  | _ :: t' => printed t'
  end.

Definition all_digits (s : gostring) : Prop :=
  Forall (fun c => json.isDigit c = true) s.

(** The number a string of decimal digits writes. *)
Definition decimal (s : gostring) : Z :=
  fold_left (fun a c => 10 * a + (b2z c - 0x30)) s 0.

(** Fixed-point notation with six decimals, writing [q] millionths: an
    optional minus sign, at least one digit, a point and six digits. *)
Definition is_fixed_point (neg : bool) (q : Z) (s : gostring) : Prop :=
  exists ip fp,
    s = fmt.sign neg ++ ip ++ [x2e] ++ fp /\
    ip <> [] /\ all_digits ip /\
    length fp = 6%nat /\ all_digits fp /\
    decimal ip * 1000000 + decimal fp = q.

(** [q] is the integer nearest to [num / den], the even one of the two
    when they are as near. *)
Definition nearest_even (q num den : Z) : Prop :=
  2 * Z.abs (q * den - num) <= den /\
  (2 * Z.abs (q * den - num) = den -> Z.even q = true).

(** The float is a number with the sign [neg], and [q] is its absolute
    value in millionths, rounded to the nearest. *)
Definition rounds_to (f : fmt.float64) (neg : bool) (q : Z) : Prop :=
  match f with
  | S754_zero s => neg = s /\ q = 0
  | S754_finite s m e =>
    neg = s /\
    if 0 <=? e then q = Z.pos m * 2 ^ e * 1000000
    else nearest_even q (Z.pos m * 1000000) (2 ^ (- e))
  | _ => False
  end.

Definition is_number (f : fmt.float64) : Prop :=
  match f with
  | S754_zero _ | S754_finite _ _ _ => True
  | _ => False
  end.

(** ** Example runs *)

(** An environment in which every call succeeds, on a given file. *)
Definition calm_env (content : list byte) : LoadBooks.Env :=
  LoadBooks.mkEnv None None (Response 200 []) None
    (inr (bufio.mkReader content None)) (fun _ => ([], None)) ([], None).

Definition line_A : gostring := Eval vm_compute in golit "{'title':'A','url':'u','isbn':'1'}\n".
Definition lines_CD : gostring := Eval vm_compute in golit "{'title':'C'}\n{'title':'D'}\n".
Definition tail_E : gostring := Eval vm_compute in golit "{'title':'E'}".
Definition book_A : LoadBooks.Book := LoadBooks.mkBook [x41] [x75] [].

(** The server answers the creation of an index that exists with the
    status 400; the call itself returns no error. *)
Definition existing_index_env : LoadBooks.Env :=
  LoadBooks.mkEnv None None
    (Response 400 (lit "resource_already_exists_exception")) None
    (inr (bufio.mkReader line_A None)) (fun _ => ([], None)) ([], None).

(** [strconv.ParseFloat] on the two numbers of the example. *)
Definition parse_float_table (s : gostring) : option fmt.float64 :=
  if json.bytes_eqb s (lit "1.5") then Some (S754_finite false 3 (-1))
  else if json.bytes_eqb s (lit "3") then Some (S754_finite false 3 0)
  else None.

Definition two_hits_response : gostring :=
  Eval vm_compute in
  golit "{'took':3,'hits':{'hits':[{'_index':'books','_score':1.5,'_source':{'title':'A','url':'u','description':'d'}},{'_score':3,'_source':{'title':'B','url':'v'}}]}}".

Definition two_hits : SearchBooks.BookSearchResponse :=
  SearchBooks.mkResponse (S754_finite false 3 0)
    (SearchBooks.mkHits
       [ SearchBooks.mkHit (SearchBooks.mkBook [x41] [x75] [x64]) (S754_finite false 3 (-1));
         SearchBooks.mkHit (SearchBooks.mkBook [x42] [x76] []) (S754_finite false 3 0) ]).

(** A service that answers every search with the same two hits. *)
Definition search_env : SearchBooks.Env :=
  SearchBooks.mkEnv None None (fun _ _ => Response 200 two_hits_response) parse_float_table.

Definition dogs : gostring := Eval vm_compute in lit "dogs".

(** ** Vocabulary and examples for the further properties *)

(** The index-creation requests of a run: name and body. *)
Fixpoint creations (t : list LoadBooks.event) : list (gostring * gostring) :=
  match t with
  | [] => []
  | LoadBooks.IndicesCreate index body :: t' => (index, body) :: creations t'
  | _ :: t' => creations t'
  end.

(** The events of the loop of the loader. *)
Definition loop_event (e : LoadBooks.event) : bool :=
  match e with
  | LoadBooks.ReadBytes | LoadBooks.Decoded _ | LoadBooks.BulkAdd _ _ | LoadBooks.Log _ => true
  | _ => false
  end.

(** The number of newline bytes of a file. *)
Definition newlines (s : list byte) : nat :=
  length (filter (fun c => b2z c =? 0x0a) s).

(** An environment in which the program gets to its loop, on a file with
    a given content and read error, with a bulk indexer that behaves as
    told. *)
Definition loading_env (content : list byte) (flt : option error)
  (add : nat -> list LoadBooks.callback * option error)
  (close : list LoadBooks.callback * option error) : LoadBooks.Env :=
  LoadBooks.mkEnv None None (Response 200 []) None
    (inr (bufio.mkReader content flt)) add close.

Definition some_error : error := other_error (lit "connection reset").

(** An indexer that answers [r] when item [k] is added and reports
    nothing for the other items. *)
Definition only_at (k : nat) (r : list LoadBooks.callback * option error) (n : nat)
  : list LoadBooks.callback * option error :=
  if (n =? k)%nat then r else ([], None).

Definition line_C : gostring := Eval vm_compute in firstn 14 lines_CD.
Definition line_D : gostring := Eval vm_compute in skipn 14 lines_CD.
Definition book_C : LoadBooks.Book := LoadBooks.mkBook [x43] [] [].

(** A byte that may stand in one line of a bulk request and in a page of
    HTML: no control character (so no newline), and none of [<], [>],
    [&]. *)
Definition line_safe (c : byte) : bool :=
  (0x20 <=? b2z c) && negb (json.is_ c 0x3c) && negb (json.is_ c 0x3e)
  && negb (json.is_ c 0x26).

(** The file made of the documents of a list of records, one per line. *)
Definition lines_of (books : list LoadBooks.Book) : list (list byte) :=
  map (fun b => json.Marshal LoadBooks.Book_fields b ++ [x0a]) books.

(** The bytes [url.QueryEscape] leaves as they are: letters, digits and
    [-], [_], [.], [~]. *)
Definition unreserved (c : byte) : bool :=
  negb (json.is_ c 0x20) && negb (url.shouldEscape c).

(** The line the first copy of the search tool prints before anything
    else. *)
Definition search_header (q : gostring) : gostring :=
  lit "Searching books for: " ++ q ++ [x0a].

(** A response whose second hit has a string where its score should
    be. *)
Definition bad_score_response : gostring :=
  Eval vm_compute in
  golit "{'hits':{'hits':[{'_score':1.5,'_source':{'title':'A'}},{'_score':'high','_source':{'title':'B'}}]}}".

(** A line whose title holds a byte that is no UTF-8. *)
Definition line_bad_utf8 : gostring :=
  Eval vm_compute in lit "{" ++ [x22] ++ lit "title" ++ [x22; x3a; x22; xff; x22] ++ lit "}" ++ [x0a].

(* ================================================================== *)
(** * Part II: lemmas and theorems                                     *)
(* ================================================================== *)

(** ** Bytes *)

Lemma b2z_range (b : byte) : 0 <= b2z b <= 255.
Proof.
  unfold b2z. pose proof (Byte.to_N_bounded b). lia.
Qed.

Lemma z2b_b2z (b : byte) : z2b (b2z b) = b.
Proof.
  unfold z2b. pose proof (b2z_range b).
  rewrite Z.mod_small by lia. unfold b2z.
  rewrite N2Z.id, Byte.of_to_N. reflexivity.
Qed.

Lemma b2z_z2b (z : Z) : b2z (z2b z) = z mod 256.
Proof.
  unfold z2b, b2z.
  assert (Hr : 0 <= z mod 256 < 256) by (apply Z.mod_pos_bound; lia).
  destruct (Byte.of_N (Z.to_N (z mod 256))) as [b|] eqn:E.
  - apply Byte.to_of_N in E. rewrite E. rewrite Z2N.id; lia.
  - apply Byte.of_N_None_iff in E. lia.
Qed.

(** ** Bit operations as arithmetic *)

Lemma testbit_small b k n : 0 <= b < 2 ^ k -> k <= n -> Z.testbit b n = false.
Proof.
  intros Hb Hn.
  destruct (Z.eq_dec b 0) as [->|Hz]; [apply Z.bits_0|].
  apply Z.bits_above_log2; [lia|].
  assert (Z.log2 b < k) by (apply Z.log2_lt_pow2; lia). lia.
Qed.

Lemma lor_mul_pow2 a b k : 0 <= k -> 0 <= b < 2 ^ k -> Z.lor (a * 2 ^ k) b = a * 2 ^ k + b.
Proof.
  intros Hk Hb.
  assert (Hd : Z.land (a * 2 ^ k) b = 0).
  { apply Z.bits_inj'; intros n Hn. rewrite Z.land_spec, Z.bits_0.
    destruct (Z.lt_ge_cases n k).
    - rewrite Z.mul_pow2_bits_low by lia. reflexivity.
    - rewrite (testbit_small b k n) by lia. apply andb_false_r. }
  rewrite <- Z.lxor_lor by exact Hd.
  symmetry. apply Z.add_nocarry_lxor. exact Hd.
Qed.

Lemma land_maskx y : Z.land y utf8.maskx = y mod 64.
Proof. change utf8.maskx with (Z.ones 6). rewrite Z.land_ones by lia. reflexivity. Qed.
Lemma land_mask2 y : Z.land y utf8.mask2 = y mod 32.
Proof. change utf8.mask2 with (Z.ones 5). rewrite Z.land_ones by lia. reflexivity. Qed.
Lemma land_mask3 y : Z.land y utf8.mask3 = y mod 16.
Proof. change utf8.mask3 with (Z.ones 4). rewrite Z.land_ones by lia. reflexivity. Qed.
Lemma land_mask4 y : Z.land y utf8.mask4 = y mod 8.
Proof. change utf8.mask4 with (Z.ones 3). rewrite Z.land_ones by lia. reflexivity. Qed.

Lemma cont_byte y : Z.lor utf8.tx (Z.land (utf8.byte_of y) utf8.maskx) = 128 + y mod 64.
Proof.
  rewrite land_maskx. unfold utf8.byte_of.
  change utf8.tx with (1 * 2 ^ 7).
  rewrite lor_mul_pow2; [| lia |].
  - Z.div_mod_to_equations. lia.
  - Z.div_mod_to_equations. lia.
Qed.

Lemma lead2_byte y : 0 <= y < 32 -> Z.lor utf8.t2 (utf8.byte_of y) = 192 + y.
Proof.
  intros. unfold utf8.byte_of. rewrite Z.mod_small by lia.
  change utf8.t2 with (3 * 2 ^ 6). rewrite lor_mul_pow2; lia.
Qed.
Lemma lead3_byte y : 0 <= y < 16 -> Z.lor utf8.t3 (utf8.byte_of y) = 224 + y.
Proof.
  intros. unfold utf8.byte_of. rewrite Z.mod_small by lia.
  change utf8.t3 with (7 * 2 ^ 5). rewrite lor_mul_pow2; lia.
Qed.
Lemma lead4_byte y : 0 <= y < 8 -> Z.lor utf8.t4 (utf8.byte_of y) = 240 + y.
Proof.
  intros. unfold utf8.byte_of. rewrite Z.mod_small by lia.
  change utf8.t4 with (15 * 2 ^ 4). rewrite lor_mul_pow2; lia.
Qed.

Lemma dec2_value p0 b1 :
  Z.lor (Z.shiftl (Z.land p0 utf8.mask2) 6) (Z.land b1 utf8.maskx) = (p0 mod 32) * 64 + b1 mod 64.
Proof.
  rewrite land_mask2, land_maskx, Z.shiftl_mul_pow2 by lia.
  rewrite lor_mul_pow2; [reflexivity | lia | apply Z.mod_pos_bound; lia].
Qed.

Lemma dec3_value p0 b1 b2 :
  Z.lor (Z.lor (Z.shiftl (Z.land p0 utf8.mask3) 12) (Z.shiftl (Z.land b1 utf8.maskx) 6)) (Z.land b2 utf8.maskx)
  = (p0 mod 16) * 4096 + (b1 mod 64) * 64 + b2 mod 64.
Proof.
  rewrite land_mask3, !land_maskx, !Z.shiftl_mul_pow2 by lia.
  pose proof (Z.mod_pos_bound b1 64 ltac:(lia)).
  pose proof (Z.mod_pos_bound b2 64 ltac:(lia)).
  rewrite lor_mul_pow2 by lia.
  replace (p0 mod 16 * 2 ^ 12 + b1 mod 64 * 2 ^ 6) with ((p0 mod 16 * 64 + b1 mod 64) * 2 ^ 6) by lia.
  rewrite lor_mul_pow2 by lia. lia.
Qed.

Lemma dec4_value p0 b1 b2 b3 :
  Z.lor (Z.lor (Z.lor (Z.shiftl (Z.land p0 utf8.mask4) 18) (Z.shiftl (Z.land b1 utf8.maskx) 12))
                (Z.shiftl (Z.land b2 utf8.maskx) 6)) (Z.land b3 utf8.maskx)
  = (p0 mod 8) * 262144 + (b1 mod 64) * 4096 + (b2 mod 64) * 64 + b3 mod 64.
Proof.
  rewrite land_mask4, !land_maskx, !Z.shiftl_mul_pow2 by lia.
  pose proof (Z.mod_pos_bound b1 64 ltac:(lia)).
  pose proof (Z.mod_pos_bound b2 64 ltac:(lia)).
  pose proof (Z.mod_pos_bound b3 64 ltac:(lia)).
  rewrite (lor_mul_pow2 (p0 mod 8) _ 18) by (change (2 ^ 18) with 262144; lia).
  replace (p0 mod 8 * 2 ^ 18 + b1 mod 64 * 2 ^ 12)
    with ((p0 mod 8 * 64 + b1 mod 64) * 2 ^ 12)
    by (change (2 ^ 18) with 262144; lia).
  rewrite lor_mul_pow2 by lia.
  replace ((p0 mod 8 * 64 + b1 mod 64) * 2 ^ 12 + b2 mod 64 * 2 ^ 6)
    with ((p0 mod 8 * 4096 + b1 mod 64 * 64 + b2 mod 64) * 2 ^ 6) by lia.
  rewrite lor_mul_pow2 by lia. lia.
Qed.

Ltac zsolve := Z.div_mod_to_equations; lia.

Ltac zb :=
  repeat match goal with
  | |- context [Z.ltb ?a ?b] =>
      first [ replace (Z.ltb a b) with true by (symmetry; apply Z.ltb_lt; zsolve)
            | replace (Z.ltb a b) with false by (symmetry; apply Z.ltb_ge; zsolve) ]
  | |- context [Z.leb ?a ?b] =>
      first [ replace (Z.leb a b) with true by (symmetry; apply Z.leb_le; zsolve)
            | replace (Z.leb a b) with false by (symmetry; apply Z.leb_gt; zsolve) ]
  | |- context [Z.geb ?a ?b] =>
      first [ replace (Z.geb a b) with true by (symmetry; rewrite Z.geb_leb; apply Z.leb_le; zsolve)
            | replace (Z.geb a b) with false by (symmetry; rewrite Z.geb_leb; apply Z.leb_gt; zsolve) ]
  | |- context [Z.eqb ?a ?b] =>
      first [ replace (Z.eqb a b) with true by (symmetry; apply Z.eqb_eq; zsolve)
            | replace (Z.eqb a b) with false by (symmetry; apply Z.eqb_neq; zsolve) ]
  end.

Lemma shr6 r : Z.shiftr r 6 = r / 64.
Proof. rewrite Z.shiftr_div_pow2 by lia. reflexivity. Qed.
Lemma shr12 r : Z.shiftr r 12 = r / 4096.
Proof. rewrite Z.shiftr_div_pow2 by lia. reflexivity. Qed.
Lemma shr18 r : Z.shiftr r 18 = r / 262144.
Proof. rewrite Z.shiftr_div_pow2 by lia. reflexivity. Qed.

Lemma encode_1 r : 0 <= r <= 0x7F -> utf8.EncodeRune r = [z2b r].
Proof.
  intros. unfold utf8.EncodeRune, uint32, utf8.byte_of, utf8.rune1Max.
  change (2 ^ 32) with 4294967296. rewrite (Z.mod_small r 4294967296) by lia. zb.
  rewrite Z.mod_small by lia. reflexivity.
Qed.

Lemma encode_2 r : 0x80 <= r <= 0x7FF ->
  utf8.EncodeRune r = [z2b (192 + r / 64); z2b (128 + r mod 64)].
Proof.
  intros. unfold utf8.EncodeRune, uint32, utf8.rune1Max, utf8.rune2Max.
  change (2 ^ 32) with 4294967296. rewrite (Z.mod_small r 4294967296) by lia. zb.
  rewrite cont_byte, shr6, lead2_byte; [reflexivity|]. Z.div_mod_to_equations; lia.
Qed.

Lemma encode3_eq r : 0x800 <= r <= 0xFFFF ->
  utf8.encode3 r = [z2b (224 + r / 4096); z2b (128 + (r / 64) mod 64); z2b (128 + r mod 64)].
Proof.
  intros. unfold utf8.encode3.
  rewrite !cont_byte, shr6, shr12, lead3_byte; [reflexivity|]. Z.div_mod_to_equations; lia.
Qed.

Lemma encode_3 r : 0x800 <= r <= 0xFFFF -> ~ (0xD800 <= r <= 0xDFFF) ->
  utf8.EncodeRune r = [z2b (224 + r / 4096); z2b (128 + (r / 64) mod 64); z2b (128 + r mod 64)].
Proof.
  intros. unfold utf8.EncodeRune, uint32, utf8.rune1Max, utf8.rune2Max, utf8.rune3Max,
    utf8.MaxRune, utf8.surrogateMin, utf8.surrogateMax.
  change (2 ^ 32) with 4294967296. rewrite (Z.mod_small r 4294967296) by lia.
  zb. 
  assert (E : (0xD800 <=? r) && (r <=? 0xDFFF) = false).
  { destruct (Z.leb_spec 0xD800 r), (Z.leb_spec r 0xDFFF); simpl; auto; lia. }
  rewrite E. cbn [orb andb]. apply encode3_eq. lia.
Qed.

Lemma encode_4 r : 0x10000 <= r <= 0x10FFFF ->
  utf8.EncodeRune r = [z2b (240 + r / 262144); z2b (128 + (r / 4096) mod 64);
                       z2b (128 + (r / 64) mod 64); z2b (128 + r mod 64)].
Proof.
  intros. unfold utf8.EncodeRune, uint32, utf8.rune1Max, utf8.rune2Max, utf8.rune3Max,
    utf8.MaxRune, utf8.surrogateMin, utf8.surrogateMax.
  change (2 ^ 32) with 4294967296. rewrite (Z.mod_small r 4294967296) by lia.
  zb. cbn [orb andb].
  rewrite !cont_byte, shr6, shr12, shr18, lead4_byte; [reflexivity|]. Z.div_mod_to_equations; lia.
Qed.


Arguments b2z : simpl never.
Arguments z2b : simpl never.

Lemma DecodeRune_cons b0 rest :
  utf8.DecodeRune (b0 :: rest) =
  let p0 := b2z b0 in
  let x := utf8.first p0 in
  if x >=? utf8.as_ then
    let mask := Z.shiftr (int32 (Z.shiftl x 31)) 31 in
    (Z.lor (Z.ldiff p0 mask) (Z.land utf8.RuneError mask), 1%nat)
  else
  let sz := Z.land x 7 in
  let accept := utf8.acceptRanges (Z.shiftr x 4) in
  if Z.of_nat (length (b0 :: rest)) <? sz then (utf8.RuneError, 1%nat) else
  let b1 := utf8.at_ (b0 :: rest) 1 in
  if (b1 <? fst accept) || (snd accept <? b1) then (utf8.RuneError, 1%nat) else
  if sz <=? 2 then
    (Z.lor (Z.shiftl (Z.land p0 utf8.mask2) 6) (Z.land b1 utf8.maskx), 2%nat)
  else
  let b2 := utf8.at_ (b0 :: rest) 2 in
  if (b2 <? utf8.locb) || (utf8.hicb <? b2) then (utf8.RuneError, 1%nat) else
  if sz <=? 3 then
    (Z.lor (Z.lor (Z.shiftl (Z.land p0 utf8.mask3) 12)
                  (Z.shiftl (Z.land b1 utf8.maskx) 6))
           (Z.land b2 utf8.maskx), 3%nat)
  else
  let b3 := utf8.at_ (b0 :: rest) 3 in
  if (b3 <? utf8.locb) || (utf8.hicb <? b3) then (utf8.RuneError, 1%nat) else
  (Z.lor (Z.lor (Z.lor (Z.shiftl (Z.land p0 utf8.mask4) 18)
                       (Z.shiftl (Z.land b1 utf8.maskx) 12))
                (Z.shiftl (Z.land b2 utf8.maskx) 6))
         (Z.land b3 utf8.maskx), 4%nat).
Proof.
  unfold utf8.DecodeRune.
  replace (Z.of_nat (length (b0 :: rest)) <? 1) with false
    by (symmetry; apply Z.ltb_ge; cbn [length]; lia).
  reflexivity.
Qed.

Lemma DecodeRune_class b0 rest :
  utf8.DecodeRune (b0 :: rest) =
  let p0 := b2z b0 in
  match utf8.classify p0 with
  | utf8.LAscii => (p0, 1%nat)
  | utf8.LBad => (utf8.RuneError, 1%nat)
  | utf8.L2 =>
    match rest with
    | b1 :: _ =>
      if (b2z b1 <? 0x80) || (0xBF <? b2z b1) then (utf8.RuneError, 1%nat)
      else ((p0 mod 32) * 64 + b2z b1 mod 64, 2%nat)
    | _ => (utf8.RuneError, 1%nat)
    end
  | utf8.L3 lo hi =>
    match rest with
    | b1 :: b2 :: _ =>
      if (b2z b1 <? lo) || (hi <? b2z b1) then (utf8.RuneError, 1%nat)
      else if (b2z b2 <? 0x80) || (0xBF <? b2z b2) then (utf8.RuneError, 1%nat)
      else ((p0 mod 16) * 4096 + (b2z b1 mod 64) * 64 + b2z b2 mod 64, 3%nat)
    | _ => (utf8.RuneError, 1%nat)
    end
  | utf8.L4 lo hi =>
    match rest with
    | b1 :: b2 :: b3 :: _ =>
      if (b2z b1 <? lo) || (hi <? b2z b1) then (utf8.RuneError, 1%nat)
      else if (b2z b2 <? 0x80) || (0xBF <? b2z b2) then (utf8.RuneError, 1%nat)
      else if (b2z b3 <? 0x80) || (0xBF <? b2z b3) then (utf8.RuneError, 1%nat)
      else ((p0 mod 8) * 262144 + (b2z b1 mod 64) * 4096 + (b2z b2 mod 64) * 64 + b2z b3 mod 64, 4%nat)
    | _ => (utf8.RuneError, 1%nat)
    end
  end.
Proof.
  rewrite DecodeRune_cons. cbv zeta.
  rewrite dec2_value, dec3_value, dec4_value.
  pose proof (b2z_range b0) as R0.
  unfold utf8.classify, utf8.first.
  repeat match goal with
  | |- context [Z.ltb (b2z b0) ?c] => destruct (Z.ltb_spec (b2z b0) c)
  | |- context [Z.eqb (b2z b0) ?c] => destruct (Z.eqb_spec (b2z b0) c)
  end; try lia.
  all: try (change (utf8.as_ >=? utf8.as_) with true; cbv iota;
            change (Z.shiftr (int32 (Z.shiftl utf8.as_ 31)) 31) with 0;
            rewrite Z.ldiff_0_r, Z.land_0_r, Z.lor_0_r; reflexivity).
  all: try (change (utf8.xx >=? utf8.as_) with true; cbv iota;
            change (Z.shiftr (int32 (Z.shiftl utf8.xx 31)) 31) with (-1);
            rewrite Z.ldiff_m1_r, Z.land_m1_r; reflexivity).
  all: destruct rest as [|b1 [|b2 [|b3 rest]]]; try reflexivity.
  all: match goal with
       | |- context [Z.of_nat (length ?l) <? ?c] =>
           let c' := eval vm_compute in c in
           replace (Z.of_nat (length l) <? c) with false
             by (symmetry; apply Z.ltb_ge; change c with c'; cbn [length]; lia)
       end; reflexivity.
Qed.

Lemma scalar_dec r : {utf8.scalar r} + {~ utf8.scalar r}.
Proof.
  unfold utf8.scalar.
  destruct (Z_le_dec 0 r), (Z_le_dec r 0x10FFFF), (Z_le_dec 0xD800 r), (Z_le_dec r 0xDFFF);
    (left; lia) || (right; lia).
Qed.

Lemma decode_encode r rest :
  utf8.scalar r ->
  utf8.DecodeRune (utf8.EncodeRune r ++ rest) = (r, length (utf8.EncodeRune r)).
Proof.
  intros [Hr Hs].
  destruct (Z_le_dec r 0x7F); [|destruct (Z_le_dec r 0x7FF); [|destruct (Z_le_dec r 0xFFFF)]].
  - rewrite encode_1 by lia. cbn [app]. rewrite DecodeRune_class. cbv zeta.
    rewrite b2z_z2b, Z.mod_small by lia. unfold utf8.classify. zb. reflexivity.
  - rewrite encode_2 by lia. cbn [app]. rewrite DecodeRune_class. cbv zeta.
    rewrite !b2z_z2b.
    assert (E0 : (192 + r / 64) mod 256 = 192 + r / 64) by (Z.div_mod_to_equations; lia).
    assert (E1 : (128 + r mod 64) mod 256 = 128 + r mod 64) by (Z.div_mod_to_equations; lia).
    cbv beta iota. rewrite E0, E1. unfold utf8.classify.
    assert (0 <= r / 64 < 32) by (Z.div_mod_to_equations; lia).
    assert (0 <= r mod 64 < 64) by (Z.div_mod_to_equations; lia).
    zb. cbn [orb]. cbn [length]. f_equal. Z.div_mod_to_equations; lia.
  - rewrite encode_3 by lia. cbn [app]. rewrite DecodeRune_class. cbv zeta.
    rewrite !b2z_z2b.
    assert (0 <= r / 4096 < 16) by zsolve.
    assert (0 <= (r / 64) mod 64 < 64) by zsolve.
    assert (0 <= r mod 64 < 64) by zsolve.
    rewrite !Z.mod_small with (b := 256) by lia.
    unfold utf8.classify. cbv beta iota.
    destruct (Z.eq_dec (r / 4096) 0) as [E|E]; [|destruct (Z.eq_dec (r / 4096) 13) as [E'|E']].
    + zb. cbv beta iota. zb. cbn [orb length]. f_equal. zsolve.
    + zb. cbv beta iota. zb. cbn [orb length]. f_equal. zsolve.
    + destruct (Z.ltb_spec (224 + r / 4096) 237); zb; cbv beta iota; zb; cbn [orb length]; f_equal; zsolve.
  - rewrite encode_4 by lia. cbn [app]. rewrite DecodeRune_class. cbv zeta.
    rewrite !b2z_z2b.
    assert (0 <= r / 262144 <= 4) by zsolve.
    assert (0 <= (r / 4096) mod 64 < 64) by zsolve.
    assert (0 <= (r / 64) mod 64 < 64) by zsolve.
    assert (0 <= r mod 64 < 64) by zsolve.
    rewrite !Z.mod_small with (b := 256) by lia.
    unfold utf8.classify. cbv beta iota.
    destruct (Z.eq_dec (r / 262144) 0) as [E|E]; [|destruct (Z.eq_dec (r / 262144) 4) as [E'|E']].
    + zb. cbv beta iota. zb. cbn [orb length]. f_equal. zsolve.
    + zb. cbv beta iota. zb. cbn [orb length]. f_equal. zsolve.
    + zb. cbv beta iota. zb. cbn [orb length]. f_equal. zsolve.
Qed.

Lemma z2b_eq z b : z = b2z b -> z2b z = b.
Proof. intros ->. apply z2b_b2z. Qed.

Ltac dec_bad := intros [= <- <-]; left; split; reflexivity.

Ltac dec_split :=
  repeat match goal with
  | |- context [Z.ltb ?a ?c] => destruct (Z.ltb_spec a c); cbn [orb]
  end; try dec_bad.

Ltac dec_good enc :=
  intros [= <- <-]; right;
  rewrite enc by zsolve; unfold utf8.scalar; cbn [length firstn];
  repeat split; try zsolve;
  repeat (f_equal; try (symmetry; apply z2b_eq; zsolve)).

Lemma decode_sound p r n :
  p <> [] -> utf8.DecodeRune p = (r, n) ->
  (r = utf8.RuneError /\ n = 1%nat) \/
  (utf8.scalar r /\ n = length (utf8.EncodeRune r) /\ firstn n p = utf8.EncodeRune r).
Proof.
  destruct p as [|b0 rest]; [congruence|]. intros _.
  rewrite DecodeRune_class. cbv zeta.
  pose proof (b2z_range b0) as R0.
  unfold utf8.classify.
  repeat match goal with
  | |- context [Z.ltb (b2z b0) ?c] => destruct (Z.ltb_spec (b2z b0) c)
  | |- context [Z.eqb (b2z b0) ?c] => destruct (Z.eqb_spec (b2z b0) c)
  end; try lia; try dec_bad.
  - (* one byte *)
    intros [= <- <-]. right. unfold utf8.scalar. rewrite encode_1 by lia.
    rewrite z2b_b2z. repeat split; try lia; reflexivity.
  - (* two bytes *)
    destruct rest as [|b1 rest]; [dec_bad|].
    pose proof (b2z_range b1). dec_split. dec_good encode_2.
  - destruct rest as [|b1 [|b2 rest]]; try dec_bad.
    pose proof (b2z_range b1). pose proof (b2z_range b2). dec_split. dec_good encode_3.
  - destruct rest as [|b1 [|b2 rest]]; try dec_bad.
    pose proof (b2z_range b1). pose proof (b2z_range b2). dec_split. dec_good encode_3.
  - destruct rest as [|b1 [|b2 rest]]; try dec_bad.
    pose proof (b2z_range b1). pose proof (b2z_range b2). dec_split. dec_good encode_3.
  - destruct rest as [|b1 [|b2 rest]]; try dec_bad.
    pose proof (b2z_range b1). pose proof (b2z_range b2). dec_split. dec_good encode_3.
  - destruct rest as [|b1 [|b2 [|b3 rest]]]; try dec_bad.
    pose proof (b2z_range b1). pose proof (b2z_range b2). pose proof (b2z_range b3).
    dec_split. dec_good encode_4.
  - destruct rest as [|b1 [|b2 [|b3 rest]]]; try dec_bad.
    pose proof (b2z_range b1). pose proof (b2z_range b2). pose proof (b2z_range b3).
    dec_split. dec_good encode_4.
  - destruct rest as [|b1 [|b2 [|b3 rest]]]; try dec_bad.
    pose proof (b2z_range b1). pose proof (b2z_range b2). pose proof (b2z_range b3).
    dec_split. dec_good encode_4.
Qed.

(** ** UTF-8: sizes and validity *)

Lemma DecodeRune_size p r n :
  p <> [] -> utf8.DecodeRune p = (r, n) -> (1 <= n <= length p)%nat.
Proof.
  intros Hp H. destruct (decode_sound p r n Hp H) as [[_ ->]|(_ & _ & E)].
  - destruct p; [congruence|]. cbn [length]. lia.
  - assert (L : length (firstn n p) = length (utf8.EncodeRune r)) by (rewrite E; reflexivity).
    rewrite length_firstn in L.
    destruct p as [|b0 rest]; [congruence|].
    rewrite DecodeRune_class in H. cbv zeta in H.
    destruct (utf8.classify (b2z b0)); try (injection H as _ <-; cbn [length]; lia).
    + destruct rest as [|b1 rest]; [injection H as _ <-; cbn [length]; lia|].
      destruct (_ || _); injection H as _ <-; cbn [length]; lia.
    + destruct rest as [|b1 [|b2 rest]]; try (injection H as _ <-; cbn [length]; lia).
      destruct (_ || _); [injection H as _ <-; cbn [length]; lia|].
      destruct (_ || _); injection H as _ <-; cbn [length]; lia.
    + destruct rest as [|b1 [|b2 [|b3 rest]]]; try (injection H as _ <-; cbn [length]; lia).
      destruct (_ || _); [injection H as _ <-; cbn [length]; lia|].
      destruct (_ || _); [injection H as _ <-; cbn [length]; lia|].
      destruct (_ || _); injection H as _ <-; cbn [length]; lia.
Qed.

Lemma encode_3_RuneError : utf8.encode3 utf8.RuneError = [xef; xbf; xbd].
Proof. reflexivity. Qed.

Lemma scalar_RuneError : utf8.scalar utf8.RuneError.
Proof. unfold utf8.scalar, utf8.RuneError. lia. Qed.

Lemma EncodeRune_RuneError : utf8.EncodeRune utf8.RuneError = [xef; xbf; xbd].
Proof. reflexivity. Qed.

(** Whatever rune of the range is encoded, the bytes written are the
    encoding of a scalar value. *)
Lemma EncodeRune_scalar x :
  0 <= x <= 0x10FFFF ->
  exists r, utf8.scalar r /\ utf8.EncodeRune x = utf8.EncodeRune r.
Proof.
  intros Hx. destruct (scalar_dec x) as [S|N].
  - exists x. auto.
  - exists utf8.RuneError. split; [apply scalar_RuneError|].
    unfold utf8.scalar in N.
    assert (Hs : 0xD800 <= x <= 0xDFFF) by lia.
    unfold utf8.EncodeRune, uint32, utf8.rune1Max, utf8.rune2Max, utf8.rune3Max,
      utf8.MaxRune, utf8.surrogateMin, utf8.surrogateMax.
    change (2 ^ 32) with 4294967296. rewrite (Z.mod_small x 4294967296) by lia.
    zb. reflexivity.
Qed.

Lemma valid_encode x rest :
  0 <= x <= 0x10FFFF -> utf8.valid rest -> utf8.valid (utf8.EncodeRune x ++ rest).
Proof.
  intros Hx Hr. destruct (EncodeRune_scalar x Hx) as (r & S & ->).
  constructor; assumption.
Qed.

Lemma valid_ascii c rest :
  b2z c < 0x80 -> utf8.valid rest -> utf8.valid (c :: rest).
Proof.
  intros Hc Hr. pose proof (b2z_range c).
  replace (c :: rest) with (utf8.EncodeRune (b2z c) ++ rest).
  - constructor; [unfold utf8.scalar; lia | assumption].
  - rewrite encode_1 by lia. rewrite z2b_b2z. reflexivity.
Qed.

Lemma valid_app a b : utf8.valid a -> utf8.valid b -> utf8.valid (a ++ b).
Proof.
  induction 1; intros; [assumption|].
  rewrite <- app_assoc. constructor; auto.
Qed.

Lemma valid_decoded p r n rest :
  p <> [] -> utf8.DecodeRune p = (r, n) -> utf8.valid rest ->
  utf8.valid (utf8.EncodeRune r ++ rest).
Proof.
  intros Hp H Hr. destruct (decode_sound p r n Hp H) as [[-> _]|(S & _)].
  - constructor; [apply scalar_RuneError | assumption].
  - constructor; assumption.
Qed.

(** ** encoding/json: unquoting *)

Lemma hexval_range c d : json.hexval c = Some d -> 0 <= d <= 15.
Proof.
  unfold json.hexval. cbv zeta.
  repeat match goal with
  | |- context [Z.leb ?a ?b] => destruct (Z.leb_spec a b)
  end; cbn [andb]; intros [= <-]; lia.
Qed.

Lemma getu4_range s : json.getu4 s = -1 \/ 0 <= json.getu4 s <= 0xFFFF.
Proof.
  unfold json.getu4.
  destruct s as [|b [|u [|h1 [|h2 [|h3 [|h4 rest]]]]]]; auto.
  destruct (_ && _); auto.
  destruct (json.hexval h1) as [d1|] eqn:E1; auto.
  destruct (json.hexval h2) as [d2|] eqn:E2; auto.
  destruct (json.hexval h3) as [d3|] eqn:E3; auto.
  destruct (json.hexval h4) as [d4|] eqn:E4; auto.
  apply hexval_range in E1, E2, E3, E4. right. lia.
Qed.

Lemma utf16_DecodeRune_range r1 r2 : 0 <= utf16.DecodeRune r1 r2 <= 0x10FFFF.
Proof.
  unfold utf16.DecodeRune, utf16.surr1, utf16.surr2, utf16.surr3, utf16.surrSelf,
    utf16.replacementChar.
  destruct (Z.leb_spec 0xd800 r1), (Z.ltb_spec r1 0xdc00),
           (Z.leb_spec 0xdc00 r2), (Z.ltb_spec r2 0xe000); cbn [andb]; try lia.
  rewrite Z.shiftl_mul_pow2 by lia.
  rewrite lor_mul_pow2 by lia. lia.
Qed.

Lemma unquote_loop_valid fuel : forall s t,
  json.unquote_loop fuel s = Some t -> utf8.valid t.
Proof.
  induction fuel as [|fuel IH]; intros s t H.
  - destruct s; [injection H as <-; constructor | discriminate].
  - destruct s as [|c s']; [injection H as <-; constructor|].
    cbn [json.unquote_loop] in H.
    assert (A : forall e u x, b2z e < 0x80 ->
               option_map (cons e) (json.unquote_loop fuel u) = Some x -> utf8.valid x).
    { intros e u x He Hx. destruct (json.unquote_loop fuel u) eqn:E; [|discriminate].
      injection Hx as <-. apply valid_ascii; eauto. }
    assert (B : forall r u x, 0 <= r <= 0x10FFFF ->
               option_map (app (utf8.EncodeRune r)) (json.unquote_loop fuel u) = Some x ->
               utf8.valid x).
    { intros r u x Hr Hx. destruct (json.unquote_loop fuel u) eqn:E; [|discriminate].
      injection Hx as <-. apply valid_encode; eauto. }
    destruct (json.is_ c 92) eqn:Ec.
    + destruct s' as [|e t1]; [discriminate|].
      destruct (json.is_ e 34 || json.is_ e 92 || json.is_ e 47 || json.is_ e 39) eqn:E1.
      { eapply A; [|exact H]. unfold json.is_ in E1.
        repeat (apply orb_prop in E1; destruct E1 as [E1|E1]);
          apply Z.eqb_eq in E1; lia. }
      repeat match type of H with
      | (if json.is_ e ?k then option_map (cons ?b) _ else _) = _ =>
          destruct (json.is_ e k); [eapply A; [|exact H]; vm_compute; reflexivity|]
      end.
      destruct (json.is_ e 117); [|discriminate].
      cbv zeta in H.
      destruct (getu4_range (c :: e :: t1)) as [G|G].
      { rewrite G in H. discriminate. }
      destruct (Z.ltb_spec (json.getu4 (c :: e :: t1)) 0); [discriminate|].
      destruct (utf16.IsSurrogate _).
      * destruct (negb _).
        -- eapply B; [|exact H]. apply utf16_DecodeRune_range.
        -- eapply B; [|exact H]. vm_compute. split; discriminate.
      * eapply B; [|exact H]. lia.
    + destruct (json.is_ c 34 || (b2z c <? 32)); [discriminate|].
      destruct (Z.ltb_spec (b2z c) utf8.RuneSelf).
      * eapply A; [|exact H]. exact H0.
      * destruct (utf8.DecodeRune (c :: s')) as [rr size] eqn:D.
        destruct (json.unquote_loop fuel _) eqn:E; [|discriminate].
        injection H as <-. eapply valid_decoded; eauto. discriminate.
Qed.

Ltac len_solve :=
  rewrite ?length_skipn; cbn [length] in *; lia.

Lemma unquote_loop_fuel f1 : forall f2 s,
  (length s <= f1)%nat -> (length s <= f2)%nat ->
  json.unquote_loop f1 s = json.unquote_loop f2 s.
Proof.
  induction f1 as [|f1 IH]; intros f2 s H1 H2.
  - destruct s; [destruct f2; reflexivity | cbn [length] in H1; lia].
  - destruct s as [|c s']; [destruct f2; reflexivity|].
    destruct f2 as [|f2]; [cbn [length] in H2; lia|].
    cbn [json.unquote_loop].
    destruct (utf8.DecodeRune (c :: s')) as [rr size] eqn:D.
    assert (Hs : (1 <= size)%nat) by (eapply DecodeRune_size; [|exact D]; discriminate).
    destruct s' as [|e t1].
    + repeat match goal with
      | |- context [json.unquote_loop f1 ?x] => rewrite (IH f2 x) by len_solve
      end. reflexivity.
    + cbv zeta.
      repeat match goal with
      | |- context [json.unquote_loop f1 ?x] => rewrite (IH f2 x) by len_solve
      end. reflexivity.
Qed.

Lemma unquote_plain_fuel f1 : forall f2 s,
  (length s <= f1)%nat -> (length s <= f2)%nat ->
  json.unquote_plain f1 s = json.unquote_plain f2 s.
Proof.
  induction f1 as [|f1 IH]; intros f2 s H1 H2.
  - destruct s; [destruct f2; reflexivity | cbn [length] in H1; lia].
  - destruct s as [|c s']; [destruct f2; reflexivity|].
    destruct f2 as [|f2]; [cbn [length] in H2; lia|].
    cbn [json.unquote_plain].
    destruct (utf8.DecodeRune (c :: s')) as [rr size] eqn:D.
    assert (Hs : (1 <= size)%nat) by (eapply DecodeRune_size; [|exact D]; discriminate).
    repeat match goal with
    | |- context [json.unquote_plain f1 ?x] => rewrite (IH f2 x) by len_solve
    end. reflexivity.
Qed.

(** The bytes the first loop passes over are copied unchanged by the
    second loop. *)
Lemma unquote_plain_loop fuel : forall s,
  (length s <= fuel)%nat ->
  json.unquote_loop fuel s =
  option_map (app (firstn (json.unquote_plain fuel s) s))
             (json.unquote_loop fuel (skipn (json.unquote_plain fuel s) s)).
Proof.
  induction fuel as [|fuel IH]; intros s Hl.
  - destruct s; [reflexivity | cbn [length] in Hl; lia].
  - destruct s as [|c s']; [reflexivity|].
    cbn [json.unquote_plain].
    destruct (json.is_ c 92 || json.is_ c 34 || (b2z c <? 32)) eqn:E1.
    { cbn [firstn skipn app]. destruct (json.unquote_loop _ _); reflexivity. }
    apply orb_false_elim in E1. destruct E1 as [E1 E3].
    apply orb_false_elim in E1. destruct E1 as [E1 E2].
    destruct (Z.ltb_spec (b2z c) utf8.RuneSelf) as [Ha|Ha].
    + cbn [firstn skipn].
      rewrite (unquote_loop_fuel (S fuel) fuel (skipn _ s')) by len_solve.
      cbn [json.unquote_loop]. rewrite E1, E2, E3. cbn [orb].
      replace (b2z c <? utf8.RuneSelf) with true by (symmetry; apply Z.ltb_lt; lia).
      rewrite (IH s') by len_solve.
      destruct (json.unquote_loop fuel _); reflexivity.
    + destruct (utf8.DecodeRune (c :: s')) as [rr size] eqn:D.
      assert (Hs : (1 <= size <= length (c :: s'))%nat)
        by (eapply DecodeRune_size; [|exact D]; discriminate).
      destruct ((rr =? utf8.RuneError) && (size =? 1)%nat) eqn:E4.
      { cbn [firstn skipn app]. destruct (json.unquote_loop _ _); reflexivity. }
      destruct (decode_sound (c :: s') rr size ltac:(discriminate) D) as [[-> ->]|(Sc & Hn & Hf)].
      { cbn in E4. discriminate. }
      rewrite (unquote_loop_fuel (S fuel) fuel (skipn (size + _) (c :: s'))) by len_solve.
      cbn [json.unquote_loop]. rewrite E1, E2, E3, D. cbn [orb].
      replace (b2z c <? utf8.RuneSelf) with false by (symmetry; apply Z.ltb_ge; lia).
      rewrite (IH (skipn size (c :: s'))) by len_solve.
      rewrite <- Hf.
      set (k := json.unquote_plain fuel (skipn size (c :: s'))).
      rewrite skipn_skipn.
      replace (k + size)%nat with (size + k)%nat by lia.
      destruct (json.unquote_loop fuel _); [|reflexivity].
      cbn [option_map]. f_equal. rewrite app_assoc. f_equal.
      rewrite <- (firstn_skipn size (firstn (size + k) (c :: s'))) at 1.
      rewrite firstn_firstn, skipn_firstn_comm.
      replace (Nat.min size (size + k)) with size by lia.
      replace (size + k - size)%nat with k by lia. reflexivity.
Qed.

Lemma unquote_plain_le fuel : forall s,
  (json.unquote_plain fuel s <= length s)%nat.
Proof.
  induction fuel as [|fuel IH]; intros s; [cbn; lia|].
  destruct s as [|c s']; [cbn; lia|].
  cbn [json.unquote_plain].
  destruct (_ || _); [lia|].
  destruct (_ <? _); [specialize (IH s'); cbn [length]; lia|].
  destruct (utf8.DecodeRune (c :: s')) as [rr size] eqn:D.
  assert (Hs : (1 <= size <= length (c :: s'))%nat)
    by (eapply DecodeRune_size; [|exact D]; discriminate).
  destruct (_ && _); [lia|].
  specialize (IH (skipn size (c :: s'))). rewrite length_skipn in IH. lia.
Qed.

Lemma unquoteBytes_loop s : json.unquoteBytes s = json.unquote_loop (length s) s.
Proof.
  unfold json.unquoteBytes. cbv zeta.
  rewrite (unquote_plain_loop (length s) s) by lia.
  destruct (Nat.eqb_spec (json.unquote_plain (length s) s) (length s)) as [E|E].
  - rewrite E, skipn_all, firstn_all.
    destruct (length s); cbn; rewrite app_nil_r; reflexivity.
  - reflexivity.
Qed.

Lemma unquoteBytes_valid s t : json.unquoteBytes s = Some t -> utf8.valid t.
Proof. rewrite unquoteBytes_loop. apply unquote_loop_valid. Qed.

(** ** encoding/json: the string encoder *)

Lemma encode_string_loop_fuel f1 : forall f2 s,
  (length s <= f1)%nat -> (length s <= f2)%nat ->
  json.encode_string_loop f1 s = json.encode_string_loop f2 s.
Proof.
  induction f1 as [|f1 IH]; intros f2 s H1 H2.
  - destruct s; [destruct f2; reflexivity | cbn [length] in H1; lia].
  - destruct s as [|c s']; [destruct f2; reflexivity|].
    destruct f2 as [|f2]; [cbn [length] in H2; lia|].
    cbn [json.encode_string_loop].
    destruct (utf8.DecodeRune (c :: s')) as [rr size] eqn:D.
    assert (Hs : (1 <= size)%nat) by (eapply DecodeRune_size; [|exact D]; discriminate).
    repeat match goal with
    | |- context [json.encode_string_loop f1 ?x] => rewrite (IH f2 x) by len_solve
    end. reflexivity.
Qed.

Lemma b2z_inj a b : b2z a = b2z b -> a = b.
Proof. intros H. rewrite <- (z2b_b2z a), <- (z2b_b2z b), H. reflexivity. Qed.

Lemma encode_length r : utf8.scalar r -> (1 <= length (utf8.EncodeRune r) <= 4)%nat.
Proof.
  intros [Hr Hs].
  destruct (Z_le_dec r 0x7F); [|destruct (Z_le_dec r 0x7FF); [|destruct (Z_le_dec r 0xFFFF)]].
  - rewrite encode_1 by lia. cbn. lia.
  - rewrite encode_2 by lia. cbn. lia.
  - rewrite encode_3 by lia. cbn. lia.
  - rewrite encode_4 by lia. cbn. lia.
Qed.

Lemma encode_high r :
  utf8.scalar r -> 0x80 <= r ->
  Forall (fun c => 0x80 <= b2z c) (utf8.EncodeRune r).
Proof.
  intros [Hr Hs] Hh.
  destruct (Z_le_dec r 0x7FF); [|destruct (Z_le_dec r 0xFFFF)].
  - rewrite encode_2 by lia. repeat constructor; rewrite b2z_z2b; zsolve.
  - rewrite encode_3 by lia. repeat constructor; rewrite b2z_z2b; zsolve.
  - rewrite encode_4 by lia. repeat constructor; rewrite b2z_z2b; zsolve.
Qed.

Lemma body_rune r rest :
  utf8.scalar r ->
  json.encode_string_body (utf8.EncodeRune r ++ rest)
  = json.encode_rune r ++ json.encode_string_body rest.
Proof.
  intros Sc. pose proof (encode_length r Sc) as L.
  unfold json.encode_string_body, json.encode_rune.
  pose proof (decode_encode r rest Sc) as D.
  destruct Sc as [Hr Hs].
  destruct (Z.ltb_spec r utf8.RuneSelf) as [Ha|Ha].
  - unfold utf8.RuneSelf in Ha. rewrite encode_1 in * by lia.
    cbn [app length json.encode_string_loop].
    rewrite b2z_z2b, Z.mod_small by lia.
    replace (r <? utf8.RuneSelf) with true by (symmetry; apply Z.ltb_lt; exact Ha).
    destruct (json.htmlSafeSet (z2b r)); reflexivity.
  - pose proof (encode_high r (conj Hr Hs) Ha) as Hh.
    destruct (utf8.EncodeRune r) as [|c e] eqn:E; [cbn in L; lia|].
    rewrite length_app. cbn [app length plus json.encode_string_loop].
    inversion Hh as [|? ? Hc _]; subst.
    replace (b2z c <? utf8.RuneSelf) with false by (symmetry; apply Z.ltb_ge; exact Hc).
    change (c :: e ++ rest) with ((c :: e) ++ rest). rewrite D.
    replace ((r =? utf8.RuneError) && (length (c :: e) =? 1)%nat) with false.
    2:{ destruct (Z.eqb_spec r utf8.RuneError) as [->|]; [|reflexivity].
        rewrite EncodeRune_RuneError in E. injection E as <- <-. reflexivity. }
    rewrite skipn_app, skipn_all, Nat.sub_diag. cbn [skipn app].
    change (c :: e ++ rest) with ((c :: e) ++ rest).
    rewrite firstn_app, firstn_all, Nat.sub_diag. cbn [firstn]. rewrite app_nil_r.
    rewrite (encode_string_loop_fuel _ (length rest) rest) by lia.
    destruct ((r =? 8232) || (r =? 8233)); reflexivity.
Qed.

(** ** The scanner and the decoder on what the encoder writes *)

Lemma scan_string_high c x :
  0x80 <= b2z c ->
  json.scan_string (c :: x) = json.prepend [c] (json.scan_string x).
Proof.
  intros H. cbn [json.scan_string]. unfold json.is_.
  replace (b2z c =? 34) with false by (symmetry; apply Z.eqb_neq; lia).
  replace (b2z c =? 92) with false by (symmetry; apply Z.eqb_neq; lia).
  replace (b2z c <? 32) with false by (symmetry; apply Z.ltb_ge; lia).
  reflexivity.
Qed.

Lemma prepend_app {A} (a b : list A) r :
  json.prepend a (json.prepend b r) = json.prepend (a ++ b) r.
Proof. destruct r as [[u v]|]; cbn; [rewrite app_assoc|]; reflexivity. Qed.

Lemma prepend_nil {A} (r : option (list A * list A)) : json.prepend [] r = r.
Proof. destruct r as [[u v]|]; reflexivity. Qed.

Lemma scan_string_highs l x :
  Forall (fun c => 0x80 <= b2z c) l ->
  json.scan_string (l ++ x) = json.prepend l (json.scan_string x).
Proof.
  induction 1 as [|c l Hc _ IH]; cbn [app].
  - symmetry. apply prepend_nil.
  - rewrite scan_string_high by assumption. rewrite IH.
    apply (prepend_app [c] l).
Qed.

Lemma scan_string_rune r x :
  utf8.scalar r ->
  json.scan_string (json.encode_rune r ++ x)
  = json.prepend (json.encode_rune r) (json.scan_string x).
Proof.
  intros Sc. unfold json.encode_rune.
  destruct (Z.ltb_spec r utf8.RuneSelf) as [Ha|Ha].
  - destruct Sc as [Hr _]. unfold utf8.RuneSelf in Ha.
    assert (Hb : b2z (z2b r) < 128) by (rewrite b2z_z2b, Z.mod_small; lia).
    generalize dependent (z2b r). intros b Hb.
    destruct b; try (exfalso; vm_compute in Hb; discriminate Hb); reflexivity.
  - destruct ((r =? 8232) || (r =? 8233)) eqn:E.
    + apply orb_prop in E. destruct E as [E|E]; apply Z.eqb_eq in E; subst r; reflexivity.
    + apply scan_string_highs. apply encode_high; assumption.
Qed.

Lemma unquote_loop_rune r x fuel :
  utf8.scalar r ->
  (length (json.encode_rune r ++ x) <= fuel)%nat ->
  json.unquote_loop fuel (json.encode_rune r ++ x)
  = option_map (app (utf8.EncodeRune r)) (json.unquote_loop fuel x).
Proof.
  intros Sc Hl.
  assert (Hp : (1 <= length (json.encode_rune r))%nat).
  { unfold json.encode_rune.
    destruct (r <? utf8.RuneSelf).
    - destruct (json.htmlSafeSet _); cbn; lia.
    - destruct (_ || _); [cbn; lia|]. apply encode_length. assumption. }
  rewrite length_app in Hl.
  destruct fuel as [|fuel]; [lia|].
  rewrite (unquote_loop_fuel (S fuel) fuel x) by lia.
  unfold json.encode_rune in *.
  destruct (Z.ltb_spec r utf8.RuneSelf) as [Ha|Ha].
  - destruct Sc as [Hr _]. unfold utf8.RuneSelf in Ha.
    rewrite encode_1 by lia.
    assert (Hb : b2z (z2b r) < 128) by (rewrite b2z_z2b, Z.mod_small; lia).
    generalize dependent (z2b r). intros b Hp Hl Hb.
    destruct b; try (exfalso; vm_compute in Hb; discriminate Hb); reflexivity.
  - pose proof (encode_high r Sc Ha) as Hh.
    pose proof (decode_encode r x Sc) as D.
    destruct ((r =? 8232) || (r =? 8233)) eqn:E.
    + apply orb_prop in E. destruct E as [E|E]; apply Z.eqb_eq in E; subst r; reflexivity.
    + destruct (utf8.EncodeRune r) as [|c e] eqn:E'; [cbn in Hp; lia|].
      inversion Hh as [|? ? Hc _]; subst.
      cbn [app json.unquote_loop]. unfold json.is_.
      replace (b2z c =? 92) with false by (symmetry; apply Z.eqb_neq; lia).
      replace (b2z c =? 34) with false by (symmetry; apply Z.eqb_neq; lia).
      replace (b2z c <? 32) with false by (symmetry; apply Z.ltb_ge; lia).
      replace (b2z c <? utf8.RuneSelf) with false by (symmetry; apply Z.ltb_ge; exact Hc).
      cbn [orb].
      change (c :: e ++ x) with ((c :: e) ++ x). rewrite D.
      rewrite skipn_app, skipn_all, Nat.sub_diag, E'. reflexivity.
Qed.

Lemma scan_string_body s : utf8.valid s -> forall rest,
  json.scan_string (json.encode_string_body s ++ x22 :: rest)
  = Some (json.encode_string_body s, rest).
Proof.
  induction 1 as [|r s' Sc _ IH]; intros rest.
  - reflexivity.
  - rewrite body_rune by assumption. rewrite <- app_assoc.
    rewrite scan_string_rune by assumption. rewrite IH. reflexivity.
Qed.

Lemma unquote_loop_body s : utf8.valid s -> forall fuel,
  (length (json.encode_string_body s) <= fuel)%nat ->
  json.unquote_loop fuel (json.encode_string_body s) = Some s.
Proof.
  induction 1 as [|r s' Sc _ IH]; intros fuel Hl.
  - destruct fuel; reflexivity.
  - rewrite body_rune in * by assumption.
    rewrite unquote_loop_rune by assumption.
    rewrite length_app in Hl. rewrite IH by lia. reflexivity.
Qed.

Lemma unquoteBytes_body s :
  utf8.valid s -> json.unquoteBytes (json.encode_string_body s) = Some s.
Proof.
  intros V. rewrite unquoteBytes_loop. apply unquote_loop_body; auto.
Qed.

(** ** The scanner on an encoded struct *)

Lemma skip_ws_eq c x :
  json.skip_ws (c :: x) = if json.isSpace c then json.skip_ws x else c :: x.
Proof. reflexivity. Qed.

Lemma parse_value_eq f d s :
  json.parse_value (S f) d s =
  match json.skip_ws s with
  | [] => None
  | c :: t =>
    if json.is_ c 0x7b then
      if json.maxNestingDepth <? d + 1 then None else
      match json.skip_ws t with
      | c' :: t' =>
        if json.is_ c' 0x7d then Some (json.Object [], t')
        else match json.parse_members f (d + 1) t with
             | Some (ms, rest) => Some (json.Object ms, rest)
             | None => None
             end
      | [] => None
      end
    else if json.is_ c 0x5b then
      if json.maxNestingDepth <? d + 1 then None else
      match json.skip_ws t with
      | c' :: t' =>
        if json.is_ c' 0x5d then Some (json.Array [], t')
        else match json.parse_elements f (d + 1) t with
             | Some (vs, rest) => Some (json.Array vs, rest)
             | None => None
             end
      | [] => None
      end
    else if json.is_ c 0x22 then
      match json.scan_string t with
      | Some (l, rest) => Some (json.String l, rest)
      | None => None
      end
    else if json.is_ c 0x74 then
      option_map (fun rest => (json.Bool true, rest)) (json.strip_prefix (lit "rue") t)
    else if json.is_ c 0x66 then
      option_map (fun rest => (json.Bool false, rest)) (json.strip_prefix (lit "alse") t)
    else if json.is_ c 0x6e then
      option_map (fun rest => (json.Null, rest)) (json.strip_prefix (lit "ull") t)
    else if json.is_ c 0x2d || json.isDigit c then
      match json.scan_number (c :: t) with
      | Some (l, rest) => Some (json.Number l, rest)
      | None => None
      end
    else None
  end.
Proof. reflexivity. Qed.

Lemma parse_members_eq f d s :
  json.parse_members (S f) d s =
  match json.skip_ws s with
  | q :: t =>
    if json.is_ q 0x22 then
      match json.scan_string t with
      | Some (k, r) =>
        match json.skip_ws r with
        | colon :: r1 =>
          if json.is_ colon 0x3a then
            match json.parse_value f d r1 with
            | Some (v, r2) =>
              match json.skip_ws r2 with
              | sep :: r3 =>
                if json.is_ sep 0x2c then
                  match json.parse_members f d r3 with
                  | Some (ms, r4) => Some ((k, v) :: ms, r4)
                  | None => None
                  end
                else if json.is_ sep 0x7d then Some ([(k, v)], r3)
                else None
              | [] => None
              end
            | None => None
            end
          else None
        | [] => None
        end
      | None => None
      end
    else None
  | [] => None
  end.
Proof. reflexivity. Qed.

(** Tests on bytes that are known are evaluated. *)
Ltac eval_bytes :=
  repeat match goal with
  | |- context [json.is_ ?c ?k] =>
      let v := eval vm_compute in (json.is_ c k) in
      match v with
      | true => change (json.is_ c k) with true
      | false => change (json.is_ c k) with false
      end
  | |- context [json.isSpace ?c] =>
      let v := eval vm_compute in (json.isSpace c) in
      match v with
      | true => change (json.isSpace c) with true
      | false => change (json.isSpace c) with false
      end
  end.

Ltac jstep :=
  repeat first
    [ progress eval_bytes
    | progress cbv beta iota
    | rewrite skip_ws_eq ].

Lemma parse_value_string f d l rest :
  json.scans l ->
  json.parse_value (S f) d (x22 :: l ++ x22 :: rest) = Some (json.String l, rest).
Proof.
  intros Hl. rewrite parse_value_eq. jstep. rewrite Hl. reflexivity.
Qed.

Lemma parse_member_comma f d key l rest :
  json.scans key -> json.scans l ->
  json.parse_members (S (S f)) d
    (x22 :: key ++ x22 :: x3a :: x22 :: l ++ x22 :: x2c :: rest)
  = match json.parse_members (S f) d rest with
    | Some (ms, r) => Some ((key, json.String l) :: ms, r)
    | None => None
    end.
Proof.
  intros Hk Hb. rewrite parse_members_eq. jstep. rewrite Hk. jstep.
  rewrite parse_value_string by assumption. jstep. reflexivity.
Qed.

Lemma parse_member_last f d key l rest :
  json.scans key -> json.scans l ->
  json.parse_members (S (S f)) d
    (x22 :: key ++ x22 :: x3a :: x22 :: l ++ x22 :: x7d :: rest)
  = Some ([(key, json.String l)], rest).
Proof.
  intros Hk Hb. rewrite parse_members_eq. jstep. rewrite Hk. jstep.
  rewrite parse_value_string by assumption. jstep. reflexivity.
Qed.

Lemma Marshal_load_book b :
  json.Marshal LoadBooks.Book_fields b
  = json.book_bytes (LoadBooks.Title b) (LoadBooks.Url b) (LoadBooks.Description b).
Proof.
  unfold json.Marshal, LoadBooks.Book_fields, json.book_bytes.
  cbn [json.encode_fields json.name json.encode json.string_field].
  change (json.is_ x2c 123) with false. cbv iota.
  unfold json.encode_string.
  change (json.encode_string_body (lit "title")) with (lit "title").
  change (json.encode_string_body (lit "url")) with (lit "url").
  change (json.encode_string_body (lit "description")) with (lit "description").
  cbn [app]. repeat (rewrite <- app_assoc; cbn [app]). reflexivity.
Qed.

Lemma scans_title : json.scans (lit "title").
Proof. intros R. reflexivity. Qed.
Lemma scans_url : json.scans (lit "url").
Proof. intros R. reflexivity. Qed.
Lemma scans_description : json.scans (lit "description").
Proof. intros R. reflexivity. Qed.

Lemma scans_body s : utf8.valid s -> json.scans (json.encode_string_body s).
Proof. intros V R. apply scan_string_body. assumption. Qed.

Lemma parse_value_book f d T U D rest :
  utf8.valid T -> utf8.valid U -> utf8.valid D ->
  d + 1 <= json.maxNestingDepth ->
  json.parse_value (S (S (S (S (S f))))) d (json.book_bytes T U D ++ rest)
  = Some (json.book_value T U D, rest).
Proof.
  intros VT VU VD Hd. unfold json.book_bytes.
  cbn [app]. repeat (rewrite <- app_assoc; cbn [app]).
  rewrite parse_value_eq. jstep.
  replace (json.maxNestingDepth <? d + 1) with false by (symmetry; apply Z.ltb_ge; lia).
  rewrite (parse_member_comma _ _ (lit "title")) by auto using scans_title, scans_body.
  rewrite (parse_member_comma _ _ (lit "url")) by auto using scans_url, scans_body.
  rewrite (parse_member_last _ _ (lit "description")) by auto using scans_description, scans_body.
  reflexivity.
Qed.

Lemma book_bytes_length T U D : (5 <= length (json.book_bytes T U D))%nat.
Proof.
  unfold json.book_bytes. cbn [length]. rewrite length_app.
  change (length (lit "title")) with 5%nat. lia.
Qed.

Lemma scan_book T U D :
  utf8.valid T -> utf8.valid U -> utf8.valid D ->
  json.scan (json.book_bytes T U D) = Some (json.book_value T U D).
Proof.
  intros VT VU VD. unfold json.scan.
  pose proof (book_bytes_length T U D) as L.
  destruct (length (json.book_bytes T U D)) as [|[|[|[|[|n]]]]]; try lia.
  rewrite <- (app_nil_r (json.book_bytes T U D)).
  rewrite (parse_value_book (S n)) by (auto; unfold json.maxNestingDepth; lia).
  reflexivity.
Qed.

Lemma decode_load_book T U D cur :
  utf8.valid T -> utf8.valid U -> utf8.valid D ->
  json.decode_struct LoadBooks.Book_fields (json.book_value T U D) cur None
  = json.Stored (LoadBooks.mkBook T U D) None.
Proof.
  intros VT VU VD. unfold json.book_value.
  cbn [json.decode_struct json.decode_members].
  change (json.unquoteBytes (lit "title")) with (Some (lit "title")).
  change (json.unquoteBytes (lit "url")) with (Some (lit "url")).
  change (json.unquoteBytes (lit "description")) with (Some (lit "description")).
  cbv beta iota.
  change (json.find_field LoadBooks.Book_fields (lit "title"))
    with (Some (nth 0 LoadBooks.Book_fields (json.string_field [] json.equalFoldRight LoadBooks.Title (fun _ b => b)))).
  change (json.find_field LoadBooks.Book_fields (lit "url"))
    with (Some (nth 1 LoadBooks.Book_fields (json.string_field [] json.equalFoldRight LoadBooks.Title (fun _ b => b)))).
  change (json.find_field LoadBooks.Book_fields (lit "description"))
    with (Some (nth 2 LoadBooks.Book_fields (json.string_field [] json.equalFoldRight LoadBooks.Title (fun _ b => b)))).
  cbn [nth LoadBooks.Book_fields json.string_field json.store json.store_string].
  rewrite !unquoteBytes_body by assumption.
  reflexivity.
Qed.

Lemma Unmarshal_Marshal_load b :
  utf8.valid (LoadBooks.Title b) -> utf8.valid (LoadBooks.Url b) ->
  utf8.valid (LoadBooks.Description b) ->
  json.Unmarshal LoadBooks.Book_fields LoadBooks.zero_Book
    (json.Marshal LoadBooks.Book_fields b) = json.Ok b.
Proof.
  intros VT VU VD. unfold json.Unmarshal.
  rewrite Marshal_load_book, scan_book by assumption.
  rewrite decode_load_book by assumption. destruct b; reflexivity.
Qed.

(** ** Decoding keeps the fields well formed *)

Lemma find_field_In {T} (fields : list (json.field T)) key f :
  json.find_field fields key = Some f -> In f fields.
Proof.
  unfold json.find_field.
  destruct (find _ fields) eqn:E1.
  - intros [= <-]. apply find_some in E1. tauto.
  - intros E2. apply find_some in E2. tauto.
Qed.

Section Invariant.

Context {T : Type} (P : T -> Prop) (fields : list (json.field T)).

Hypothesis store_keeps : forall f, In f fields ->
  forall v cur saved cur' saved', P cur ->
  json.store f v cur saved = json.Stored cur' saved' -> P cur'.

Lemma decode_members_inv : forall ms cur saved cur' saved',
  P cur -> json.decode_members fields ms cur saved = json.Stored cur' saved' -> P cur'.
Proof.
  induction ms as [|[k v] ms IH]; intros cur saved cur' saved' Hc H.
  - injection H as <- _. assumption.
  - cbn [json.decode_members] in H.
    destruct (json.unquoteBytes k) as [key|]; [|discriminate].
    destruct (json.find_field fields key) as [f|] eqn:F.
    + destruct (json.store f v cur saved) as [c1 s1|] eqn:S1; [|discriminate].
      eapply IH; [|exact H]. eapply store_keeps; eauto using find_field_In.
    + eapply IH; eauto.
Qed.

Lemma decode_struct_inv v cur saved cur' saved' :
  P cur -> json.decode_struct fields v cur saved = json.Stored cur' saved' -> P cur'.
Proof.
  intros Hc H. destruct v; cbn [json.decode_struct] in H;
    try (injection H as <- _; assumption).
  eapply decode_members_inv; eauto.
Qed.

End Invariant.

Lemma store_string_inv {T} (P : T -> Prop) (set : gostring -> T -> T) :
  (forall s cur, utf8.valid s -> P cur -> P (set s cur)) ->
  forall v cur saved cur' saved', P cur ->
  json.store_string set v cur saved = json.Stored cur' saved' -> P cur'.
Proof.
  intros Hset v cur saved cur' saved' Hc H.
  destruct v; cbn [json.store_string] in H; try (injection H as <- _; assumption).
  destruct (json.unquoteBytes literal) as [s|] eqn:U; [|discriminate].
  injection H as <- _. apply Hset; [|assumption].
  eapply unquoteBytes_valid; eauto.
Qed.

Lemma valid_zero_Book : LoadBooks.valid_Book LoadBooks.zero_Book.
Proof. repeat split; constructor. Qed.

Lemma Unmarshal_valid data b :
  json.Unmarshal LoadBooks.Book_fields LoadBooks.zero_Book data = json.Ok b ->
  LoadBooks.valid_Book b.
Proof.
  unfold json.Unmarshal. destruct (json.scan data) as [v|]; [|discriminate].
  destruct (json.decode_struct _ v _ None) as [b' [e|]|] eqn:D; try discriminate.
  intros [= <-].
  eapply (decode_struct_inv LoadBooks.valid_Book); [| apply valid_zero_Book | exact D].
  intros f Hf. cbn in Hf.
  destruct Hf as [<-|[<-|[<-|[]]]]; cbn [json.store json.string_field];
    apply store_string_inv; intros s [T U D'] V (VT & VU & VD); repeat split; assumption.
Qed.

(** ** The searcher decoding what the loader encoded *)

Lemma decode_search_book T U D cur saved :
  utf8.valid T -> utf8.valid U -> utf8.valid D ->
  json.decode_struct SearchBooks.Book_fields (json.book_value T U D) cur saved
  = json.Stored (SearchBooks.mkBook T U D) saved.
Proof.
  intros VT VU VD. unfold json.book_value.
  cbn [json.decode_struct json.decode_members].
  change (json.unquoteBytes (lit "title")) with (Some (lit "title")).
  change (json.unquoteBytes (lit "url")) with (Some (lit "url")).
  change (json.unquoteBytes (lit "description")) with (Some (lit "description")).
  cbv beta iota.
  change (json.find_field SearchBooks.Book_fields (lit "title"))
    with (Some (nth 0 SearchBooks.Book_fields (json.string_field [] json.equalFoldRight SearchBooks.Title (fun _ b => b)))).
  change (json.find_field SearchBooks.Book_fields (lit "url"))
    with (Some (nth 1 SearchBooks.Book_fields (json.string_field [] json.equalFoldRight SearchBooks.Title (fun _ b => b)))).
  change (json.find_field SearchBooks.Book_fields (lit "description"))
    with (Some (nth 2 SearchBooks.Book_fields (json.string_field [] json.equalFoldRight SearchBooks.Title (fun _ b => b)))).
  cbn [nth SearchBooks.Book_fields json.string_field json.store json.store_string].
  rewrite !unquoteBytes_body by assumption.
  reflexivity.
Qed.

Lemma Unmarshal_search_book T U D :
  utf8.valid T -> utf8.valid U -> utf8.valid D ->
  json.Unmarshal SearchBooks.Book_fields SearchBooks.zero_Book (json.book_bytes T U D)
  = json.Ok (SearchBooks.mkBook T U D).
Proof.
  intros VT VU VD. unfold json.Unmarshal.
  rewrite scan_book by assumption.
  rewrite decode_search_book by assumption. reflexivity.
Qed.

Lemma parse_elements_eq f d s :
  json.parse_elements (S f) d s =
  match json.parse_value f d s with
  | Some (v, r) =>
    match json.skip_ws r with
    | sep :: r1 =>
      if json.is_ sep 0x2c then
        match json.parse_elements f d r1 with
        | Some (vs, r2) => Some (v :: vs, r2)
        | None => None
        end
      else if json.is_ sep 0x5d then Some ([v], r1)
      else None
    | [] => None
    end
  | None => None
  end.
Proof. reflexivity. Qed.

Lemma scans_hits : json.scans (lit "hits").
Proof. intros R. reflexivity. Qed.
Lemma scans_source : json.scans (lit "_source").
Proof. intros R. reflexivity. Qed.

Lemma parse_response_with f T U D :
  utf8.valid T -> utf8.valid U -> utf8.valid D ->
  json.parse_value (S (S (S (S (S (S (S (S (S (S (S (S (S f))))))))))))) 0
    (SearchBooks.response_with (json.book_bytes T U D))
  = Some (json.Object [(lit "hits", json.Object [(lit "hits",
       json.Array [json.Object [(lit "_source", json.book_value T U D)]])])], []).
Proof.
  intros VT VU VD. unfold SearchBooks.response_with.
  change (golit "{'hits':{'hits':[{'_source':")
    with (x7b :: x22 :: lit "hits" ++ x22 :: x3a :: x7b :: x22 :: lit "hits" ++ x22 :: x3a ::
          x5b :: x7b :: x22 :: lit "_source" ++ x22 :: [x3a]).
  change (golit "}]}}") with [x7d; x5d; x7d; x7d].
  cbn [app]. repeat (rewrite <- app_assoc; cbn [app]).
  rewrite parse_value_eq. jstep. change (json.maxNestingDepth <? 0 + 1) with false. cbv iota.
  rewrite parse_members_eq. jstep. rewrite scans_hits. jstep.
  rewrite parse_value_eq. jstep. change (json.maxNestingDepth <? 0 + 1 + 1) with false. cbv iota.
  rewrite parse_members_eq. jstep. rewrite scans_hits. jstep.
  rewrite parse_value_eq. jstep. change (json.maxNestingDepth <? 0 + 1 + 1 + 1) with false. cbv iota.
  rewrite parse_elements_eq.
  rewrite parse_value_eq. jstep. change (json.maxNestingDepth <? 0 + 1 + 1 + 1 + 1) with false. cbv iota.
  rewrite parse_members_eq. jstep. rewrite scans_source. jstep.
  rewrite parse_value_book by (auto; unfold json.maxNestingDepth; lia).
  jstep. reflexivity.
Qed.

Section DecodeResponse.

Variable PF : gostring -> option fmt.float64.

Lemma find_response_hits :
  json.find_field (SearchBooks.BookSearchResponse_fields PF) (lit "hits")
  = nth_error (SearchBooks.BookSearchResponse_fields PF) 1.
Proof. reflexivity. Qed.

Lemma find_hits_hits :
  json.find_field (SearchBooks.HitsStruct_fields PF) (lit "hits")
  = nth_error (SearchBooks.HitsStruct_fields PF) 0.
Proof. reflexivity. Qed.

Lemma find_hit_source :
  json.find_field (SearchBooks.Hit_fields PF) (lit "_source")
  = nth_error (SearchBooks.Hit_fields PF) 0.
Proof. reflexivity. Qed.

Lemma response_with_length s : (13 <= length (SearchBooks.response_with s))%nat.
Proof.
  unfold SearchBooks.response_with. rewrite length_app.
  change (length (golit "{'hits':{'hits':[{'_source':")) with 28%nat. lia.
Qed.

Lemma Decode_response_with T U D :
  utf8.valid T -> utf8.valid U -> utf8.valid D ->
  json.Decode (SearchBooks.BookSearchResponse_fields PF) SearchBooks.zero_Response
    (SearchBooks.response_with (json.book_bytes T U D))
  = json.Ok (SearchBooks.mkResponse SearchBooks.zero_float
       (SearchBooks.mkHits
          [SearchBooks.mkHit (SearchBooks.mkBook T U D) SearchBooks.zero_float])).
Proof.
  intros VT VU VD. unfold json.Decode.
  pose proof (response_with_length (json.book_bytes T U D)) as L.
  destruct (length _) as [|[|[|[|[|[|[|[|[|[|[|[|[|n]]]]]]]]]]]]]; try lia.
  rewrite (parse_response_with (S n)) by assumption.
  cbn [json.decode_struct json.decode_members].
  change (json.unquoteBytes (lit "hits")) with (Some (lit "hits")). cbv beta iota.
  rewrite find_response_hits.
  cbn [nth_error SearchBooks.BookSearchResponse_fields json.store].
  unfold json.store_struct at 1.
  cbn [json.decode_struct json.decode_members SearchBooks.Hits_ SearchBooks.zero_Response].
  change (json.unquoteBytes (lit "hits")) with (Some (lit "hits")). cbv beta iota.
  rewrite find_hits_hits.
  cbn [nth_error SearchBooks.HitsStruct_fields json.store].
  unfold json.store_slice at 1.
  cbn [json.decode_elements json.decode_struct json.decode_members SearchBooks.Hits hd tl].
  change (json.unquoteBytes (lit "_source")) with (Some (lit "_source")). cbv beta iota.
  rewrite find_hit_source.
  cbn [nth_error SearchBooks.Hit_fields json.store].
  unfold json.store_struct at 1.
  rewrite decode_search_book by assumption.
  reflexivity.
Qed.

End DecodeResponse.

(** ** The decoder never panics *)

Lemma is_eq c k : json.is_ c k = true -> forall b, b2z b = k -> c = b.
Proof.
  unfold json.is_. intros H b Hb. apply Z.eqb_eq in H. apply b2z_inj. congruence.
Qed.

Lemma prepend_Some {A} (pre : list A) r l rest :
  json.prepend pre r = Some (l, rest) ->
  exists l', r = Some (l', rest) /\ l = pre ++ l'.
Proof.
  destruct r as [[a b]|]; cbn; [|discriminate].
  intros [= <- <-]. eauto.
Qed.

Lemma scan_string_quotable n : forall s l rest,
  (length s <= n)%nat -> json.scan_string s = Some (l, rest) -> quotable l.
Proof.
  induction n as [|n IH]; intros s l rest Hn H.
  - destruct s; [discriminate | cbn in Hn; lia].
  - destruct s as [|c t]; [discriminate|].
    cbn [json.scan_string] in H. cbn [length] in Hn.
    destruct (json.is_ c 0x22) eqn:Eq.
    { injection H as <- <-. constructor. }
    destruct (json.is_ c 0x5c) eqn:Eb.
    + pose proof (is_eq c _ Eb x5c eq_refl) as ->.
      destruct t as [|e t1]; [discriminate|]. cbn [length] in Hn.
      destruct (_ || _) eqn:Es in H.
      * apply prepend_Some in H. destruct H as (l' & H & ->).
        cbn [app]. apply quotable_escape; [exact Es|].
        apply (IH t1 l' rest); [lia | exact H].
      * destruct (json.is_ e 0x75) eqn:Eu; [|discriminate].
        pose proof (is_eq e _ Eu x75 eq_refl) as ->.
        destruct t1 as [|h1 [|h2 [|h3 [|h4 t2]]]]; try discriminate.
        cbn [length] in Hn.
        destruct (_ && _) eqn:Eh in H; [|discriminate].
        apply prepend_Some in H. destruct H as (l' & H & ->).
        cbn [app]. apply quotable_u; [exact Eh|].
        apply (IH t2 l' rest); [lia | exact H].
    + destruct (b2z c <? 0x20) eqn:Ec; [discriminate|].
      apply prepend_Some in H. destruct H as (l' & H & ->).
      cbn [app]. apply quotable_plain.
      * unfold plain. rewrite Eq, Eb, Ec. reflexivity.
      * apply (IH t l' rest); [lia | exact H].
Qed.

Lemma quotable_tail c t :
  json.is_ c 0x5c = false -> quotable (c :: t) -> quotable t.
Proof.
  intros Hc Q. inversion Q; subst; try assumption; discriminate Hc.
Qed.

Lemma quotable_skip_high k : forall l,
  quotable l -> (k <= length l)%nat ->
  Forall (fun c => 0x80 <= b2z c) (firstn k l) -> quotable (skipn k l).
Proof.
  induction k as [|k IH]; intros l Q Hk Hh; [exact Q|].
  destruct l as [|c t]; [cbn in Hk; lia|].
  cbn [firstn] in Hh. inversion Hh as [|? ? Hc Ht]; subst.
  cbn [skipn]. apply IH; [|cbn in Hk; lia|exact Ht].
  apply (quotable_tail c); [|exact Q].
  unfold json.is_. apply Z.eqb_neq. lia.
Qed.

Lemma isHex_hexval h : json.isHex h = true -> exists d, json.hexval h = Some d /\ 0 <= d <= 15.
Proof.
  intros H. destruct (json.hexval h) as [d|] eqn:E.
  - exists d. split; [reflexivity|]. eapply hexval_range; eauto.
  - exfalso. revert H E. unfold json.isHex, json.isDigit, json.hexval.
    pose proof (b2z_range h).
    repeat match goal with
    | |- context [?a <=? ?b] => destruct (Z.leb_spec a b)
    end; cbn; intros; try discriminate; lia.
Qed.

Lemma getu4_hex h1 h2 h3 h4 t :
  json.isHex h1 && json.isHex h2 && json.isHex h3 && json.isHex h4 = true ->
  0 <= json.getu4 (x5c :: x75 :: h1 :: h2 :: h3 :: h4 :: t).
Proof.
  intros H. apply andb_true_iff in H. destruct H as [H H4].
  apply andb_true_iff in H. destruct H as [H H3].
  apply andb_true_iff in H. destruct H as [H1 H2].
  destruct (isHex_hexval _ H1) as (d1 & E1 & R1).
  destruct (isHex_hexval _ H2) as (d2 & E2 & R2).
  destruct (isHex_hexval _ H3) as (d3 & E3 & R3).
  destruct (isHex_hexval _ H4) as (d4 & E4 & R4).
  unfold json.getu4. change (json.is_ x5c 92 && json.is_ x75 117) with true.
  cbv iota. rewrite E1, E2, E3, E4. lia.
Qed.

Lemma getu4_nonneg s : 0 <= json.getu4 s ->
  exists h1 h2 h3 h4 t, s = x5c :: x75 :: h1 :: h2 :: h3 :: h4 :: t.
Proof.
  unfold json.getu4.
  destruct s as [|b [|u [|h1 [|h2 [|h3 [|h4 t]]]]]]; try lia.
  destruct (json.is_ b 92) eqn:Eb; [|cbn; lia].
  destruct (json.is_ u 117) eqn:Eu; [|cbn; lia].
  intros _. rewrite (is_eq b _ Eb x5c eq_refl), (is_eq u _ Eu x75 eq_refl). eauto 10.
Qed.

Lemma utf16_paired r1 r2 :
  0 <= r1 -> utf16.DecodeRune r1 r2 <> utf16.replacementChar -> 0 <= r2.
Proof.
  unfold utf16.DecodeRune.
  destruct (_ && _) eqn:E; [|congruence].
  intros _ _. apply andb_true_iff in E. destruct E as [E _].
  apply andb_true_iff in E. destruct E as [_ E].
  unfold utf16.surr2 in E. apply Z.leb_le in E. lia.
Qed.

Lemma quotable_after_u h1 h2 h3 h4 t :
  quotable (x5c :: x75 :: h1 :: h2 :: h3 :: h4 :: t) -> quotable t.
Proof.
  intros Q. inversion Q as [|? ? P|? ? P|]; subst; try assumption.
  - vm_compute in P. discriminate.
  - vm_compute in P. discriminate.
Qed.

Lemma unquote_loop_total fuel : forall l,
  quotable l -> (length l <= fuel)%nat ->
  exists r, json.unquote_loop fuel l = Some r.
Proof.
  induction fuel as [|fuel IH]; intros l Q Hl.
  - destruct l; [exists []; reflexivity | cbn in Hl; lia].
  - destruct l as [|c t]; [exists []; reflexivity|].
    cbn [length] in Hl. cbn [json.unquote_loop].
    destruct (json.is_ c 0x5c) eqn:Eb.
    + pose proof (is_eq c _ Eb x5c eq_refl) as ->.
      inversion Q as [|? ? P Qt|e t1 P Qt|h1 h2 h3 h4 t2 P Qt]; subst.
      * vm_compute in P. discriminate.
      * cbn [length] in Hl.
        destruct (IH t1 Qt ltac:(lia)) as [r1 Hr1]. rewrite Hr1.
        revert P.
        repeat match goal with
        | |- context [json.is_ e ?k] =>
            destruct (json.is_ e k) eqn:?; cbn [orb option_map];
            [intros _; eexists; reflexivity|]
        end.
        discriminate.
      * eval_bytes. cbv iota. cbn [orb].
        pose proof (getu4_hex h1 h2 h3 h4 t2 P) as G.
        set (s := x5c :: x75 :: h1 :: h2 :: h3 :: h4 :: t2) in *.
        cbv zeta.
        replace (json.getu4 s <? 0) with false by (symmetry; apply Z.ltb_ge; exact G).
        change (skipn 6 s) with t2. cbn [length] in Hl.
        destruct (utf16.IsSurrogate (json.getu4 s)).
        -- destruct (Z.eqb_spec (utf16.DecodeRune (json.getu4 s) (json.getu4 t2))
                       utf16.replacementChar) as [E|E]; cbn [negb].
           ++ destruct (IH t2 Qt ltac:(lia)) as [r Hr]. rewrite Hr. cbn. eauto.
           ++ pose proof (utf16_paired _ _ G E) as G2.
              destruct (getu4_nonneg _ G2) as (k1 & k2 & k3 & k4 & t3 & ->).
              change (skipn 6 (x5c :: x75 :: k1 :: k2 :: k3 :: k4 :: t3)) with t3.
              cbn [length] in Hl.
              destruct (IH t3 (quotable_after_u _ _ _ _ _ Qt) ltac:(lia)) as [r Hr].
              rewrite Hr. cbn. eauto.
        -- destruct (IH t2 Qt ltac:(lia)) as [r Hr]. rewrite Hr. cbn. eauto.
    + assert (Qt : quotable t) by (apply (quotable_tail c); assumption).
      assert (P : plain c = true).
      { inversion Q as [|? ? P ?|? ? P ?|]; subst; try assumption; discriminate Eb. }
      unfold plain in P. rewrite Eb in P.
      destruct (json.is_ c 0x22); [discriminate P|].
      destruct (b2z c <? 0x20); [discriminate P|]. cbn [orb].
      destruct (Z.ltb_spec (b2z c) utf8.RuneSelf) as [Ha|Ha].
      * destruct (IH t Qt ltac:(lia)) as [r Hr]. rewrite Hr. cbn. eauto.
      * destruct (utf8.DecodeRune (c :: t)) as [rr size] eqn:D.
        pose proof (DecodeRune_size (c :: t) rr size ltac:(discriminate) D) as Hs.
        assert (Qs : quotable (skipn size (c :: t))).
        { apply quotable_skip_high; [exact Q | lia |].
          destruct (decode_sound (c :: t) rr size ltac:(discriminate) D)
            as [[_ ->]|(Sc & Hn & Hf)].
          - cbn [firstn]. constructor; [exact Ha | constructor].
          - rewrite Hf. apply encode_high; [exact Sc|].
            destruct (Z.ltb_spec rr utf8.RuneSelf) as [Hr|Hr]; [|exact Hr].
            exfalso. unfold utf8.EncodeRune in Hf.
            destruct Sc as [[Sc1 Sc2] _]. unfold utf8.RuneSelf in *.
            replace (uint32 rr <=? utf8.rune1Max) with true in Hf
              by (symmetry; apply Z.leb_le; unfold uint32, utf8.rune1Max;
                  rewrite Z.mod_small; lia).
            destruct size as [|size]; [lia|]. cbn [firstn] in Hf.
            injection Hf as Hc _. rewrite Hc in Ha. unfold utf8.byte_of in Ha.
            rewrite b2z_z2b in Ha. rewrite Z.mod_mod in Ha by lia.
            rewrite Z.mod_small in Ha by lia. lia. }
        destruct (IH _ Qs) as [r Hr].
        { rewrite length_skipn. cbn [length]. lia. }
        rewrite Hr. cbn. eauto.
Qed.

Lemma unquoteBytes_total l : quotable l -> exists r, json.unquoteBytes l = Some r.
Proof.
  intros Q. rewrite unquoteBytes_loop. apply unquote_loop_total; [exact Q | lia].
Qed.

Lemma scanned_quotable s l rest : json.scan_string s = Some (l, rest) -> quotable l.
Proof. apply (scan_string_quotable (length s)). lia. Qed.

Ltac step_parse H :=
  match type of H with
  | context [option_map _ ?x] => destruct x eqn:?; cbn [option_map] in H; try discriminate H
  | context [match ?x with _ => _ end] =>
    lazymatch x with
    | json.parse_value _ _ _ => destruct x as [[? ?]|] eqn:?
    | json.parse_members _ _ _ => destruct x as [[? ?]|] eqn:?
    | json.parse_elements _ _ _ => destruct x as [[? ?]|] eqn:?
    | json.scan_string _ => destruct x as [[? ?]|] eqn:?
    | json.scan_number _ => destruct x as [[? ?]|] eqn:?
    | _ => destruct x eqn:?
    end; try discriminate H
  end.

Ltac parsed H :=
  repeat step_parse H; injection H as <- <-;
  repeat (constructor; cbn [fst snd]); eauto using scanned_quotable.

Lemma parse_wf fuel :
  (forall d s v rest, json.parse_value fuel d s = Some (v, rest) -> wf_value v) /\
  (forall d s ms rest, json.parse_members fuel d s = Some (ms, rest) ->
     Forall (fun kv => quotable (fst kv) /\ wf_value (snd kv)) ms) /\
  (forall d s vs rest, json.parse_elements fuel d s = Some (vs, rest) ->
     Forall wf_value vs).
Proof.
  induction fuel as [|fuel (IHv & IHm & IHe)].
  - repeat split; intros; discriminate.
  - split; [|split].
    + intros d s v rest H. rewrite parse_value_eq in H. parsed H.
    + intros d s ms rest H. rewrite parse_members_eq in H. parsed H.
    + intros d s vs rest H. rewrite parse_elements_eq in H. parsed H.
Qed.

Lemma scan_wf data v : json.scan data = Some v -> wf_value v.
Proof.
  unfold json.scan.
  destruct (json.parse_value _ 0 data) as [[v' rest]|] eqn:E; [|discriminate].
  destruct (json.skip_ws rest); [|discriminate].
  intros [= <-]. eapply (proj1 (parse_wf _)); eauto.
Qed.

Section Total.

Context {T : Type} (fields : list (json.field T)).

Hypothesis store_total : forall f, In f fields ->
  forall v cur saved, wf_value v -> json.store f v cur saved <> json.Panicked.

Lemma decode_members_total ms :
  Forall (fun kv => quotable (fst kv) /\ wf_value (snd kv)) ms ->
  forall cur saved, json.decode_members fields ms cur saved <> json.Panicked.
Proof.
  induction 1 as [|[k v] ms [Qk Wv] _ IH]; intros cur saved; cbn [json.decode_members].
  - discriminate.
  - cbn [fst snd] in *.
    destruct (unquoteBytes_total k Qk) as [key ->].
    destruct (json.find_field fields key) as [f|] eqn:F; [|apply IH].
    destruct (json.store f v cur saved) as [c1 s1|] eqn:S1; [apply IH|].
    exfalso. eapply store_total; eauto using find_field_In.
Qed.

Lemma decode_struct_total v cur saved :
  wf_value v -> json.decode_struct fields v cur saved <> json.Panicked.
Proof.
  intros W. destruct v; cbn [json.decode_struct]; try discriminate.
  inversion W; subst. apply decode_members_total. assumption.
Qed.

End Total.

Lemma store_string_total {T} (set : gostring -> T -> T) v cur saved :
  wf_value v -> json.store_string set v cur saved <> json.Panicked.
Proof.
  intros W. destruct v; cbn [json.store_string]; try discriminate.
  inversion W; subst.
  destruct (unquoteBytes_total _ ltac:(eassumption)) as [s ->]. discriminate.
Qed.

Lemma store_float_total {T F} (PF : gostring -> option F) (set : F -> T -> T) v cur saved :
  json.store_float PF set v cur saved <> json.Panicked.
Proof.
  destruct v as [|b|l|l|vs|ms]; cbn [json.store_float]; try discriminate.
  destruct (PF l); discriminate.
Qed.

Lemma store_struct_total {T U} (fields : list (json.field U)) (get : T -> U) set v cur saved :
  (forall u s, json.decode_struct fields v u s <> json.Panicked) ->
  json.store_struct fields get set v cur saved <> json.Panicked.
Proof.
  intros H. unfold json.store_struct.
  destruct (json.decode_struct fields v (get cur) saved) eqn:E; [discriminate|].
  exfalso. eapply H; eauto.
Qed.

Lemma decode_elements_total {E} (store_elem : json.value -> E -> option error -> json.decoded E)
  zero vs :
  Forall (fun v => forall e s, store_elem v e s <> json.Panicked) vs ->
  forall old saved, json.decode_elements store_elem zero vs old saved <> json.Panicked.
Proof.
  induction 1 as [|v vs Hv _ IH]; intros old saved; cbn [json.decode_elements].
  - discriminate.
  - destruct (store_elem v (hd zero old) saved) as [e s|] eqn:E1; [|exfalso; eapply Hv; eauto].
    destruct (json.decode_elements store_elem zero vs (tl old) s) eqn:E2; [discriminate|].
    exfalso. eapply IH; eauto.
Qed.

Lemma store_slice_total {T E} (store_elem : json.value -> E -> option error -> json.decoded E)
  zero (get : T -> list E) set v cur saved :
  (forall w, wf_value w -> forall e s, store_elem w e s <> json.Panicked) ->
  wf_value v ->
  json.store_slice store_elem zero get set v cur saved <> json.Panicked.
Proof.
  intros H W. destruct v as [|b|l|l|vs|ms]; cbn [json.store_slice]; try discriminate.
  inversion W as [| | | |? Hvs|]; subst.
  destruct (json.decode_elements store_elem zero vs (get cur) saved) eqn:E1; [discriminate|].
  exfalso. eapply (decode_elements_total store_elem zero vs); [|exact E1].
  eapply Forall_impl; [|exact Hvs]. intros w Hw. apply H. exact Hw.
Qed.

Lemma load_book_total v cur saved :
  wf_value v -> json.decode_struct LoadBooks.Book_fields v cur saved <> json.Panicked.
Proof.
  apply decode_struct_total. intros f Hf. cbn in Hf.
  destruct Hf as [<-|[<-|[<-|[]]]]; cbn [json.store json.string_field];
    intros; apply store_string_total; assumption.
Qed.

Lemma search_book_total v cur saved :
  wf_value v -> json.decode_struct SearchBooks.Book_fields v cur saved <> json.Panicked.
Proof.
  apply decode_struct_total. intros f Hf. cbn in Hf.
  destruct Hf as [<-|[<-|[<-|[]]]]; cbn [json.store json.string_field];
    intros; apply store_string_total; assumption.
Qed.

Lemma hit_total PF v cur saved :
  wf_value v -> json.decode_struct (SearchBooks.Hit_fields PF) v cur saved <> json.Panicked.
Proof.
  apply decode_struct_total. intros f Hf. cbn in Hf.
  destruct Hf as [<-|[<-|[]]]; cbn [json.store]; intros w c s W.
  - apply store_struct_total. intros; apply search_book_total; assumption.
  - apply store_float_total.
Qed.

Lemma hits_total PF v cur saved :
  wf_value v ->
  json.decode_struct (SearchBooks.HitsStruct_fields PF) v cur saved <> json.Panicked.
Proof.
  apply decode_struct_total. intros f Hf. cbn in Hf.
  destruct Hf as [<-|[]]; cbn [json.store]; intros w c s W.
  apply store_slice_total; [|exact W]. intros; apply hit_total; assumption.
Qed.

Lemma response_total PF v cur saved :
  wf_value v ->
  json.decode_struct (SearchBooks.BookSearchResponse_fields PF) v cur saved <> json.Panicked.
Proof.
  apply decode_struct_total. intros f Hf. cbn in Hf.
  destruct Hf as [<-|[<-|[]]]; cbn [json.store]; intros w c s W.
  - apply store_float_total.
  - apply store_struct_total. intros; apply hits_total; assumption.
Qed.

Lemma finish_no_panic {T} (d : json.decoded T) :
  d <> json.Panicked -> json.finish d <> json.Panic.
Proof. destruct d as [b [e|]|]; cbn; congruence. Qed.

(** [json.Unmarshal] on a line never panics: it gives a record or an
    error. *)
Lemma Unmarshal_no_panic data :
  json.Unmarshal LoadBooks.Book_fields LoadBooks.zero_Book data <> json.Panic.
Proof.
  unfold json.Unmarshal. destruct (json.scan data) as [v|] eqn:E; [|discriminate].
  apply finish_no_panic, load_book_total. eapply scan_wf; eauto.
Qed.

Lemma Decode_no_panic PF body :
  json.Decode (SearchBooks.BookSearchResponse_fields PF) SearchBooks.zero_Response body
  <> json.Panic.
Proof.
  unfold json.Decode.
  destruct (json.parse_value _ 0 body) as [[v rest]|] eqn:E; [|discriminate].
  apply finish_no_panic, response_total. eapply (proj1 (parse_wf _)); eauto.
Qed.

(** ** Runs *)

Lemma bind_assoc {E A B C} (m : M E A) (f : A -> M E B) (g : B -> M E C) :
  bind (bind m f) g = bind m (fun x => bind (f x) g).
Proof.
  destruct m as [t [o|a]]; cbn; [reflexivity|].
  destruct (f a) as [t1 [o1|b]]; cbn; [reflexivity|].
  destruct (g b) as [t2 r]. rewrite app_assoc. reflexivity.
Qed.

Lemma bind_halt {E A B} (t : list E) (o : outcome) (k : A -> M E B) :
  bind (t, inl o) k = (t, inl o).
Proof. reflexivity. Qed.

(** ** bufio *)

Lemma split_after_line l rest :
  LoadBooks.is_line l -> bufio.split_after x0a (l ++ rest) = Some (l, rest).
Proof.
  unfold LoadBooks.is_line. induction l as [|c l IH]; cbn [bufio.split_after app].
  - discriminate.
  - destruct (b2z c =? b2z x0a).
    + intros H. injection H as H1 H2. subst l. reflexivity.
    + destruct (bufio.split_after x0a l) as [[a b]|] eqn:E; cbn; [|discriminate].
      intros H. injection H as H1 H2. subst a b.
      rewrite IH by reflexivity. reflexivity.
Qed.

Lemma split_after_length d s l r :
  bufio.split_after d s = Some (l, r) ->
  (length s = length l + length r /\ 1 <= length l)%nat.
Proof.
  revert l r. induction s as [|c s IH]; intros l r; cbn [bufio.split_after].
  - discriminate.
  - destruct (b2z c =? b2z d).
    + intros [= <- <-]. cbn. lia.
    + destruct (bufio.split_after d s) as [[a b]|] eqn:E; cbn; [|discriminate].
      intros [= <- <-]. destruct (IH a b eq_refl). cbn. lia.
Qed.

(** ** The loop of the loader *)

Lemma loop_fuel f1 : forall f2 env r n,
  (length (bufio.pending r) < f1)%nat -> (length (bufio.pending r) < f2)%nat ->
  LoadBooks.loop f1 env r n = LoadBooks.loop f2 env r n.
Proof.
  induction f1 as [|f1 IH]; intros f2 env r n H1 H2; [lia|].
  destruct f2 as [|f2]; [lia|].
  cbn [LoadBooks.loop]. unfold bufio.ReadBytes.
  destruct (bufio.split_after x0a (bufio.pending r)) as [[l rest]|] eqn:E; [|reflexivity].
  apply split_after_length in E.
  rewrite (IH f2) by (cbn [bufio.pending]; lia). reflexivity.
Qed.

Lemma run_loop_line env l rest flt n :
  LoadBooks.is_line l ->
  LoadBooks.run_loop env (bufio.mkReader (l ++ rest) flt) n
  = bind (LoadBooks.handle_line env l n)
         (fun _ => LoadBooks.run_loop env (bufio.mkReader rest flt) (S n)).
Proof.
  intros Hl.
  pose proof (split_after_length _ _ _ _ (split_after_line l rest Hl)) as [L1 L2].
  assert (E : LoadBooks.loop (length (l ++ rest)) env (bufio.mkReader rest flt) (S n)
              = LoadBooks.run_loop env (bufio.mkReader rest flt) (S n)).
  { apply loop_fuel; cbn [bufio.pending]; lia. }
  set (K := LoadBooks.run_loop env (bufio.mkReader rest flt) (S n)) in *.
  unfold LoadBooks.run_loop, LoadBooks.handle_line.
  cbn [LoadBooks.loop bufio.pending]. unfold bufio.ReadBytes. cbn [bufio.pending bufio.fault].
  rewrite split_after_line by assumption. rewrite E.
  rewrite bind_assoc. reflexivity.
Qed.

Lemma run_loop_lines env lines : forall rest flt n,
  Forall LoadBooks.is_line lines ->
  LoadBooks.run_loop env (bufio.mkReader (concat lines ++ rest) flt) n
  = bind (LoadBooks.handle_lines env lines n)
         (fun _ => LoadBooks.run_loop env (bufio.mkReader rest flt) (n + length lines)).
Proof.
  induction lines as [|l lines IH]; intros rest flt n H.
  - cbn [concat app LoadBooks.handle_lines length]. rewrite Nat.add_0_r.
    destruct (LoadBooks.run_loop _ _ _) as [t r]. reflexivity.
  - inversion H as [|? ? Hl Hls]; subst.
    cbn [concat LoadBooks.handle_lines length]. rewrite <- app_assoc.
    rewrite run_loop_line by assumption. rewrite IH by assumption.
    rewrite bind_assoc. replace (n + S (length lines))%nat with (S n + length lines)%nat by lia.
    reflexivity.
Qed.

Lemma run_loop_eof env tail n :
  bufio.split_after x0a tail = None ->
  LoadBooks.run_loop env (bufio.mkReader tail None) n = ([LoadBooks.ReadBytes], inr tt).
Proof.
  intros H. unfold LoadBooks.run_loop. cbn [LoadBooks.loop bufio.pending].
  unfold bufio.ReadBytes. cbn [bufio.pending bufio.fault]. rewrite H. reflexivity.
Qed.

(** ** Traces of the loader *)

Lemma fst_bind {E A B} (m : M E A) (k : A -> M E B) :
  fst (bind m k)
  = fst m ++ match snd m with inl _ => [] | inr a => fst (k a) end.
Proof.
  destruct m as [t [o|a]]; cbn; [rewrite app_nil_r; reflexivity|].
  destruct (k a); reflexivity.
Qed.

Lemma snd_bind {E A B} (m : M E A) (k : A -> M E B) :
  snd (bind m k) = match snd m with inl o => inl o | inr a => snd (k a) end.
Proof.
  destruct m as [t [o|a]]; cbn; [reflexivity|]. destruct (k a); reflexivity.
Qed.

Lemma submitted_app a b :
  LoadBooks.submitted (a ++ b) = LoadBooks.submitted a ++ LoadBooks.submitted b.
Proof. induction a as [|[] a IH]; cbn; rewrite ?IH; reflexivity. Qed.

Lemma decoded_books_app a b :
  LoadBooks.decoded_books (a ++ b) = LoadBooks.decoded_books a ++ LoadBooks.decoded_books b.
Proof. induction a as [|[] a IH]; cbn; rewrite ?IH; reflexivity. Qed.

Lemma reads_app a b :
  LoadBooks.reads (a ++ b) = (LoadBooks.reads a + LoadBooks.reads b)%nat.
Proof. induction a as [|[] a IH]; cbn; rewrite ?IH; reflexivity. Qed.

Lemma logged_app a b :
  LoadBooks.logged (a ++ b) = LoadBooks.logged a ++ LoadBooks.logged b.
Proof. induction a as [|[] a IH]; cbn; rewrite ?IH; reflexivity. Qed.

(** The callbacks only write to the log; they end the process exactly
    when one of them is [OnError]. *)
Lemma run_callbacks_spec cs :
  forallb LoadBooks.is_Log (fst (LoadBooks.run_callbacks cs)) = true /\
  (existsb LoadBooks.is_OnError cs = false -> snd (LoadBooks.run_callbacks cs) = inr tt) /\
  (forall o, snd (LoadBooks.run_callbacks cs) = inl o -> exists m, o = Fatal m).
Proof.
  induction cs as [|c cs (IH1 & IH2 & IH3)]; cbn [LoadBooks.run_callbacks].
  - repeat split; try reflexivity. discriminate.
  - rewrite fst_bind, snd_bind.
    destruct c as [e|ty re [e|]]; cbn [LoadBooks.run_callback fst snd halt emit existsb
      LoadBooks.is_OnError orb app forallb LoadBooks.is_Log andb].
    + repeat split; [discriminate|]. intros o [= <-]. eauto.
    + auto.
    + auto.
Qed.

Lemma logs_only t :
  forallb LoadBooks.is_Log t = true ->
  LoadBooks.submitted t = [] /\ LoadBooks.decoded_books t = [] /\ LoadBooks.reads t = 0%nat.
Proof.
  induction t as [|[] t IH]; cbn; try discriminate; auto.
Qed.

(** What one pass over a line does, by the result of the decoder. *)
Lemma process_Ok env l n b :
  json.Unmarshal LoadBooks.Book_fields LoadBooks.zero_Book l = json.Ok b ->
  LoadBooks.submitted (fst (LoadBooks.process env l n)) = [json.Marshal LoadBooks.Book_fields b] /\
  LoadBooks.decoded_books (fst (LoadBooks.process env l n)) = [b] /\
  LoadBooks.reads (fst (LoadBooks.process env l n)) = 0%nat /\
  (existsb LoadBooks.is_OnError (fst (LoadBooks.bulk_Add env n)) = false ->
   snd (LoadBooks.bulk_Add env n) = None ->
   snd (LoadBooks.process env l n) = inr tt) /\
  (forall o, snd (LoadBooks.process env l n) = inl o -> exists m, o = Fatal m).
Proof.
  intros U. unfold LoadBooks.process. rewrite U.
  destruct (LoadBooks.bulk_Add env n) as [cbs err]. cbv beta iota zeta. cbn [fst snd].
  destruct (run_callbacks_spec cbs) as (L & Q & F).
  destruct (logs_only _ L) as (S1 & D1 & R1).
  destruct (LoadBooks.run_callbacks cbs) as [logs [o|[]]]; cbn [fst snd] in *.
  - cbn [bind emit check halt ret fst snd app LoadBooks.submitted
         LoadBooks.decoded_books LoadBooks.reads].
    rewrite S1, D1, R1. repeat split; auto.
  - destruct err as [e|];
      cbn [bind emit check halt ret fst snd app LoadBooks.submitted
           LoadBooks.decoded_books LoadBooks.reads];
      rewrite ?app_nil_r, S1, D1, R1; repeat split; auto; try discriminate.
    intros o [= <-]. eauto.
Qed.

Lemma process_Err env l n e :
  json.Unmarshal LoadBooks.Book_fields LoadBooks.zero_Book l = json.Err e ->
  LoadBooks.process env l n
  = ([], inl (Fatal (Printf (golit "error unmarshalling json: %v") [AErr e]))).
Proof. intros U. unfold LoadBooks.process. rewrite U. reflexivity. Qed.

Lemma process_Panic env l n :
  json.Unmarshal LoadBooks.Book_fields LoadBooks.zero_Book l = json.Panic ->
  LoadBooks.process env l n = ([], inl GoPanic).
Proof. intros U. unfold LoadBooks.process. rewrite U. reflexivity. Qed.

Lemma handle_line_eq env l n :
  LoadBooks.handle_line env l n
  = (LoadBooks.ReadBytes :: fst (LoadBooks.process env l n), snd (LoadBooks.process env l n)).
Proof.
  unfold LoadBooks.handle_line. destruct (LoadBooks.process env l n) as [t [o|[]]]; reflexivity.
Qed.

Lemma handle_lines_cons env l ls n :
  LoadBooks.handle_lines env (l :: ls) n
  = match snd (LoadBooks.process env l n) with
    | inl o => (LoadBooks.ReadBytes :: fst (LoadBooks.process env l n), inl o)
    | inr _ =>
      (LoadBooks.ReadBytes :: fst (LoadBooks.process env l n)
         ++ fst (LoadBooks.handle_lines env ls (S n)),
       snd (LoadBooks.handle_lines env ls (S n)))
    end.
Proof.
  cbn [LoadBooks.handle_lines]. rewrite handle_line_eq.
  destruct (LoadBooks.process env l n) as [t [o|[]]]; cbn [fst snd bind]; [reflexivity|].
  destruct (LoadBooks.handle_lines env ls (S n)); reflexivity.
Qed.

(** Whatever the environment does, the passes over a list of lines submit
    exactly the records they decode, and these are the records of the
    first lines. *)
Lemma handle_lines_spec env lines : forall n,
  let t := fst (LoadBooks.handle_lines env lines n) in
  let r := snd (LoadBooks.handle_lines env lines n) in
  LoadBooks.submitted t = map (json.Marshal LoadBooks.Book_fields) (LoadBooks.decoded_books t) /\
  Forall2 LoadBooks.decodes (firstn (length (LoadBooks.decoded_books t)) lines) (LoadBooks.decoded_books t) /\
  (LoadBooks.reads t <= length lines)%nat /\
  (r = inr tt -> LoadBooks.reads t = length lines /\
                 length (LoadBooks.decoded_books t) = length lines) /\
  (forall o, r = inl o -> exists m, o = Fatal m).
Proof.
  induction lines as [|l ls IH]; intros n; cbv zeta.
  - cbn. repeat split; auto. discriminate.
  - rewrite handle_lines_cons.
    specialize (IH (S n)). cbv zeta in IH. destruct IH as (I1 & I2 & I3 & I4 & I5).
    destruct (json.Unmarshal LoadBooks.Book_fields LoadBooks.zero_Book l) as [b|e|] eqn:U.
    + destruct (process_Ok env l n b U) as (P1 & P2 & P3 & P4 & P5).
      destruct (snd (LoadBooks.process env l n)) as [o|[]] eqn:Sp; cbn [fst snd].
      * cbn [LoadBooks.submitted LoadBooks.decoded_books LoadBooks.reads].
        rewrite P1, P2, P3. cbn [map length firstn].
        repeat split; try discriminate; try lia.
        -- repeat constructor. exact U.
        -- intros o' [= <-]. apply (P5 o eq_refl).
      * cbn [LoadBooks.submitted LoadBooks.decoded_books LoadBooks.reads].
        rewrite submitted_app, decoded_books_app, reads_app, P1, P2, P3, I1.
        cbn [map app length firstn plus].
        repeat split; auto; try lia;
          try (match goal with H : _ = inr tt |- _ => destruct (I4 H) as [A B]; lia end);
          try (constructor; [exact U | exact I2]).
    + rewrite (process_Err env l n e U). cbn.
      repeat split; auto; try lia; try discriminate. intros o [= <-]. eauto.
    + exfalso. exact (Unmarshal_no_panic l U).
Qed.

(** When every line decodes and the bulk indexer stays quiet, every line
    is passed. *)
Lemma handle_lines_all env lines : forall books n,
  Forall2 LoadBooks.decodes lines books ->
  (forall i, (n <= i < n + length lines)%nat ->
     existsb LoadBooks.is_OnError (fst (LoadBooks.bulk_Add env i)) = false /\
     snd (LoadBooks.bulk_Add env i) = None) ->
  snd (LoadBooks.handle_lines env lines n) = inr tt /\
  LoadBooks.decoded_books (fst (LoadBooks.handle_lines env lines n)) = books.
Proof.
  induction lines as [|l ls IH]; intros books n H Q.
  - inversion H; subst. split; reflexivity.
  - inversion H as [|? b ? bs U Hs]; subst.
    rewrite handle_lines_cons.
    destruct (process_Ok env l n b U) as (P1 & P2 & P3 & P4 & P5).
    destruct (Q n) as [Q1 Q2]; [cbn [length]; lia|].
    rewrite (P4 Q1 Q2). cbn [fst snd LoadBooks.decoded_books].
    rewrite decoded_books_app, P2.
    destruct (IH bs (S n) Hs) as [I1 I2].
    { intros i Hi. apply Q. cbn [length]. lia. }
    rewrite I1, I2. split; reflexivity.
Qed.

Lemma split_after_app d s l r :
  bufio.split_after d s = Some (l, r) ->
  s = l ++ r /\ bufio.split_after d l = Some (l, []).
Proof.
  revert l r. induction s as [|c s IH]; intros l r; cbn [bufio.split_after].
  - discriminate.
  - destruct (b2z c =? b2z d) eqn:E.
    + intros [= <- <-]. cbn [bufio.split_after app]. rewrite E. auto.
    + destruct (bufio.split_after d s) as [[a b]|] eqn:E'; cbn; [|discriminate].
      intros [= <- <-]. destruct (IH a b eq_refl) as [-> Ha].
      cbn [bufio.split_after app]. rewrite E, Ha. auto.
Qed.

(** Every file is a list of lines followed by a last piece without a
    newline. *)
Lemma content_lines_fuel fuel : forall s, (length s <= fuel)%nat ->
  exists lines tail, s = concat lines ++ tail /\
    Forall LoadBooks.is_line lines /\ bufio.split_after x0a tail = None.
Proof.
  induction fuel as [|fuel IH]; intros s Hs.
  - destruct s; [|cbn in Hs; lia]. exists [], []. repeat split; auto.
  - destruct (bufio.split_after x0a s) as [[l r]|] eqn:E.
    + destruct (split_after_app _ _ _ _ E) as [-> Hl].
      destruct (split_after_length _ _ _ _ E) as [L1 L2].
      destruct (IH r) as (lines & tail & -> & Hls & Ht); [lia|].
      exists (l :: lines), tail. cbn [concat]. rewrite <- app_assoc.
      repeat split; auto.
    + exists [], s. repeat split; auto.
Qed.

Lemma content_lines s :
  exists lines tail, s = concat lines ++ tail /\
    Forall LoadBooks.is_line lines /\ bufio.split_after x0a tail = None.
Proof. apply (content_lines_fuel (length s)). lia. Qed.

(** The last call of [ReadBytes]: the end of the file, or the error of
    the reader. *)
Lemma run_loop_last env tail flt n :
  bufio.split_after x0a tail = None ->
  LoadBooks.run_loop env (bufio.mkReader tail flt) n
  = ([LoadBooks.ReadBytes],
     match flt with
     | None | Some io_EOF => inr tt
     | Some e => inl (Fatal (Printf (golit "error reading readBytes: %v") [AErr e]))
     end).
Proof.
  intros H. unfold LoadBooks.run_loop. cbn [LoadBooks.loop bufio.pending].
  unfold bufio.ReadBytes. cbn [bufio.pending bufio.fault]. rewrite H.
  destruct flt as [[]|]; reflexivity.
Qed.

Lemma startup_spec env :
  LoadBooks.submitted (fst (LoadBooks.startup env)) = [] /\
  LoadBooks.decoded_books (fst (LoadBooks.startup env)) = [] /\
  LoadBooks.reads (fst (LoadBooks.startup env)) = 0%nat /\
  LoadBooks.logged (fst (LoadBooks.startup env)) = [] /\
  (forall o, snd (LoadBooks.startup env) = inl o -> exists m, o = Fatal m) /\
  (forall r, snd (LoadBooks.startup env) = inr r -> LoadBooks.os_Open env = inr r) /\
  (forall r, LoadBooks.starts env r -> snd (LoadBooks.startup env) = inr r).
Proof.
  unfold LoadBooks.startup, LoadBooks.starts.
  destruct (LoadBooks.godotenv_Load env), (LoadBooks.NewClient env),
    (LoadBooks.Indices_Create env), (LoadBooks.NewBulkIndexer env),
    (LoadBooks.os_Open env) as [eo|r];
    cbn [bind emit check halt ret fst snd app LoadBooks.submitted
         LoadBooks.decoded_books LoadBooks.reads LoadBooks.logged];
    repeat split; try reflexivity; try discriminate.
  all: try (intros o [= <-]; eauto).
  all: try (intros r' [= <-]; reflexivity).
  all: try (intros r' (A & B & (c & b' & C) & D & F); try discriminate; congruence).
Qed.

Lemma closing_spec env :
  LoadBooks.submitted (fst (LoadBooks.closing env)) = [] /\
  LoadBooks.decoded_books (fst (LoadBooks.closing env)) = [] /\
  LoadBooks.reads (fst (LoadBooks.closing env)) = 0%nat /\
  (forall o, snd (LoadBooks.closing env) = inl o -> exists m, o = Fatal m) /\
  (existsb LoadBooks.is_OnError (fst (LoadBooks.bulk_Close env)) = false ->
   snd (LoadBooks.bulk_Close env) = None -> snd (LoadBooks.closing env) = inr tt).
Proof.
  unfold LoadBooks.closing.
  destruct (LoadBooks.bulk_Close env) as [cbs err]. cbv beta iota zeta. cbn [fst snd].
  destruct (run_callbacks_spec cbs) as (L & Q & F).
  destruct (logs_only _ L) as (S1 & D1 & R1).
  destruct (LoadBooks.run_callbacks cbs) as [logs [o|[]]]; cbn [fst snd] in *.
  - cbn [bind emit check halt ret fst snd app LoadBooks.submitted
         LoadBooks.decoded_books LoadBooks.reads].
    rewrite S1, D1, R1. repeat split; auto.
  - destruct err as [e|];
      cbn [bind emit check halt ret fst snd app LoadBooks.submitted
           LoadBooks.decoded_books LoadBooks.reads];
      rewrite ?submitted_app, ?decoded_books_app, ?reads_app, ?app_nil_r, S1, D1, R1;
      repeat split; auto; try discriminate.
    intros o [= <-]. eauto.
Qed.


(** ** The loader on a file given line by line *)

Lemma finish_eq {E} (m : M E unit) :
  finish m = (fst m, match snd m with inl o => o | inr _ => Exit0 end).
Proof. destruct m as [t [o|u]]; reflexivity. Qed.

Lemma main_on_lines env lines rest flt :
  Forall LoadBooks.is_line lines ->
  LoadBooks.os_Open env = inr (bufio.mkReader (concat lines ++ rest) flt) ->
  LoadBooks.main env
  = finish (bind (LoadBooks.startup env) (fun _ =>
            bind (LoadBooks.handle_lines env lines 0) (fun _ =>
            bind (LoadBooks.run_loop env (bufio.mkReader rest flt) (length lines))
                 (fun _ => LoadBooks.closing env)))).
Proof.
  intros Hl Ho. unfold LoadBooks.main.
  destruct (startup_spec env) as (_ & _ & _ & _ & _ & Hr & _).
  destruct (LoadBooks.startup env) as [t [o|r]]; [reflexivity|].
  specialize (Hr r eq_refl). rewrite Ho in Hr. injection Hr as <-.
  cbn [bind]. rewrite run_loop_lines by assumption. rewrite bind_assoc. reflexivity.
Qed.

(** The run on a file whose line after [pre] does not decode: the
    common part of the statements on malformed and on empty lines. *)
Lemma run_stops_at_bad_line env pre bad rest flt e :
  Forall LoadBooks.is_line pre -> LoadBooks.is_line bad ->
  json.Unmarshal LoadBooks.Book_fields LoadBooks.zero_Book bad = json.Err e ->
  LoadBooks.os_Open env = inr (bufio.mkReader (concat pre ++ bad ++ rest) flt) ->
  let t := fst (LoadBooks.main env) in
  let o := snd (LoadBooks.main env) in
  (exists m, o = Fatal m) /\
  (LoadBooks.reads t <= length pre + 1)%nat /\
  LoadBooks.submitted t
    = map (json.Marshal LoadBooks.Book_fields) (LoadBooks.decoded_books t) /\
  Forall2 LoadBooks.decodes
    (firstn (length (LoadBooks.decoded_books t)) pre) (LoadBooks.decoded_books t) /\
  (forall books,
     LoadBooks.starts env (bufio.mkReader (concat pre ++ bad ++ rest) flt) ->
     Forall2 LoadBooks.decodes pre books ->
     LoadBooks.quiet env (length pre) ->
     LoadBooks.decoded_books t = books /\
     LoadBooks.submitted t = map (json.Marshal LoadBooks.Book_fields) books /\
     LoadBooks.reads t = (length pre + 1)%nat /\
     o = Fatal (Printf (golit "error unmarshalling json: %v") [AErr e])).
Proof.
  intros Hpre Hbad Ue Ho. cbv zeta.
  rewrite (main_on_lines env pre (bad ++ rest) flt Hpre Ho).
  rewrite run_loop_line by assumption.
  unfold LoadBooks.handle_line. rewrite (process_Err env bad _ e Ue).
  destruct (startup_spec env) as (S1 & S2 & S3 & _ & S5 & _ & S7).
  destruct (handle_lines_spec env pre 0%nat) as (H1 & H2 & H3 & H4 & H5).
  pose proof (fun books => handle_lines_all env pre books 0%nat) as HA.
  destruct (LoadBooks.startup env) as [ts [os|rs]]; cbn [fst snd] in *.
  - destruct (S5 os eq_refl) as [m ->].
    cbn [bind finish fst snd]. rewrite S1, S2, S3. cbn [map length firstn].
    split; [eauto|]. split; [lia|]. split; [reflexivity|]. split; [constructor|].
    intros books St. specialize (S7 _ St). discriminate.
  - destruct (LoadBooks.handle_lines env pre 0) as [tl [ol|[]]]; cbn [fst snd] in *.
    + cbn [bind finish fst snd emit halt app].
      rewrite submitted_app, decoded_books_app, reads_app, S1, S2, S3. cbn [app plus].
      split; [auto|]. split; [lia|]. split; [assumption|]. split; [assumption|].
      intros books St Hb Hq.
      destruct (HA books Hb) as [HA1 HA2]; [intros i Hi; apply Hq; lia | discriminate].
    + destruct (H4 eq_refl) as [H4a H4b].
      cbn [bind finish fst snd emit halt app].
      rewrite !submitted_app, !decoded_books_app, !reads_app, S1, S2, S3.
      cbn [app plus LoadBooks.submitted LoadBooks.decoded_books LoadBooks.reads].
      rewrite !app_nil_r, Nat.add_1_r.
      split; [eauto|]. split; [lia|]. split; [assumption|]. split; [assumption|].
      intros books St Hb Hq.
      destruct (HA books Hb) as [HA1 HA2]; [intros i Hi; apply Hq; lia | ].
      subst books. repeat split; auto. lia.
Qed.


Lemma handle_lines_with_file env content lines : forall n,
  LoadBooks.handle_lines (LoadBooks.with_file env content) lines n
  = LoadBooks.handle_lines env lines n.
Proof.
  induction lines as [|l ls IH]; intros n; [reflexivity|].
  cbn [LoadBooks.handle_lines]. rewrite IH. reflexivity.
Qed.

Lemma startup_with_file env content (k : M LoadBooks.event unit) r :
  LoadBooks.os_Open env = inr r ->
  bind (LoadBooks.startup (LoadBooks.with_file env content)) (fun _ => k)
  = bind (LoadBooks.startup env) (fun _ => k).
Proof.
  intros Ho. unfold LoadBooks.startup, LoadBooks.with_file.
  cbn [LoadBooks.godotenv_Load LoadBooks.NewClient LoadBooks.Indices_Create
       LoadBooks.NewBulkIndexer LoadBooks.os_Open].
  rewrite Ho.
  destruct (LoadBooks.godotenv_Load env), (LoadBooks.NewClient env),
    (LoadBooks.Indices_Create env), (LoadBooks.NewBulkIndexer env);
    cbn [bind emit check halt ret app]; try reflexivity.
  all: destruct k; reflexivity.
Qed.

(** The run on a file of lines that all decode, with a last piece
    without a newline, when nothing else fails. *)
Lemma run_all_lines env lines tail books :
  Forall LoadBooks.is_line lines -> bufio.split_after x0a tail = None ->
  LoadBooks.starts env (bufio.mkReader (concat lines ++ tail) None) ->
  Forall2 LoadBooks.decodes lines books ->
  LoadBooks.quiet env (length lines) ->
  LoadBooks.decoded_books (fst (LoadBooks.main env)) = books /\
  LoadBooks.submitted (fst (LoadBooks.main env))
    = map (json.Marshal LoadBooks.Book_fields) books /\
  LoadBooks.reads (fst (LoadBooks.main env)) = S (length lines) /\
  (closes env -> snd (LoadBooks.main env) = Exit0).
Proof.
  intros Hl Ht St Hb Hq.
  assert (Ho : LoadBooks.os_Open env = inr (bufio.mkReader (concat lines ++ tail) None))
    by (destruct St as (_ & _ & _ & _ & Ho); exact Ho).
  rewrite (main_on_lines env lines tail None Hl Ho).
  rewrite run_loop_last by assumption.
  destruct (startup_spec env) as (S1 & S2 & S3 & _ & _ & _ & S7).
  specialize (S7 _ St).
  destruct (handle_lines_spec env lines 0%nat) as (H1 & _ & _ & H4 & _).
  destruct (handle_lines_all env lines books 0%nat Hb) as [HA1 HA2].
  { intros i Hi. apply Hq. lia. }
  destruct (closing_spec env) as (C1 & C2 & C3 & _ & C5).
  destruct (H4 HA1) as [H4a H4b].
  rewrite finish_eq. cbn [fst snd].
  rewrite !fst_bind, !snd_bind, S7, HA1. cbn [fst snd].
  rewrite !submitted_app, !decoded_books_app, !reads_app.
  cbn [LoadBooks.submitted LoadBooks.decoded_books LoadBooks.reads].
  rewrite S1, S2, S3, C1, C2, C3, H1, HA2, H4a, ?app_nil_r. cbn [app plus].
  repeat split; auto; try lia.
  intros [Q1 Q2]. rewrite (C5 Q1 Q2). reflexivity.
Qed.

(** Every run of the loader: the records submitted are the records
    decoded, these come from the first lines of the file, and the model
    covers the run. *)
Lemma main_on_file env lines tail flt :
  Forall LoadBooks.is_line lines -> bufio.split_after x0a tail = None ->
  LoadBooks.os_Open env = inr (bufio.mkReader (concat lines ++ tail) flt) ->
  let t := fst (LoadBooks.main env) in
  LoadBooks.submitted t
    = map (json.Marshal LoadBooks.Book_fields) (LoadBooks.decoded_books t) /\
  Forall2 LoadBooks.decodes
    (firstn (length (LoadBooks.decoded_books t)) lines) (LoadBooks.decoded_books t) /\
  snd (LoadBooks.main env) <> Stuck.
Proof.
  intros Hl Ht Ho. cbv zeta.
  rewrite (main_on_lines env lines tail flt Hl Ho).
  rewrite run_loop_last by assumption.
  destruct (startup_spec env) as (S1 & S2 & S3 & _ & S5 & _ & _).
  destruct (handle_lines_spec env lines 0%nat) as (H1 & H2 & _ & _ & H5).
  destruct (closing_spec env) as (C1 & C2 & C3 & C4 & _).
  rewrite finish_eq. cbn [fst snd]. rewrite !fst_bind, !snd_bind. cbn [fst snd].
  destruct (snd (LoadBooks.startup env)) as [os|rs] eqn:Es.
  { rewrite app_nil_r, S1, S2. destruct (S5 os eq_refl) as [m ->].
    repeat split; try constructor. discriminate. }
  destruct (snd (LoadBooks.handle_lines env lines 0)) as [ol|[]] eqn:Eh.
  { rewrite app_nil_r, submitted_app, decoded_books_app, S1, S2. cbn [app].
    repeat split; auto. destruct (H5 ol eq_refl) as [m ->]. discriminate. }
  assert (R : forall X, LoadBooks.submitted (fst (LoadBooks.startup env) ++
                 fst (LoadBooks.handle_lines env lines 0) ++ [LoadBooks.ReadBytes] ++ X)
               = LoadBooks.submitted (fst (LoadBooks.handle_lines env lines 0)) ++ LoadBooks.submitted X).
  { intros X. rewrite !submitted_app, S1. reflexivity. }
  assert (R' : forall X, LoadBooks.decoded_books (fst (LoadBooks.startup env) ++
                 fst (LoadBooks.handle_lines env lines 0) ++ [LoadBooks.ReadBytes] ++ X)
               = LoadBooks.decoded_books (fst (LoadBooks.handle_lines env lines 0))
                 ++ LoadBooks.decoded_books X).
  { intros X. rewrite !decoded_books_app, S2. reflexivity. }
  destruct flt as [[]|]; rewrite R, R'; cbn [LoadBooks.submitted LoadBooks.decoded_books];
    rewrite ?C1, ?C2, ?app_nil_r; repeat split; auto; try discriminate.
  all: destruct (snd (LoadBooks.closing env)) as [oc|[]] eqn:Ec; try discriminate;
    destruct (C4 oc eq_refl) as [m ->]; discriminate.
Qed.

Lemma decodes_valid ls bs :
  Forall2 LoadBooks.decodes ls bs -> Forall LoadBooks.valid_Book bs.
Proof. induction 1; constructor; auto. eapply Unmarshal_valid; eauto. Qed.

Lemma main_general env :
  let t := fst (LoadBooks.main env) in
  LoadBooks.submitted t
    = map (json.Marshal LoadBooks.Book_fields) (LoadBooks.decoded_books t) /\
  Forall LoadBooks.valid_Book (LoadBooks.decoded_books t) /\
  snd (LoadBooks.main env) <> Stuck.
Proof.
  cbv zeta. destruct (LoadBooks.os_Open env) as [e|[s flt]] eqn:Ho.
  - unfold LoadBooks.main.
    destruct (startup_spec env) as (S1 & S2 & _ & _ & S5 & S6 & _).
    rewrite finish_eq. cbn [fst snd]. rewrite !fst_bind, !snd_bind.
    destruct (snd (LoadBooks.startup env)) as [os|rs] eqn:Es.
    + rewrite app_nil_r, S1, S2. destruct (S5 os eq_refl) as [m ->].
      repeat split; try constructor. discriminate.
    + specialize (S6 rs eq_refl). congruence.
  - destruct (content_lines s) as (lines & tail & -> & Hl & Ht).
    destruct (main_on_file env lines tail flt Hl Ht Ho) as (A & B & C).
    repeat split; auto. eapply decodes_valid; eauto.
Qed.


(** ** The specification of the loader *)

(** Input that is not one JSON value is refused before anything is
    decoded. *)
Lemma invalid_is_syntax_error {T} (fields : list (json.field T)) zero data :
  json.Valid data = false ->
  json.Unmarshal fields zero data = json.Err json_SyntaxError.
Proof.
  unfold json.Valid, json.Unmarshal.
  destruct (json.scan data); [discriminate | reflexivity].
Qed.






(** C10: if a line of the file is empty (a bare newline, after the lines
    [pre]), the decoder refuses it ([json.Valid] is false on it and
    [json.Unmarshal] returns a syntax error), the loader ends fatally,
    reads no line after it, and submits only records decoded from lines of
    [pre]: nothing after the empty line is submitted.  When the program
    gets as far as the loop, every line of [pre] decodes and the indexer
    reports no error on them, exactly the records of [pre] are submitted,
    [ReadBytes] was called once per line up to the empty one, and the run
    ends with the fatal message of the decode error. *)
Theorem empty_line_aborts env pre rest flt :
  Forall LoadBooks.is_line pre ->
  LoadBooks.os_Open env = inr (bufio.mkReader (concat pre ++ [x0a] ++ rest) flt) ->
  let t := fst (LoadBooks.main env) in
  let o := snd (LoadBooks.main env) in
  json.Valid [x0a] = false /\
  json.Unmarshal LoadBooks.Book_fields LoadBooks.zero_Book [x0a] = json.Err json_SyntaxError /\
  (exists m, o = Fatal m) /\
  (LoadBooks.reads t <= length pre + 1)%nat /\
  LoadBooks.submitted t
    = map (json.Marshal LoadBooks.Book_fields) (LoadBooks.decoded_books t) /\
  Forall2 LoadBooks.decodes
    (firstn (length (LoadBooks.decoded_books t)) pre) (LoadBooks.decoded_books t) /\
  (forall books,
     LoadBooks.starts env (bufio.mkReader (concat pre ++ [x0a] ++ rest) flt) ->
     Forall2 LoadBooks.decodes pre books ->
     LoadBooks.quiet env (length pre) ->
     LoadBooks.decoded_books t = books /\
     LoadBooks.submitted t = map (json.Marshal LoadBooks.Book_fields) books /\
     LoadBooks.reads t = (length pre + 1)%nat /\
     o = Fatal (Printf (golit "error unmarshalling json: %v") [AErr json_SyntaxError])).
Proof.
  intros Hpre Ho. cbv zeta.
  assert (U : json.Unmarshal LoadBooks.Book_fields LoadBooks.zero_Book [x0a]
              = json.Err json_SyntaxError) by (vm_compute; reflexivity).
  split; [vm_compute; reflexivity|]. split; [exact U|].
  apply (run_stops_at_bad_line env pre [x0a] rest flt json_SyntaxError); auto.
  vm_compute. reflexivity.
Qed.

Lemma empty_line_aborts_witness :
  (exists m, snd (LoadBooks.main (calm_env (line_A ++ [x0a] ++ lines_CD))) = Fatal m) /\
  (LoadBooks.reads (fst (LoadBooks.main (calm_env (line_A ++ [x0a] ++ lines_CD)))) <= 2)%nat.
Proof.
  pose proof (empty_line_aborts (calm_env (line_A ++ [x0a] ++ lines_CD))
                [line_A] lines_CD None) as H.
  cbv zeta in H.
  destruct H as (_ & _ & H1 & H2 & _).
  - constructor; [vm_compute; reflexivity | constructor].
  - vm_compute. reflexivity.
  - split; [exact H1 | exact H2].
Defined.

(** C9: when the file ends with a piece [tail] that has no newline (its
    unterminated last line), after the lines [lines], the run is the run
    on the file without that piece: the same events and the same end.  So the last piece is neither
    decoded nor submitted (at most one record per line is) and no message
    is written for it; when everything else succeeds the run ends with
    status 0, having submitted exactly the records of [lines]. *)
Theorem unterminated_last_line_ignored env lines tail :
  Forall LoadBooks.is_line lines ->
  bufio.split_after x0a tail = None ->
  LoadBooks.os_Open env = inr (bufio.mkReader (concat lines ++ tail) None) ->
  LoadBooks.main env = LoadBooks.main (LoadBooks.with_file env (concat lines)) /\
  (length (LoadBooks.decoded_books (fst (LoadBooks.main env))) <= length lines)%nat /\
  (length (LoadBooks.submitted (fst (LoadBooks.main env))) <= length lines)%nat /\
  (forall books,
     LoadBooks.starts env (bufio.mkReader (concat lines ++ tail) None) ->
     Forall2 LoadBooks.decodes lines books ->
     LoadBooks.quiet env (length lines) -> closes env ->
     LoadBooks.decoded_books (fst (LoadBooks.main env)) = books /\
     LoadBooks.submitted (fst (LoadBooks.main env))
       = map (json.Marshal LoadBooks.Book_fields) books /\
     snd (LoadBooks.main env) = Exit0).
Proof.
  intros Hl Ht Ho.
  destruct (main_on_file env lines tail None Hl Ht Ho) as (A & B & _).
  assert (L : (length (LoadBooks.decoded_books (fst (LoadBooks.main env))) <= length lines)%nat).
  { apply Forall2_length in B. rewrite length_firstn in B. lia. }
  split; [|split; [exact L|split]].
  - rewrite (main_on_lines env lines tail None Hl Ho).
    rewrite (main_on_lines (LoadBooks.with_file env (concat lines)) lines [] None Hl)
      by (cbn [LoadBooks.with_file LoadBooks.os_Open]; rewrite app_nil_r; reflexivity).
    rewrite !run_loop_last by (assumption || reflexivity).
    rewrite handle_lines_with_file.
    rewrite (startup_with_file env (concat lines) _ _ Ho). reflexivity.
  - rewrite A, length_map. exact L.
  - intros books St Hb Hq Hc.
    destruct (run_all_lines env lines tail books Hl Ht St Hb Hq) as (R1 & R2 & _ & R4).
    auto.
Qed.

Lemma unterminated_last_line_ignored_witness :
  LoadBooks.decoded_books (fst (LoadBooks.main (calm_env (line_A ++ tail_E)))) = [book_A] /\
  snd (LoadBooks.main (calm_env (line_A ++ tail_E))) = Exit0.
Proof.
  pose proof (unterminated_last_line_ignored (calm_env (line_A ++ tail_E)) [line_A] tail_E) as H.
  destruct H as (_ & _ & _ & H).
  - constructor; [vm_compute; reflexivity | constructor].
  - vm_compute. reflexivity.
  - vm_compute. reflexivity.
  - destruct (H [book_A]) as (H1 & _ & H3).
    + unfold LoadBooks.starts.
      split; [vm_compute; reflexivity|]. split; [vm_compute; reflexivity|].
      split; [exists 200, []; vm_compute; reflexivity|].
      split; vm_compute; reflexivity.
    + constructor; [vm_compute; reflexivity | constructor].
    + intros n Hn. split; vm_compute; reflexivity.
    + split; vm_compute; reflexivity.
    + split; [exact H1 | exact H3].
Defined.


(** C4: in every run of the loader the bodies handed to the bulk indexer
    are, in order, the encodings of the records decoded, one item per
    record, so that as many items are submitted as records were decoded.
    Each body is a JSON object with exactly the keys title, url and
    description, whose strings unquote to the fields of the record: a key
    of the input line that is no field of [Book] is not in it.  When all
    the lines of the file decode (and neither the start of the program nor
    the indexer reports an error), the records decoded are those of all
    the lines, and as many items are submitted as the file has lines. *)
Theorem decoded_records_submitted_once env :
  let t := fst (LoadBooks.main env) in
  LoadBooks.submitted t
    = map (json.Marshal LoadBooks.Book_fields) (LoadBooks.decoded_books t) /\
  length (LoadBooks.submitted t) = length (LoadBooks.decoded_books t) /\
  (forall b, In b (LoadBooks.decoded_books t) ->
     json.scan (json.Marshal LoadBooks.Book_fields b)
     = Some (json.Object
         [ (lit "title", json.String (json.encode_string_body (LoadBooks.Title b)));
           (lit "url", json.String (json.encode_string_body (LoadBooks.Url b)));
           (lit "description",
            json.String (json.encode_string_body (LoadBooks.Description b))) ]) /\
     json.unquoteBytes (json.encode_string_body (LoadBooks.Title b))
       = Some (LoadBooks.Title b) /\
     json.unquoteBytes (json.encode_string_body (LoadBooks.Url b))
       = Some (LoadBooks.Url b) /\
     json.unquoteBytes (json.encode_string_body (LoadBooks.Description b))
       = Some (LoadBooks.Description b)) /\
  (forall lines tail books,
     Forall LoadBooks.is_line lines -> bufio.split_after x0a tail = None ->
     LoadBooks.starts env (bufio.mkReader (concat lines ++ tail) None) ->
     Forall2 LoadBooks.decodes lines books ->
     LoadBooks.quiet env (length lines) ->
     LoadBooks.decoded_books t = books /\
     LoadBooks.submitted t = map (json.Marshal LoadBooks.Book_fields) books /\
     length (LoadBooks.submitted t) = length lines).
Proof.
  cbv zeta. destruct (main_general env) as (A & V & _).
  split; [exact A|]. split; [rewrite A; apply length_map|]. split.
  - intros b Hb. rewrite Forall_forall in V. destruct (V b Hb) as (VT & VU & VD).
    rewrite Marshal_load_book, scan_book by assumption.
    rewrite !unquoteBytes_body by assumption. repeat split; reflexivity.
  - intros lines tail books Hl Ht St Hb Hq.
    destruct (run_all_lines env lines tail books Hl Ht St Hb Hq) as (R1 & R2 & _ & _).
    split; [exact R1|]. split; [exact R2|].
    rewrite R2, length_map. symmetry. eapply Forall2_length; eauto.
Qed.

Lemma decoded_records_submitted_once_witness :
  LoadBooks.decoded_books (fst (LoadBooks.main (calm_env (line_A ++ lines_CD ++ tail_E))))
  = [book_A; LoadBooks.mkBook [x43] [] []; LoadBooks.mkBook [x44] [] []] /\
  length (LoadBooks.submitted (fst (LoadBooks.main (calm_env (line_A ++ lines_CD ++ tail_E)))))
  = 3%nat.
Proof.
  pose proof (decoded_records_submitted_once (calm_env (line_A ++ lines_CD ++ tail_E))) as H.
  cbv zeta in H. destruct H as (_ & _ & _ & H).
  destruct (H [line_A; firstn 14 lines_CD; skipn 14 lines_CD] tail_E
              [book_A; LoadBooks.mkBook [x43] [] []; LoadBooks.mkBook [x44] [] []])
    as (H1 & _ & H3).
  - repeat (constructor; [vm_compute; reflexivity|]). constructor.
  - vm_compute. reflexivity.
  - unfold LoadBooks.starts.
    split; [vm_compute; reflexivity|]. split; [vm_compute; reflexivity|].
    split; [exists 200, []; vm_compute; reflexivity|].
    split; vm_compute; reflexivity.
  - repeat (constructor; [vm_compute; reflexivity|]). constructor.
  - intros n Hn. split; vm_compute; reflexivity.
  - split; [exact H1 | exact H3].
Defined.

(** ** Failures of single items *)


Lemma without_logs_app a b : without_logs (a ++ b) = without_logs a ++ without_logs b.
Proof. apply filter_app. Qed.

Lemma same_bind {A B} (m m' : M LoadBooks.event A) (k k' : A -> M LoadBooks.event B) :
  same_but_logs m m' -> (forall a, same_but_logs (k a) (k' a)) ->
  same_but_logs (bind m k) (bind m' k').
Proof.
  unfold same_but_logs. intros [H1 H2] Hk.
  rewrite !fst_bind, !snd_bind, without_logs_app, H1, <- H2.
  destruct (snd m) as [o|a]; [split; reflexivity|].
  destruct (Hk a) as [K1 K2]. rewrite K1, K2. split; reflexivity.
Qed.

Lemma same_refl {A} (m : M LoadBooks.event A) :
  without_logs (fst m) = fst m -> same_but_logs m m.
Proof. intros H. split; [exact H | reflexivity]. Qed.


Lemma same_check {A} err m (k k' : M LoadBooks.event A) :
  same_but_logs k k' ->
  same_but_logs (bind (check err m) (fun _ => k)) (bind (check err m) (fun _ => k')).
Proof.
  intros H. apply same_bind; [|intros _; exact H].
  destruct err; apply same_refl; reflexivity.
Qed.







(** ** The index that exists already *)


(** C1: the specification asks that the loader exits non-zero, before
    any bulk write, when the index exists already.  On this run it does
    not: the server answers the creation request with the status 400, an
    error status for [IsError]; the call returns this response and no
    error, [main] looks at the error only and goes on, the record of the
    file is submitted and the process ends with status 0. *)
Theorem existing_index_is_loaded_into :
  IsError 400 = true /\
  LoadBooks.submitted (fst (LoadBooks.main existing_index_env))
    = [json.Marshal LoadBooks.Book_fields book_A] /\
  snd (LoadBooks.main existing_index_env) = Exit0.
Proof. vm_compute. repeat split; reflexivity. Qed.

(** An error returned by the call itself does end the run, before
    anything is read or submitted. *)
Lemma create_error_is_fatal env e :
  LoadBooks.Indices_Create env = TransportError e ->
  exits_nonzero (snd (LoadBooks.main env)) /\
  LoadBooks.submitted (fst (LoadBooks.main env)) = [] /\
  LoadBooks.reads (fst (LoadBooks.main env)) = 0%nat.
Proof.
  intros H. unfold LoadBooks.main, LoadBooks.startup. rewrite H.
  destruct (LoadBooks.godotenv_Load env), (LoadBooks.NewClient env);
    cbn [bind emit check halt ret finish fst snd app LoadBooks.submitted LoadBooks.reads
         exits_nonzero];
    repeat split; reflexivity.
Qed.


(** ** fmt *)


Lemma Sprintf_plain a : forall f args,
  no_percent a = true ->
  fmt.Sprintf (a ++ f) args = option_map (app a) (fmt.Sprintf f args).
Proof.
  induction a as [|c a IH]; intros f args H.
  - cbn [app]. destruct (fmt.Sprintf f args); reflexivity.
  - cbn [no_percent forallb] in H. apply andb_true_iff in H. destruct H as [Hc Ha].
    apply negb_true_iff in Hc.
    cbn [app fmt.Sprintf]. rewrite Hc. rewrite (IH f args Ha).
    destruct (fmt.Sprintf f args); reflexivity.
Qed.

Lemma Sprintf_s f s args :
  fmt.Sprintf (x25 :: x73 :: f) (fmt.Str s :: args)
  = option_map (app s) (fmt.Sprintf f args).
Proof. reflexivity. Qed.

Lemma Sprintf_f f x args :
  fmt.Sprintf (x25 :: x66 :: f) (fmt.F64 x :: args)
  = option_map (app (fmt.fmt_f x)) (fmt.Sprintf f args).
Proof. reflexivity. Qed.

Lemma Sprintf_end a : no_percent a = true -> fmt.Sprintf a [] = Some a.
Proof.
  intros H. rewrite <- (app_nil_r a) at 1. rewrite Sprintf_plain by exact H.
  cbn. rewrite app_nil_r. reflexivity.
Qed.

Lemma query_template_eq :
  SearchBooks.query_template = query_prefix ++ x25 :: x73 :: query_suffix.
Proof. vm_compute. reflexivity. Qed.

Lemma Sprintf_query text :
  fmt.Sprintf SearchBooks.query_template [fmt.Str text] = Some (query_body text).
Proof.
  rewrite query_template_eq.
  rewrite Sprintf_plain by (vm_compute; reflexivity).
  rewrite Sprintf_s. rewrite Sprintf_end by (vm_compute; reflexivity).
  reflexivity.
Qed.

Lemma searching_format_eq :
  golit "Searching books for: %s\n" = lit "Searching books for: " ++ x25 :: x73 :: [x0a].
Proof. vm_compute. reflexivity. Qed.

Lemma Sprintf_searching text :
  fmt.Sprintf (golit "Searching books for: %s\n") [fmt.Str text]
  = Some (lit "Searching books for: " ++ text ++ [x0a]).
Proof.
  rewrite searching_format_eq.
  rewrite Sprintf_plain by (vm_compute; reflexivity).
  rewrite Sprintf_s. rewrite Sprintf_end by (vm_compute; reflexivity).
  reflexivity.
Qed.

Lemma hit_format_eq :
  golit "%s, %s with score of %f\n"
  = x25 :: x73 :: lit ", " ++ x25 :: x73 :: lit " with score of " ++ x25 :: x66 :: [x0a].
Proof. vm_compute. reflexivity. Qed.

Lemma Sprintf_hit h :
  fmt.Sprintf (golit "%s, %s with score of %f\n")
    [fmt.Str (SearchBooks.Title (SearchBooks.Book_ h));
     fmt.Str (SearchBooks.Url (SearchBooks.Book_ h));
     fmt.F64 (SearchBooks.Score h)]
  = Some (hit_line h).
Proof.
  rewrite hit_format_eq.
  rewrite Sprintf_s.
  rewrite Sprintf_plain by (vm_compute; reflexivity).
  rewrite Sprintf_s.
  rewrite Sprintf_plain by (vm_compute; reflexivity).
  rewrite Sprintf_f. rewrite Sprintf_end by (vm_compute; reflexivity).
  reflexivity.
Qed.




Lemma digit_spec d : 0 <= d <= 9 ->
  json.isDigit (fmt.digit d) = true /\ b2z (fmt.digit d) - 0x30 = d.
Proof.
  intros H. unfold json.isDigit, fmt.digit. rewrite b2z_z2b.
  rewrite Z.mod_small by lia. split; [|lia].
  apply andb_true_iff. split; apply Z.leb_le; lia.
Qed.

Lemma decimal_snoc a c : decimal (a ++ [c]) = 10 * decimal a + (b2z c - 0x30).
Proof. unfold decimal. rewrite fold_left_app. reflexivity. Qed.

Lemma digits_spec fuel : forall n acc,
  0 <= n < 2 ^ Z.of_nat (S fuel) ->
  exists d, fmt.digits (S fuel) n acc = d ++ acc /\
            d <> [] /\ all_digits d /\ decimal d = n.
Proof.
  induction fuel as [|fuel IH]; intros n acc Hn.
  - change (2 ^ Z.of_nat 1) with 2 in Hn.
    cbn [fmt.digits]. replace (n <? 10) with true by (symmetry; apply Z.ltb_lt; lia).
    rewrite Z.mod_small by lia.
    destruct (digit_spec n) as [D1 D2]; [lia|].
    exists [fmt.digit n]. split; [reflexivity|]. split; [discriminate|].
    split; [constructor; [exact D1|constructor]|].
    unfold decimal. cbn [fold_left]. lia.
  - remember (S fuel) as k eqn:Ek.
    cbn [fmt.digits]. destruct (Z.ltb_spec n 10) as [Hlt|Hge].
    + rewrite Z.mod_small by lia.
      destruct (digit_spec n) as [D1 D2]; [lia|].
      exists [fmt.digit n]. split; [reflexivity|]. split; [discriminate|].
      split; [constructor; [exact D1|constructor]|].
      unfold decimal. cbn [fold_left]. lia.
    + subst k.
      assert (Hdiv : 0 <= n / 10 < 2 ^ Z.of_nat (S fuel)).
      { rewrite (Nat2Z.inj_succ (S fuel)), Z.pow_succ_r in Hn by lia.
        split; [apply Z.div_pos; lia|].
        apply Z.div_lt_upper_bound; lia. }
      destruct (IH (n / 10) (fmt.digit (n mod 10) :: acc) Hdiv) as (d & E & Hne & Hd & Hv).
      destruct (digit_spec (n mod 10)) as [D1 D2];
        [pose proof (Z.mod_pos_bound n 10); lia|].
      exists (d ++ [fmt.digit (n mod 10)]).
      split; [rewrite E, <- app_assoc; reflexivity|].
      split; [destruct d; discriminate|].
      split; [apply Forall_app; split; [exact Hd|constructor; [exact D1|constructor]]|].
      rewrite decimal_snoc, Hv, D2.
      pose proof (Z.div_mod n 10). lia.
Qed.

Lemma itoa_spec n : 0 <= n ->
  fmt.itoa n <> [] /\ all_digits (fmt.itoa n) /\ decimal (fmt.itoa n) = n.
Proof.
  intros Hn. unfold fmt.itoa.
  assert (Hb : 0 <= n < 2 ^ Z.of_nat (S (Z.to_nat (Z.log2 n)))).
  { rewrite Nat2Z.inj_succ, Z2Nat.id by apply Z.log2_nonneg.
    destruct (Z.eq_dec n 0) as [->|Hz].
    - cbn. lia.
    - pose proof (Z.log2_spec n). lia. }
  destruct (digits_spec _ n [] Hb) as (d & E & Hne & Hd & Hv).
  rewrite E, app_nil_r. auto.
Qed.

Lemma pad6_spec n : 0 <= n < 1000000 ->
  length (fmt.pad6 n) = 6%nat /\ all_digits (fmt.pad6 n) /\ decimal (fmt.pad6 n) = n.
Proof.
  intros Hn. unfold fmt.pad6. cbn [map].
  change (10 ^ 5) with 100000. change (10 ^ 4) with 10000.
  change (10 ^ 3) with 1000. change (10 ^ 2) with 100.
  change (10 ^ 1) with 10. change (10 ^ 0) with 1.
  assert (D : forall x, 0 <= x -> 0 <= x mod 10 <= 9)
    by (intros x _; pose proof (Z.mod_pos_bound x 10); lia).
  destruct (digit_spec ((n / 100000) mod 10)) as [A5 B5]; [apply D; apply Z.div_pos; lia|].
  destruct (digit_spec ((n / 10000) mod 10)) as [A4 B4]; [apply D; apply Z.div_pos; lia|].
  destruct (digit_spec ((n / 1000) mod 10)) as [A3 B3]; [apply D; apply Z.div_pos; lia|].
  destruct (digit_spec ((n / 100) mod 10)) as [A2 B2]; [apply D; apply Z.div_pos; lia|].
  destruct (digit_spec ((n / 10) mod 10)) as [A1 B1]; [apply D; apply Z.div_pos; lia|].
  destruct (digit_spec ((n / 1) mod 10)) as [A0 B0]; [apply D; apply Z.div_pos; lia|].
  split; [reflexivity|]. split.
  - repeat (constructor; [assumption|]). constructor.
  - unfold decimal. cbn [fold_left].
    revert B5 B4 B3 B2 B1 B0.
    generalize (b2z (fmt.digit ((n / 100000) mod 10))), (b2z (fmt.digit ((n / 10000) mod 10))),
      (b2z (fmt.digit ((n / 1000) mod 10))), (b2z (fmt.digit ((n / 100) mod 10))),
      (b2z (fmt.digit ((n / 10) mod 10))), (b2z (fmt.digit ((n / 1) mod 10))).
    intros. Z.div_mod_to_equations. lia.
Qed.

Lemma round_half_even_nearest num den : 0 < den ->
  nearest_even (fmt.round_half_even num den) num den.
Proof.
  intros Hd. unfold fmt.round_half_even, nearest_even.
  pose proof (Z.div_mod num den ltac:(lia)) as E.
  pose proof (Z.mod_pos_bound num den Hd) as B.
  set (q := num / den) in *. set (r := num mod den) in *. clearbody q r.
  assert (Eq1 : (q + 1) * den - num = den - r) by lia.
  assert (Eq0 : q * den - num = - r) by lia.
  destruct (Z.ltb_spec den (2 * r)) as [H1|H1]; cbn [orb].
  - rewrite Eq1. split; [lia|]. intros; lia.
  - destruct (Z.eqb_spec (2 * r) den) as [H2|H2]; cbn [andb].
    + destruct (Z.odd q) eqn:O.
      * rewrite Eq1. split; [lia|]. intros _.
        rewrite Z.even_add, <- Z.negb_odd, O. reflexivity.
      * rewrite Eq0. split; [lia|]. intros _. rewrite <- Z.negb_odd, O. reflexivity.
    + rewrite Eq0. split; [lia|]. intros; lia.
Qed.

Lemma round_half_even_nonneg num den : 0 <= num -> 0 < den ->
  0 <= fmt.round_half_even num den.
Proof.
  intros Hn Hd. unfold fmt.round_half_even.
  pose proof (Z.div_pos num den Hn Hd).
  destruct (_ || _); lia.
Qed.

Lemma millionths_nonneg m e : 0 <= fmt.millionths m e.
Proof.
  unfold fmt.millionths. destruct (Z.leb_spec 0 e).
  - pose proof (Z.pow_nonneg 2 e). nia.
  - apply round_half_even_nonneg; [lia|apply Z.pow_pos_nonneg; lia].
Qed.

(** [%f] writes a number in fixed-point notation, rounded to the nearest
    millionth. *)
Lemma fmt_f_fixed_point f : is_number f ->
  exists neg q, rounds_to f neg q /\ is_fixed_point neg q (fmt.fmt_f f).
Proof.
  destruct f as [s| | |s m e]; cbn [is_number]; intros H; try contradiction.
  - exists s, 0. split; [split; reflexivity|].
    exists [x30], [x30; x30; x30; x30; x30; x30].
    split; [reflexivity|]. split; [discriminate|].
    split; [repeat constructor|]. split; [reflexivity|].
    split; [repeat constructor|reflexivity].
  - exists s, (fmt.millionths m e). split.
    + cbn [rounds_to]. split; [reflexivity|].
      unfold fmt.millionths. destruct (0 <=? e) eqn:E; [reflexivity|].
      apply round_half_even_nearest. apply Z.pow_pos_nonneg; lia.
    + pose proof (millionths_nonneg m e) as Hq.
      destruct (itoa_spec (fmt.millionths m e / 1000000)) as (I1 & I2 & I3);
        [apply Z.div_pos; lia|].
      destruct (pad6_spec (fmt.millionths m e mod 1000000)) as (P1 & P2 & P3);
        [apply Z.mod_pos_bound; lia|].
      exists (fmt.itoa (fmt.millionths m e / 1000000)),
             (fmt.pad6 (fmt.millionths m e mod 1000000)).
      split; [reflexivity|]. split; [exact I1|]. split; [exact I2|].
      split; [exact P1|]. split; [exact P2|].
      rewrite I3, P3. pose proof (Z.div_mod (fmt.millionths m e) 1000000). lia.
Qed.



(** ** Runs of the searcher *)

Lemma bind_ret_l {E A B} (a : A) (k : A -> M E B) : bind (ret a) k = k a.
Proof. unfold bind, ret. destruct (k a). reflexivity. Qed.

Lemma bind_emit {E B} (e : E) (k : unit -> M E B) :
  bind (emit e) k = (e :: fst (k tt), snd (k tt)).
Proof. unfold bind, emit. destruct (k tt). reflexivity. Qed.

Ltac run_steps :=
  repeat first
    [ rewrite bind_ret_l | rewrite bind_emit | rewrite bind_halt
    | progress cbv beta | progress cbn [check halt fst snd] ].

Lemma print_hits_spec hits :
  SearchBooks.print_hits hits = (hit_events hits, inr tt).
Proof.
  induction hits as [|h hits IH].
  - reflexivity.
  - cbn [SearchBooks.print_hits]. unfold SearchBooks.printf at 1.
    rewrite Sprintf_hit, IH. reflexivity.
Qed.

Lemma search_and_print_spec env query :
  SearchBooks.search_and_print env query =
  bind (emit (SearchBooks.Search (golit "books") query)) (fun _ =>
  match SearchBooks.client_Search env (golit "books") query with
  | TransportError e => halt (Fatal (Print [AErr e]))
  | Response code body =>
    if IsError code
    then halt (Fatal (Printf (golit "Error querying, status: %s, response body: %s")
                             [AStatus code; AResponse code body]))
    else
      match json.Decode (SearchBooks.BookSearchResponse_fields (SearchBooks.ParseFloat env))
              SearchBooks.zero_Response body with
      | json.Err e => halt (Fatal (Print [AErr e]))
      | json.Panic => halt GoPanic
      | json.Ok r =>
        (hit_events (SearchBooks.Hits (SearchBooks.Hits_ r)) ++ [SearchBooks.BodyClose],
         inr tt)
      end
  end).
Proof.
  unfold SearchBooks.search_and_print. f_equal.
  destruct (SearchBooks.client_Search env (golit "books") query) as [e|code body].
  - reflexivity.
  - cbn [bind ret app]. destruct (IsError code); [reflexivity|].
    cbn [bind ret app].
    destruct (json.Decode _ _ body) as [r|e|]; try reflexivity.
    rewrite print_hits_spec. reflexivity.
Qed.

Lemma printed_app a b : printed (a ++ b) = printed a ++ printed b.
Proof.
  induction a as [|[text|i q|] a IH]; cbn [app printed]; rewrite ?IH; reflexivity.
Qed.

Lemma printed_hit_events hits : printed (hit_events hits) = map hit_line hits.
Proof.
  induction hits as [|h hits IH]; [reflexivity|].
  cbn [hit_events map printed]. f_equal. exact IH.
Qed.

Lemma requests_app a b :
  SearchBooks.requests (a ++ b) = SearchBooks.requests a ++ SearchBooks.requests b.
Proof.
  induction a as [|[text|i q|] a IH]; cbn [app SearchBooks.requests]; rewrite ?IH; reflexivity.
Qed.

Lemma requests_hit_events hits : SearchBooks.requests (hit_events hits) = [].
Proof. induction hits as [|h hits IH]; [reflexivity|exact IH]. Qed.

(** The first copy, up to the request. *)
Lemma main_spec env q : q <> [] ->
  SearchBooks.main env q =
  finish (
    bind (emit (SearchBooks.Stdout (lit "Searching books for: " ++ q ++ [x0a]))) (fun _ =>
    bind (check (SearchBooks.godotenv_Load env)
            (fun _ => Print [AStr (golit "Error loading .env file")])) (fun _ =>
    bind (check (SearchBooks.NewClient env) (fun e => Print [AErr e])) (fun _ =>
    SearchBooks.search_and_print env (query_body q))))).
Proof.
  intros Hq. destruct q as [|c q]; [contradiction|].
  unfold SearchBooks.main. cbn [length Nat.eqb].
  unfold SearchBooks.printf, SearchBooks.sprintf.
  rewrite Sprintf_searching, Sprintf_query.
  destruct (SearchBooks.godotenv_Load env), (SearchBooks.NewClient env);
    run_steps; reflexivity.
Qed.

Lemma main_empty env :
  SearchBooks.main env []
  = ([], Fatal (Printf (golit "No query provided for -query parameter") [])).
Proof. reflexivity. Qed.

(** The second copy, up to the request. *)
Lemma alt_main_spec env q :
  SearchBooksAlt.main env q =
  finish (
    bind (emit (SearchBooks.Stdout (golit "Hello from search-books\n"))) (fun _ =>
    bind (check (SearchBooks.godotenv_Load env)
            (fun _ => Print [AStr (golit "Error loading .env file")])) (fun _ =>
    bind (check (SearchBooks.NewClient env) (fun e => Print [AErr e])) (fun _ =>
    SearchBooks.search_and_print env (query_body (url.QueryEscape q)))))).
Proof.
  unfold SearchBooksAlt.main, SearchBooksAlt.query.
  unfold SearchBooks.sprintf.
  rewrite Sprintf_query.
  destruct (SearchBooks.godotenv_Load env), (SearchBooks.NewClient env);
    run_steps; reflexivity.
Qed.



(** ** The request body *)

Lemma scans_query : json.scans (lit "query").
Proof. intros R. reflexivity. Qed.
Lemma scans_multi_match : json.scans (lit "multi_match").
Proof. intros R. reflexivity. Qed.

Lemma query_body_eq l :
  query_body l =
  [x20; x7b; x0a; x09; x20; x20; x20; x22] ++ lit "query" ++
  [x22; x3a; x20; x7b; x0a; x09; x20; x20; x20; x09; x22] ++ lit "multi_match" ++
  [x22; x3a; x7b; x0a; x09; x09; x20; x20; x22] ++ lit "query" ++
  [x22; x3a; x22] ++ l ++ query_suffix.
Proof. reflexivity. Qed.

Lemma parse_query_body f l :
  json.scans l ->
  json.parse_value (S (S (S (S (S (S (S (S (S (S (S (S (S f))))))))))))) 0 (query_body l)
  = Some (query_value l, []).
Proof.
  intros Hl. rewrite query_body_eq. unfold query_suffix.
  cbn [app]. repeat (rewrite <- app_assoc; cbn [app]).
  rewrite parse_value_eq. jstep. change (json.maxNestingDepth <? 0 + 1) with false. cbv iota.
  rewrite parse_members_eq. jstep. rewrite scans_query. jstep.
  rewrite parse_value_eq. jstep. change (json.maxNestingDepth <? 0 + 1 + 1) with false. cbv iota.
  rewrite parse_members_eq. jstep. rewrite scans_multi_match. jstep.
  rewrite parse_value_eq. jstep. change (json.maxNestingDepth <? 0 + 1 + 1 + 1) with false. cbv iota.
  rewrite parse_members_eq. jstep. rewrite scans_query. jstep.
  rewrite parse_value_string by assumption.
  vm_compute. reflexivity.
Qed.

Lemma query_body_length l : (13 <= length (query_body l))%nat.
Proof.
  unfold query_body. rewrite length_app.
  assert (E : length query_prefix = 52%nat) by (vm_compute; reflexivity).
  lia.
Qed.

(** A text that scans as the inside of a string gives a well-formed
    request body. *)
Lemma scan_query_body l :
  json.scans l -> json.scan (query_body l) = Some (query_value l).
Proof.
  intros Hl. unfold json.scan.
  pose proof (query_body_length l) as L.
  destruct (length _) as [|[|[|[|[|[|[|[|[|[|[|[|[|n]]]]]]]]]]]]]; try lia.
  rewrite (parse_query_body (S n)) by assumption. reflexivity.
Qed.

(** ** net/url *)


Lemma scan_string_plain c t :
  plain c = true -> json.scan_string (c :: t) = json.prepend [c] (json.scan_string t).
Proof.
  unfold plain. intros H.
  apply andb_true_iff in H. destruct H as [H H3].
  apply andb_true_iff in H. destruct H as [H1 H2].
  apply negb_true_iff in H1, H2, H3.
  cbn [json.scan_string]. rewrite H1, H2, H3. reflexivity.
Qed.

Lemma scan_string_plains l : forallb plain l = true -> json.scans l.
Proof.
  induction l as [|c l IH]; intros H R.
  - reflexivity.
  - cbn [forallb] in H. apply andb_true_iff in H. destruct H as [Hc Hl].
    cbn [app]. rewrite scan_string_plain by exact Hc.
    rewrite (IH Hl R). reflexivity.
Qed.

Lemma escape_byte_plain c : forallb plain (url.escape_byte c) = true.
Proof. destruct c; vm_compute; reflexivity. Qed.

Lemma QueryEscape_plain q : forallb plain (url.QueryEscape q) = true.
Proof.
  induction q as [|c q IH]; [reflexivity|].
  unfold url.QueryEscape. cbn [flat_map]. rewrite forallb_app.
  rewrite escape_byte_plain. exact IH.
Qed.

(** The second copy always sends a well-formed body; the string in it is
    the percent-encoded query. *)
Lemma escaped_query_body_valid q :
  json.scan (query_body (url.QueryEscape q)) = Some (query_value (url.QueryEscape q)).
Proof. apply scan_query_body, scan_string_plains, QueryEscape_plain. Qed.



(** ** The specification of the searcher *)

Lemma fst_finish {E} (m : M E unit) : fst (finish m) = fst m.
Proof. destruct m as [t [o|u]]; reflexivity. Qed.

(** The first copy puts the query into the body as it is. *)
Lemma request_body_is_raw env q :
  q <> [] ->
  SearchBooks.godotenv_Load env = None -> SearchBooks.NewClient env = None ->
  exists t, fst (SearchBooks.main env q)
    = SearchBooks.Stdout (lit "Searching books for: " ++ q ++ [x0a])
      :: SearchBooks.Search (golit "books") (query_body q) :: t.
Proof.
  intros Hq H1 H2. rewrite main_spec by exact Hq. rewrite H1, H2.
  rewrite fst_finish. rewrite search_and_print_spec. run_steps.
  eexists. reflexivity.
Qed.

(** The second copy sends the percent-encoded query, whatever it is. *)
Lemma request_body_is_escaped env q :
  SearchBooks.godotenv_Load env = None -> SearchBooks.NewClient env = None ->
  exists t, fst (SearchBooksAlt.main env q)
    = SearchBooks.Stdout (golit "Hello from search-books\n")
      :: SearchBooks.Search (golit "books") (query_body (url.QueryEscape q)) :: t.
Proof.
  intros H1 H2. rewrite alt_main_spec. rewrite H1, H2.
  rewrite fst_finish. rewrite search_and_print_spec. run_steps.
  eexists. reflexivity.
Qed.

(** C2: the specification asks for a request body that is well-formed
    JSON whatever the query.  When the query is one double quote, and when
    it is one backslash, the first copy of the tool sends a body that
    [json.Valid] refuses, and prints the hits of the answer as if nothing
    had happened: the text is put between the quotes of the template as it
    is. *)
Theorem raw_query_breaks_request_body :
  SearchBooks.requests (fst (SearchBooks.main search_env [x22])) = [query_body [x22]] /\
  json.Valid (query_body [x22]) = false /\
  SearchBooks.requests (fst (SearchBooks.main search_env [x5c])) = [query_body [x5c]] /\
  json.Valid (query_body [x5c]) = false /\
  snd (SearchBooks.main search_env [x22]) = Exit0.
Proof.
  split; [vm_compute; reflexivity|]. split; [vm_compute; reflexivity|].
  split; [vm_compute; reflexivity|]. split; vm_compute; reflexivity.
Qed.

(** C6: the specification asks that an empty query ends the process
    before the remote endpoint is contacted.  The second copy of the
    search tool has no such check: on the empty query it sends the
    request, with the empty string as the text to search for, and ends
    with status 0. *)
Theorem second_copy_sends_empty_query :
  SearchBooks.requests (fst (SearchBooksAlt.main search_env [])) = [query_body []] /\
  snd (SearchBooksAlt.main search_env []) = Exit0.
Proof. split; vm_compute; reflexivity. Qed.

(** The first copy does check its flag. *)
Lemma first_copy_checks_query env q :
  (q = [] ->
   SearchBooks.main env q
   = ([], Fatal (Printf (golit "No query provided for -query parameter") []))) /\
  (q <> [] ->
   SearchBooks.godotenv_Load env = None -> SearchBooks.NewClient env = None ->
   SearchBooks.requests (fst (SearchBooks.main env q)) <> []).
Proof.
  split.
  - intros ->. apply main_empty.
  - intros Hq H1 H2. destruct (request_body_is_raw env q Hq H1 H2) as [t ->].
    discriminate.
Qed.

(** C7: when the search succeeds and the response decodes, the program
    writes the line that announces the search and then one line per hit,
    in the order of the hits: the title, a comma, the url, the words
    [with score of] and the score as [%f] writes it; it ends with status
    0.  A score that is a number is written in fixed-point notation with
    six decimals, rounded to the nearest millionth. *)
Theorem hits_printed_one_per_line env q code body resp :
  q <> [] ->
  SearchBooks.godotenv_Load env = None -> SearchBooks.NewClient env = None ->
  SearchBooks.client_Search env (golit "books") (query_body q) = Response code body ->
  IsError code = false ->
  json.Decode (SearchBooks.BookSearchResponse_fields (SearchBooks.ParseFloat env))
    SearchBooks.zero_Response body = json.Ok resp ->
  let hits := SearchBooks.Hits (SearchBooks.Hits_ resp) in
  printed (fst (SearchBooks.main env q))
    = (lit "Searching books for: " ++ q ++ [x0a]) :: map hit_line hits /\
  snd (SearchBooks.main env q) = Exit0 /\
  forall h, In h hits -> is_number (SearchBooks.Score h) ->
    exists neg n, rounds_to (SearchBooks.Score h) neg n /\
                  is_fixed_point neg n (fmt.fmt_f (SearchBooks.Score h)).
Proof.
  intros Hq H1 H2 Hs He Hd hits.
  rewrite main_spec by exact Hq. rewrite H1, H2.
  rewrite finish_eq. rewrite search_and_print_spec, Hs, He, Hd.
  run_steps. fold hits.
  split; [|split].
  - cbn [printed]. rewrite printed_app, printed_hit_events.
    cbn [printed]. rewrite app_nil_r. reflexivity.
  - reflexivity.
  - intros h _. apply fmt_f_fixed_point.
Qed.

Lemma hits_printed_one_per_line_witness :
  printed (fst (SearchBooks.main search_env dogs))
  = [ lit "Searching books for: dogs" ++ [x0a];
      lit "A, u with score of 1.500000" ++ [x0a];
      lit "B, v with score of 3.000000" ++ [x0a] ] /\
  snd (SearchBooks.main search_env dogs) = Exit0.
Proof.
  pose proof (hits_printed_one_per_line search_env dogs 200 two_hits_response two_hits) as H.
  cbv zeta in H.
  destruct H as (H1 & H2 & _).
  - discriminate.
  - reflexivity.
  - reflexivity.
  - reflexivity.
  - reflexivity.
  - vm_compute. reflexivity.
  - split; [|exact H2]. rewrite H1. vm_compute. reflexivity.
Defined.

(** C8: a record [b] that the loader decoded from a line, encoded as the
    loader encodes it, is decoded by the searcher to the record with the
    same title, url and description: by [json.Unmarshal] on the document
    alone, and by the decoder of the response on a response whose one hit
    has the document as its [_source]. *)
Theorem book_round_trip line b :
  LoadBooks.decodes line b ->
  let document := json.Marshal LoadBooks.Book_fields b in
  let book := SearchBooks.mkBook (LoadBooks.Title b) (LoadBooks.Url b) (LoadBooks.Description b) in
  json.Unmarshal SearchBooks.Book_fields SearchBooks.zero_Book document = json.Ok book /\
  forall ParseFloat,
    json.Decode (SearchBooks.BookSearchResponse_fields ParseFloat) SearchBooks.zero_Response
      (SearchBooks.response_with document)
    = json.Ok (SearchBooks.mkResponse SearchBooks.zero_float
         (SearchBooks.mkHits [SearchBooks.mkHit book SearchBooks.zero_float])).
Proof.
  intros Hd. cbv zeta.
  destruct (Unmarshal_valid line b Hd) as (VT & VU & VD).
  rewrite Marshal_load_book. split.
  - apply Unmarshal_search_book; assumption.
  - intros PF. apply Decode_response_with; assumption.
Qed.

Lemma book_round_trip_witness :
  json.Unmarshal SearchBooks.Book_fields SearchBooks.zero_Book
    (json.Marshal LoadBooks.Book_fields book_A)
  = json.Ok (SearchBooks.mkBook [x41] [x75] []).
Proof.
  pose proof (book_round_trip line_A book_A) as H. cbv zeta in H.
  destruct H as (H & _).
  - vm_compute. reflexivity.
  - exact H.
Defined.

(** ** Every run of the loader *)

Lemma process_no_panic env l n :
  snd (LoadBooks.process env l n) <> inl GoPanic.
Proof.
  destruct (json.Unmarshal LoadBooks.Book_fields LoadBooks.zero_Book l) as [b|e|] eqn:U.
  - destruct (process_Ok env l n b U) as (_ & _ & _ & _ & P5).
    intros H. destruct (P5 _ H) as [m Hm]. discriminate.
  - rewrite (process_Err env l n e U). discriminate.
  - exfalso. exact (Unmarshal_no_panic l U).
Qed.

Lemma loop_no_panic fuel : forall env r n,
  snd (LoadBooks.loop fuel env r n) <> inl GoPanic.
Proof.
  induction fuel as [|fuel IH]; intros env r n; cbn [LoadBooks.loop].
  - discriminate.
  - rewrite snd_bind. cbn [emit snd].
    destruct (bufio.ReadBytes r x0a) as [[rb [[]|]] r']; try discriminate.
    rewrite snd_bind.
    pose proof (process_no_panic env rb n) as P.
    destruct (snd (LoadBooks.process env rb n)) as [o|[]]; [congruence|apply IH].
Qed.

Lemma main_no_panic env : snd (LoadBooks.main env) <> GoPanic.
Proof.
  unfold LoadBooks.main. rewrite finish_eq. cbn [snd]. rewrite snd_bind.
  destruct (startup_spec env) as (_ & _ & _ & _ & S5 & _).
  destruct (snd (LoadBooks.startup env)) as [o|r] eqn:Es.
  { destruct (S5 o eq_refl) as [m ->]. discriminate. }
  rewrite snd_bind.
  pose proof (loop_no_panic (S (length (bufio.pending r))) env r 0) as L.
  unfold LoadBooks.run_loop.
  destruct (snd (LoadBooks.loop _ env r 0)) as [o|[]]; [congruence|].
  destruct (closing_spec env) as (_ & _ & _ & C4 & _).
  destruct (snd (LoadBooks.closing env)) as [o|[]] eqn:Ec; [|discriminate].
  destruct (C4 o eq_refl) as [m ->]. discriminate.
Qed.

Lemma main_outcome env :
  snd (LoadBooks.main env) = Exit0 \/ exists m, snd (LoadBooks.main env) = Fatal m.
Proof.
  destruct (main_general env) as (_ & _ & NS).
  pose proof (main_no_panic env) as NP.
  destruct (snd (LoadBooks.main env)) as [|m| |]; eauto; congruence.
Qed.

(** ** The shape of the runs of the loader *)

Lemma process_events env l n :
  forallb loop_event (fst (LoadBooks.process env l n)) = true.
Proof.
  unfold LoadBooks.process.
  destruct (json.Unmarshal _ _ l) as [b|e|]; try reflexivity.
  destruct (LoadBooks.bulk_Add env n) as [cbs err]. cbv beta iota zeta.
  destruct (run_callbacks_spec cbs) as (L & _ & _).
  rewrite !fst_bind. cbn [emit fst snd app forallb loop_event andb].
  rewrite forallb_app.
  assert (L' : forallb loop_event (fst (LoadBooks.run_callbacks cbs)) = true).
  { apply forallb_forall. intros x Hx. rewrite forallb_forall in L.
    specialize (L x Hx). destruct x; try discriminate L. reflexivity. }
  rewrite L'. cbn [andb].
  destruct (snd (LoadBooks.run_callbacks cbs)) as [o|[]]; [reflexivity|].
  destruct err; reflexivity.
Qed.

Lemma loop_events fuel : forall env r n,
  forallb loop_event (fst (LoadBooks.loop fuel env r n)) = true.
Proof.
  induction fuel as [|fuel IH]; intros env r n; cbn [LoadBooks.loop].
  - reflexivity.
  - rewrite fst_bind. cbn [emit fst snd app forallb loop_event andb].
    destruct (bufio.ReadBytes r x0a) as [[rb [[]|]] r']; try reflexivity.
    rewrite fst_bind, forallb_app, process_events. cbn [andb].
    destruct (snd (LoadBooks.process env rb n)) as [o|[]]; [reflexivity|apply IH].
Qed.

Lemma main_trace env :
  fst (LoadBooks.main env)
  = fst (LoadBooks.startup env) ++
    match snd (LoadBooks.startup env) with
    | inl _ => []
    | inr r =>
      fst (LoadBooks.run_loop env r 0) ++
      match snd (LoadBooks.run_loop env r 0) with
      | inl _ => []
      | inr _ => fst (LoadBooks.closing env)
      end
    end /\
  snd (LoadBooks.main env)
  = match snd (LoadBooks.startup env) with
    | inl o => o
    | inr r =>
      match snd (LoadBooks.run_loop env r 0) with
      | inl o => o
      | inr _ => match snd (LoadBooks.closing env) with inl o => o | inr _ => Exit0 end
      end
    end.
Proof.
  unfold LoadBooks.main. rewrite finish_eq. cbn [fst snd]. rewrite fst_bind, snd_bind.
  destruct (snd (LoadBooks.startup env)) as [o|r]; [split; reflexivity|].
  rewrite fst_bind, snd_bind.
  destruct (snd (LoadBooks.run_loop env r 0)) as [o|u]; split; reflexivity.
Qed.

Lemma startup_trace env :
  fst (LoadBooks.startup env)
  = LoadBooks.Stdout (golit "Hello from load-books\n") ::
    match LoadBooks.godotenv_Load env, LoadBooks.NewClient env with
    | None, None => [LoadBooks.IndicesCreate LoadBooks.indexName LoadBooks.indexBody]
    | _, _ => []
    end.
Proof.
  unfold LoadBooks.startup.
  destruct (LoadBooks.godotenv_Load env), (LoadBooks.NewClient env),
    (LoadBooks.Indices_Create env), (LoadBooks.NewBulkIndexer env),
    (LoadBooks.os_Open env) as [eo|r]; reflexivity.
Qed.

(** What [closing] does: the indexer is closed, its last callbacks run,
    and the file is closed only when nothing failed. *)
Lemma closing_cases env :
  exists logs, forallb LoadBooks.is_Log logs = true /\
    ((snd (LoadBooks.closing env) = inr tt /\
      fst (LoadBooks.closing env) = LoadBooks.BulkClose :: logs ++ [LoadBooks.FileClose]) \/
     (exists m, snd (LoadBooks.closing env) = inl (Fatal m) /\
      fst (LoadBooks.closing env) = LoadBooks.BulkClose :: logs)).
Proof.
  unfold LoadBooks.closing.
  destruct (LoadBooks.bulk_Close env) as [cbs err]. cbv beta iota zeta.
  destruct (run_callbacks_spec cbs) as (L & _ & F).
  exists (fst (LoadBooks.run_callbacks cbs)). split; [exact L|].
  rewrite !fst_bind, !snd_bind. cbn [emit fst snd app].
  destruct (snd (LoadBooks.run_callbacks cbs)) as [o|[]] eqn:E.
  - right. destruct (F o eq_refl) as [m ->]. exists m.
    rewrite app_nil_r. split; reflexivity.
  - cbv beta iota.
    destruct err as [e|]; cbn [check halt ret emit fst snd app].
    + right. eexists. rewrite !app_nil_r. split; reflexivity.
    + left. split; reflexivity.
Qed.

Lemma creations_app a b : creations (a ++ b) = creations a ++ creations b.
Proof. induction a as [|[] a IH]; cbn; rewrite ?IH; reflexivity. Qed.

Lemma creations_loop_events t : forallb loop_event t = true -> creations t = [].
Proof.
  induction t as [|e t IH]; [reflexivity|]. cbn [forallb]. intros H.
  apply andb_true_iff in H. destruct H as [He Ht].
  destruct e; try discriminate He; cbn [creations]; auto.
Qed.

Lemma creations_logs t : forallb LoadBooks.is_Log t = true -> creations t = [].
Proof.
  induction t as [|e t IH]; [reflexivity|]. cbn [forallb]. intros H.
  apply andb_true_iff in H. destruct H as [He Ht].
  destruct e; try discriminate He; cbn [creations]; auto.
Qed.

Lemma creations_closing env : creations (fst (LoadBooks.closing env)) = [].
Proof.
  destruct (closing_cases env) as (logs & L & [[_ ->]|(m & _ & ->)]);
    cbn [creations]; rewrite ?creations_app, (creations_logs _ L); reflexivity.
Qed.

Lemma startup_starts env r :
  snd (LoadBooks.startup env) = inr r -> LoadBooks.starts env r.
Proof.
  unfold LoadBooks.startup, LoadBooks.starts.
  destruct (LoadBooks.godotenv_Load env), (LoadBooks.NewClient env),
    (LoadBooks.Indices_Create env) as [ec|code body], (LoadBooks.NewBulkIndexer env),
    (LoadBooks.os_Open env) as [eo|r'];
    cbn [bind emit check halt ret fst snd app]; try discriminate.
  intros [= ->]. repeat split; try reflexivity. eauto.
Qed.

Lemma run_loop_reads env r n : (1 <= LoadBooks.reads (fst (LoadBooks.run_loop env r n)))%nat.
Proof.
  unfold LoadBooks.run_loop. cbn [LoadBooks.loop]. rewrite fst_bind.
  cbn [emit fst app LoadBooks.reads]. lia.
Qed.

Lemma newlines_app a b : newlines (a ++ b) = (newlines a + newlines b)%nat.
Proof. unfold newlines. rewrite filter_app, length_app. reflexivity. Qed.

Lemma newlines_split s : forall l r,
  bufio.split_after x0a s = Some (l, r) -> newlines l = 1%nat.
Proof.
  induction s as [|c t IH]; intros l r H; [discriminate|].
  cbn [bufio.split_after] in H.
  destruct (b2z c =? b2z x0a) eqn:E.
  - injection H as <- <-. unfold newlines. cbn [filter].
    change (b2z x0a) with 10 in E. rewrite E. reflexivity.
  - destruct (bufio.split_after x0a t) as [[l' r']|]; [|discriminate].
    cbn in H. injection H as <- <-.
    unfold newlines. cbn [app filter]. change (b2z x0a) with 10 in E. rewrite E.
    apply (IH l' r'). reflexivity.
Qed.

Lemma newlines_none s : bufio.split_after x0a s = None -> newlines s = 0%nat.
Proof.
  induction s as [|c t IH]; intros H; [reflexivity|].
  cbn [bufio.split_after] in H.
  destruct (b2z c =? b2z x0a) eqn:E; [discriminate|].
  destruct (bufio.split_after x0a t) as [[l' r']|]; [discriminate|].
  unfold newlines. cbn [filter]. change (b2z x0a) with 10 in E. rewrite E.
  apply IH. reflexivity.
Qed.

Lemma newlines_lines lines :
  Forall LoadBooks.is_line lines -> newlines (concat lines) = length lines.
Proof.
  induction 1 as [|l ls Hl _ IH]; [reflexivity|].
  cbn [concat length]. rewrite newlines_app, IH, (newlines_split l l [] Hl). reflexivity.
Qed.

(** ** Properties of the loader beyond its specification *)

(** X1: the index-creation request goes out if and only if the
    environment file loads and the client is built, and then it is the
    first thing the program does after its greeting, once, with the fixed
    name and body; a failure of one of the two steps ends the run with
    nothing but the greeting written. *)
Theorem index_created_once_after_setup env :
  match LoadBooks.godotenv_Load env, LoadBooks.NewClient env with
  | Some _, _ =>
    LoadBooks.main env
    = ([LoadBooks.Stdout (golit "Hello from load-books\n")],
       Fatal (Print [AStr (golit "Error loading .env file")]))
  | None, Some e =>
    LoadBooks.main env
    = ([LoadBooks.Stdout (golit "Hello from load-books\n")], Fatal (Print [AErr e]))
  | None, None =>
    exists post,
      fst (LoadBooks.main env)
      = [LoadBooks.Stdout (golit "Hello from load-books\n");
         LoadBooks.IndicesCreate LoadBooks.indexName LoadBooks.indexBody] ++ post /\
      creations post = []
  end.
Proof.
  destruct (main_trace env) as [Ht Ho].
  pose proof (startup_trace env) as St.
  destruct (LoadBooks.godotenv_Load env) as [e1|] eqn:E1.
  - unfold LoadBooks.main, LoadBooks.startup. rewrite E1. reflexivity.
  - destruct (LoadBooks.NewClient env) as [e2|] eqn:E2.
    + unfold LoadBooks.main, LoadBooks.startup. rewrite E1, E2. reflexivity.
    + rewrite Ht, St. eexists. split; [reflexivity|].
      destruct (snd (LoadBooks.startup env)) as [o|r]; [reflexivity|].
      rewrite creations_app. unfold LoadBooks.run_loop.
      rewrite (creations_loop_events _ (loop_events _ env r 0)).
      destruct (snd (LoadBooks.loop _ env r 0)); [reflexivity|apply creations_closing].
Qed.

(** X2: the file is read only when the five steps before the loop have
    all succeeded (environment file, client, creation call, bulk indexer,
    opening of the file); when one of them fails nothing is decoded or
    submitted and the run ends with [log.Fatal]. *)
Theorem file_read_only_after_startup env :
  ((1 <= LoadBooks.reads (fst (LoadBooks.main env)))%nat <->
   exists r, LoadBooks.starts env r) /\
  ((~ exists r, LoadBooks.starts env r) ->
   LoadBooks.submitted (fst (LoadBooks.main env)) = [] /\
   LoadBooks.decoded_books (fst (LoadBooks.main env)) = [] /\
   exists m, snd (LoadBooks.main env) = Fatal m).
Proof.
  destruct (main_trace env) as [Ht Ho].
  destruct (startup_spec env) as (S1 & S2 & S3 & _ & S5 & _ & S7).
  destruct (snd (LoadBooks.startup env)) as [o|r] eqn:Es.
  - rewrite app_nil_r in Ht. rewrite Ht, Ho, S1, S2, S3.
    assert (N : ~ exists r, LoadBooks.starts env r).
    { intros [r Hr]. specialize (S7 r Hr). discriminate. }
    split; [split; [lia | intros H; contradiction]|].
    intros _. split; [reflexivity|]. split; [reflexivity|]. apply S5. reflexivity.
  - pose proof (startup_starts env r Es) as Hs.
    split; [|intros N; exfalso; apply N; eauto].
    split; [eauto|]. intros _. rewrite Ht, !reads_app.
    pose proof (run_loop_reads env r 0). lia.
Qed.

Lemma closing_events env e :
  In e (fst (LoadBooks.closing env)) ->
  e = LoadBooks.BulkClose \/ LoadBooks.is_Log e = true \/
  (e = LoadBooks.FileClose /\ snd (LoadBooks.closing env) = inr tt).
Proof.
  destruct (closing_cases env) as (logs & L & [[Hs ->]|(m & Hs & ->)]);
    rewrite forallb_forall in L; cbn [In]; rewrite ?in_app_iff; cbn [In];
    intros H; intuition auto.
Qed.

Lemma closing_done env :
  snd (LoadBooks.closing env) = inr tt ->
  In LoadBooks.BulkClose (fst (LoadBooks.closing env)) /\
  In LoadBooks.FileClose (fst (LoadBooks.closing env)).
Proof.
  destruct (closing_cases env) as (logs & L & [[Hs ->]|(m & Hs & ->)]); intros H.
  - split; [left; reflexivity|]. right. apply in_app_iff. right. left. reflexivity.
  - rewrite Hs in H. discriminate.
Qed.

(** The loop ends at the end of the file or with [log.Fatal]. *)
Lemma run_loop_result env r n o :
  snd (LoadBooks.run_loop env r n) = inl o -> exists m, o = Fatal m.
Proof.
  destruct r as [s flt].
  destruct (content_lines s) as (lines & tail & -> & Hl & Ht).
  rewrite (run_loop_lines env lines tail flt n Hl). rewrite snd_bind.
  destruct (handle_lines_spec env lines n) as (_ & _ & _ & _ & H5).
  destruct (snd (LoadBooks.handle_lines env lines n)) as [o'|[]].
  - intros [= <-]. apply H5. reflexivity.
  - rewrite (run_loop_last env tail flt _ Ht). cbn [snd].
    destruct flt as [[]|]; try discriminate; intros [= <-]; eauto.
Qed.

(** X3: [defer file.Close()] runs only when [main] returns: the file is
    closed in exactly the runs that end with status 0, and in those the
    bulk indexer was closed before.  The indexer is closed only after the
    loop has reached the end of the file; a run that [log.Fatal] ends
    earlier closes neither. *)
Theorem file_closed_iff_success env :
  (In LoadBooks.FileClose (fst (LoadBooks.main env)) <-> snd (LoadBooks.main env) = Exit0) /\
  (snd (LoadBooks.main env) = Exit0 -> In LoadBooks.BulkClose (fst (LoadBooks.main env))) /\
  (In LoadBooks.BulkClose (fst (LoadBooks.main env)) ->
   exists r, LoadBooks.starts env r /\ snd (LoadBooks.run_loop env r 0) = inr tt).
Proof.
  destruct (main_trace env) as [Ht Ho].
  pose proof (startup_trace env) as St.
  destruct (startup_spec env) as (_ & _ & _ & _ & S5 & _).
  assert (NS : forall e, In e (fst (LoadBooks.startup env)) ->
             e <> LoadBooks.FileClose /\ e <> LoadBooks.BulkClose).
  { intros e. rewrite St. cbn [In].
    destruct (LoadBooks.godotenv_Load env), (LoadBooks.NewClient env); cbn [In];
      intros H; repeat (destruct H as [<-|H]; [split; discriminate|]); contradiction. }
  rewrite Ht, Ho. clear Ht Ho.
  destruct (snd (LoadBooks.startup env)) as [o|r] eqn:Es.
  { rewrite app_nil_r. destruct (S5 o eq_refl) as [m ->].
    split; [split; [intros H; destruct (NS _ H) as [N _]; congruence | discriminate]|].
    split; [discriminate|]. intros H. destruct (NS _ H) as [_ N]. congruence. }
  pose proof (loop_events (S (length (bufio.pending r))) env r 0) as LE.
  fold (LoadBooks.run_loop env r 0) in LE. rewrite forallb_forall in LE.
  assert (NL : forall e, In e (fst (LoadBooks.run_loop env r 0)) ->
             e <> LoadBooks.FileClose /\ e <> LoadBooks.BulkClose).
  { intros e H. specialize (LE _ H). split; intros ->; discriminate LE. }
  pose proof (run_loop_result env r 0) as RL.
  destruct (snd (LoadBooks.run_loop env r 0)) as [o|[]] eqn:El.
  { rewrite app_nil_r. destruct (RL o eq_refl) as [m ->].
    assert (No : forall e, In e (fst (LoadBooks.startup env) ++ fst (LoadBooks.run_loop env r 0)) ->
                 e <> LoadBooks.FileClose /\ e <> LoadBooks.BulkClose).
    { intros e H. apply in_app_iff in H. destruct H as [H|H]; auto. }
    split; [split; [intros H; destruct (No _ H) as [N _]; congruence | discriminate]|].
    split; [discriminate|]. intros H. destruct (No _ H) as [_ N]. congruence. }
  split; [split|split].
  - intros H. apply in_app_iff in H. destruct H as [H|H];
      [destruct (NS _ H) as [N _]; congruence|].
    apply in_app_iff in H. destruct H as [H|H];
      [destruct (NL _ H) as [N _]; congruence|].
    destruct (closing_events env _ H) as [D|[D|[_ D]]]; try discriminate D.
    rewrite D. reflexivity.
  - intros E. destruct (snd (LoadBooks.closing env)) as [o|[]] eqn:Ec.
    + destruct (closing_spec env) as (_ & _ & _ & C4 & _).
      destruct (C4 o Ec) as [m ->]. discriminate.
    + apply in_app_iff. right. apply in_app_iff. right. apply closing_done. exact Ec.
  - intros _. apply in_app_iff. right. apply in_app_iff. right.
    destruct (closing_cases env) as (logs & L & [[_ ->]|(m & _ & ->)]); left; reflexivity.
  - intros _. exists r. split; [apply startup_starts; exact Es | exact El].
Qed.

(** X4: a run that ends with status 0 has read the file to its end and
    has decoded and submitted one record for every line that ends with a
    newline, in the order of the file: status 0 is never reported for a
    file of which a line was skipped. *)
Theorem success_means_every_line_loaded env :
  snd (LoadBooks.main env) = Exit0 ->
  exists lines tail flt,
    LoadBooks.os_Open env = inr (bufio.mkReader (concat lines ++ tail) flt) /\
    Forall LoadBooks.is_line lines /\ bufio.split_after x0a tail = None /\
    Forall2 LoadBooks.decodes lines (LoadBooks.decoded_books (fst (LoadBooks.main env))) /\
    LoadBooks.submitted (fst (LoadBooks.main env))
      = map (json.Marshal LoadBooks.Book_fields)
            (LoadBooks.decoded_books (fst (LoadBooks.main env))) /\
    LoadBooks.reads (fst (LoadBooks.main env)) = S (length lines).
Proof.
  intros E.
  destruct (startup_spec env) as (S1 & S2 & S3 & _ & S5 & S6 & _).
  destruct (snd (LoadBooks.startup env)) as [o|r] eqn:Es.
  { exfalso. destruct (main_trace env) as [_ Ho]. rewrite Es in Ho.
    destruct (S5 o eq_refl) as [m ->]. congruence. }
  specialize (S6 r eq_refl). destruct r as [s flt].
  destruct (content_lines s) as (lines & tail & -> & Hl & Ht).
  exists lines, tail, flt. split; [exact S6|]. split; [exact Hl|]. split; [exact Ht|].
  destruct (main_on_file env lines tail flt Hl Ht S6) as (A & B & _).
  split; [|split; [exact A|]].
  - revert E B. rewrite (main_on_lines env lines tail flt Hl S6).
    rewrite finish_eq. cbn [fst snd]. rewrite !fst_bind, !snd_bind, Es.
    destruct (handle_lines_spec env lines 0%nat) as (_ & _ & _ & H4 & H5).
    destruct (snd (LoadBooks.handle_lines env lines 0)) as [o|[]].
    { destruct (H5 o eq_refl) as [m ->]. discriminate. }
    destruct (H4 eq_refl) as [_ L].
    rewrite (run_loop_last env tail flt _ Ht). cbn [fst snd].
    destruct (closing_spec env) as (_ & C2 & _).
    intros _.
    match goal with
    | |- context [[LoadBooks.ReadBytes] ++ ?X] =>
      assert (DX : LoadBooks.decoded_books X = [])
        by (destruct flt as [[]|]; try reflexivity; exact C2)
    end.
    rewrite !decoded_books_app, S2, DX. cbn [LoadBooks.decoded_books app].
    rewrite app_nil_r, L, firstn_all. auto.
  - revert E. rewrite (main_on_lines env lines tail flt Hl S6).
    rewrite finish_eq. cbn [fst snd]. rewrite !fst_bind, !snd_bind, Es.
    destruct (handle_lines_spec env lines 0%nat) as (_ & _ & _ & H4 & H5).
    destruct (snd (LoadBooks.handle_lines env lines 0)) as [o|[]].
    { destruct (H5 o eq_refl) as [m ->]. discriminate. }
    destruct (H4 eq_refl) as [R _].
    rewrite (run_loop_last env tail flt _ Ht). cbn [fst snd].
    destruct (closing_spec env) as (_ & _ & C3 & _).
    destruct flt as [[]|]; try discriminate; intros _;
      rewrite !reads_app, S3, R, C3; cbn [LoadBooks.reads]; lia.
Qed.

Lemma success_means_every_line_loaded_witness :
  exists lines tail flt,
    LoadBooks.os_Open (calm_env (line_A ++ tail_E))
      = inr (bufio.mkReader (concat lines ++ tail) flt) /\
    Forall LoadBooks.is_line lines /\ bufio.split_after x0a tail = None /\
    Forall2 LoadBooks.decodes lines
      (LoadBooks.decoded_books (fst (LoadBooks.main (calm_env (line_A ++ tail_E))))) /\
    LoadBooks.submitted (fst (LoadBooks.main (calm_env (line_A ++ tail_E))))
      = map (json.Marshal LoadBooks.Book_fields)
            (LoadBooks.decoded_books (fst (LoadBooks.main (calm_env (line_A ++ tail_E))))) /\
    LoadBooks.reads (fst (LoadBooks.main (calm_env (line_A ++ tail_E)))) = S (length lines).
Proof.
  apply (success_means_every_line_loaded (calm_env (line_A ++ tail_E))).
  vm_compute. reflexivity.
Defined.

(** X5: the loader terminates on every file: it calls [ReadBytes] at most
    once per newline of the file and once more, and it ends by returning
    from [main] or by [log.Fatal], never by a panic of the decoder. *)
Theorem loader_terminates env :
  (snd (LoadBooks.main env) = Exit0 \/ exists m, snd (LoadBooks.main env) = Fatal m) /\
  (LoadBooks.reads (fst (LoadBooks.main env))
   <= match LoadBooks.os_Open env with
      | inr r => S (newlines (bufio.pending r))
      | inl _ => 0
      end)%nat.
Proof.
  split; [apply main_outcome|].
  destruct (startup_spec env) as (_ & _ & S3 & _ & _ & S6 & _).
  destruct (LoadBooks.os_Open env) as [e|[s flt]] eqn:Ho.
  - destruct (main_trace env) as [Ht _]. rewrite Ht.
    destruct (snd (LoadBooks.startup env)) as [o|r]; [|specialize (S6 r eq_refl); discriminate].
    rewrite app_nil_r, S3. lia.
  - destruct (content_lines s) as (lines & tail & -> & Hl & Ht).
    cbn [bufio.pending].
    rewrite newlines_app, (newlines_lines lines Hl), (newlines_none tail Ht).
    rewrite (main_on_lines env lines tail flt Hl Ho).
    rewrite finish_eq. cbn [fst snd]. rewrite !fst_bind, !reads_app, S3.
    destruct (handle_lines_spec env lines 0%nat) as (_ & _ & H3 & _).
    rewrite (run_loop_last env tail flt _ Ht). cbn [fst snd].
    destruct (closing_spec env) as (_ & _ & C3 & _).
    destruct (snd (LoadBooks.startup env)); cbn [LoadBooks.reads]; [lia|].
    destruct (snd (LoadBooks.handle_lines env lines 0)); rewrite ?reads_app; cbn [LoadBooks.reads];
      [lia|].
    destruct flt as [[]|]; rewrite ?C3; cbn [LoadBooks.reads]; lia.
Qed.

(** ** The loader when the indexer or the file fails *)

Lemma run_callbacks_app a b :
  LoadBooks.run_callbacks (a ++ b)
  = bind (LoadBooks.run_callbacks a) (fun _ => LoadBooks.run_callbacks b).
Proof.
  induction a as [|c a IH]; cbn [app LoadBooks.run_callbacks].
  - rewrite bind_ret_l. reflexivity.
  - rewrite IH, bind_assoc. reflexivity.
Qed.

Lemma run_callbacks_logs cs :
  existsb LoadBooks.is_OnError cs = false ->
  LoadBooks.run_callbacks cs = (fst (LoadBooks.run_callbacks cs), inr tt) /\
  forallb LoadBooks.is_Log (fst (LoadBooks.run_callbacks cs)) = true.
Proof.
  intros H. destruct (run_callbacks_spec cs) as (L & Q & _).
  specialize (Q H). split; [|exact L].
  destruct (LoadBooks.run_callbacks cs) as [t r]. cbn [fst snd] in *. subst r. reflexivity.
Qed.

(** The callbacks up to the first [OnError]: the failures of items before
    it are logged, then the process ends. *)
Lemma run_callbacks_OnError cs1 e cs2 :
  existsb LoadBooks.is_OnError cs1 = false ->
  LoadBooks.run_callbacks (cs1 ++ LoadBooks.OnError e :: cs2)
  = (fst (LoadBooks.run_callbacks cs1),
     inl (Fatal (Printf (golit "bulkindexer OnError %#v") [AErr e]))).
Proof.
  intros H. destruct (run_callbacks_logs cs1 H) as [E _].
  rewrite run_callbacks_app, E. cbn [LoadBooks.run_callbacks LoadBooks.run_callback].
  unfold bind, halt. rewrite app_nil_r. reflexivity.
Qed.

Lemma process_decoded env l n b :
  LoadBooks.decodes l b ->
  LoadBooks.process env l n
  = bind (LoadBooks.Decoded b ::
          LoadBooks.BulkAdd (golit "index") (json.Marshal LoadBooks.Book_fields b) ::
          fst (LoadBooks.run_callbacks (fst (LoadBooks.bulk_Add env n))),
          snd (LoadBooks.run_callbacks (fst (LoadBooks.bulk_Add env n))))
         (fun _ => check (snd (LoadBooks.bulk_Add env n)) (fun e =>
            Printf (golit "error adding item to bulk indexer: %v") [AErr e])).
Proof.
  intros U. unfold LoadBooks.process. rewrite U.
  destruct (LoadBooks.bulk_Add env n) as [cbs err]. cbv beta iota zeta. cbn [fst snd].
  rewrite !bind_emit. cbn [fst snd].
  destruct (LoadBooks.run_callbacks cbs) as [t [o|[]]]; [reflexivity|].
  destruct err; reflexivity.
Qed.

(** The run up to the line after the lines [pre], when these load. *)
Lemma main_after_lines env pre rest flt books :
  Forall LoadBooks.is_line pre ->
  LoadBooks.starts env (bufio.mkReader (concat pre ++ rest) flt) ->
  Forall2 LoadBooks.decodes pre books -> LoadBooks.quiet env (length pre) ->
  exists t0,
    LoadBooks.submitted t0 = map (json.Marshal LoadBooks.Book_fields) books /\
    LoadBooks.decoded_books t0 = books /\
    LoadBooks.reads t0 = length pre /\
    ~ In LoadBooks.BulkClose t0 /\ ~ In LoadBooks.FileClose t0 /\
    LoadBooks.main env
    = finish (bind (t0, inr tt) (fun _ =>
              bind (LoadBooks.run_loop env (bufio.mkReader rest flt) (length pre))
                   (fun _ => LoadBooks.closing env))).
Proof.
  intros Hl St Hb Hq.
  assert (Ho : LoadBooks.os_Open env = inr (bufio.mkReader (concat pre ++ rest) flt))
    by (destruct St as (_ & _ & _ & _ & Ho); exact Ho).
  destruct (startup_spec env) as (S1 & S2 & S3 & _ & _ & _ & S7).
  specialize (S7 _ St).
  destruct (handle_lines_spec env pre 0%nat) as (H1 & _ & _ & H4 & _).
  destruct (handle_lines_all env pre books 0%nat Hb) as [HA1 HA2].
  { intros i Hi. apply Hq. lia. }
  destruct (H4 HA1) as [H4a H4b].
  exists (fst (LoadBooks.startup env) ++ fst (LoadBooks.handle_lines env pre 0)).
  rewrite submitted_app, decoded_books_app, reads_app, S1, S2, S3, H1, HA2, H4a.
  split; [reflexivity|]. split; [reflexivity|]. split; [reflexivity|].
  assert (NI : forall e, In e (fst (LoadBooks.startup env) ++ fst (LoadBooks.handle_lines env pre 0)) ->
               e <> LoadBooks.BulkClose /\ e <> LoadBooks.FileClose).
  { intros e H. apply in_app_iff in H. destruct H as [H|H].
    - rewrite startup_trace in H.
      destruct (LoadBooks.godotenv_Load env), (LoadBooks.NewClient env); cbn [In] in H;
        repeat (destruct H as [<-|H]; [split; discriminate|]); contradiction.
    - assert (LE : forallb loop_event (fst (LoadBooks.handle_lines env pre 0)) = true).
      { clear. generalize 0%nat. induction pre as [|l ls IH]; intros n; [reflexivity|].
        rewrite handle_lines_cons.
        pose proof (process_events env l n) as P.
        destruct (snd (LoadBooks.process env l n)); cbn [fst forallb loop_event andb].
        - exact P.
        - rewrite forallb_app, P, IH. reflexivity. }
      rewrite forallb_forall in LE. specialize (LE _ H).
      split; intros ->; discriminate LE. }
  split; [intros H; destruct (NI _ H) as [N _]; congruence|].
  split; [intros H; destruct (NI _ H) as [_ N]; congruence|].
  rewrite (main_on_lines env pre rest flt Hl Ho).
  destruct (LoadBooks.startup env) as [ts [os|rs]]; cbn [snd] in S7; [discriminate|].
  destruct (LoadBooks.handle_lines env pre 0) as [th [oh|[]]]; cbn [snd] in HA1; [discriminate|].
  cbn [fst]. rewrite <- !bind_assoc. f_equal.
Qed.

Lemma main_stops_in_line env pre l rest flt books o :
  Forall LoadBooks.is_line pre -> LoadBooks.is_line l ->
  LoadBooks.starts env (bufio.mkReader (concat pre ++ l ++ rest) flt) ->
  Forall2 LoadBooks.decodes pre books -> LoadBooks.quiet env (length pre) ->
  snd (LoadBooks.process env l (length pre)) = inl o ->
  exists t0,
    LoadBooks.submitted t0 = map (json.Marshal LoadBooks.Book_fields) books /\
    LoadBooks.reads t0 = length pre /\
    ~ In LoadBooks.BulkClose t0 /\
    fst (LoadBooks.main env)
    = t0 ++ LoadBooks.ReadBytes :: fst (LoadBooks.process env l (length pre)) /\
    snd (LoadBooks.main env) = o.
Proof.
  intros Hl Hi St Hb Hq Hp.
  destruct (main_after_lines env pre (l ++ rest) flt books Hl St Hb Hq)
    as (t0 & T1 & _ & T3 & T4 & _ & E).
  exists t0. split; [exact T1|]. split; [exact T3|]. split; [exact T4|].
  rewrite E, (run_loop_line env l rest flt _ Hi), handle_line_eq, Hp.
  rewrite finish_eq. cbn [bind fst snd]. split; reflexivity.
Qed.

(** X6: when [bulkIndexer.Add] returns an error for a record, the run
    ends there with the message of line 135: the record had been handed
    to the indexer, like the records of the lines before it; no later
    line is read and the indexer is not closed. *)
Theorem add_error_aborts env pre l rest flt books b e :
  Forall LoadBooks.is_line pre -> LoadBooks.is_line l ->
  LoadBooks.starts env (bufio.mkReader (concat pre ++ l ++ rest) flt) ->
  Forall2 LoadBooks.decodes pre books -> LoadBooks.decodes l b ->
  LoadBooks.quiet env (length pre) ->
  existsb LoadBooks.is_OnError (fst (LoadBooks.bulk_Add env (length pre))) = false ->
  snd (LoadBooks.bulk_Add env (length pre)) = Some e ->
  snd (LoadBooks.main env)
    = Fatal (Printf (golit "error adding item to bulk indexer: %v") [AErr e]) /\
  LoadBooks.submitted (fst (LoadBooks.main env))
    = map (json.Marshal LoadBooks.Book_fields) (books ++ [b]) /\
  LoadBooks.reads (fst (LoadBooks.main env)) = S (length pre) /\
  ~ In LoadBooks.BulkClose (fst (LoadBooks.main env)).
Proof.
  intros Hl Hi St Hb Ub Hq Hc He.
  destruct (run_callbacks_logs _ Hc) as [Ec Lc].
  assert (P : LoadBooks.process env l (length pre)
    = (LoadBooks.Decoded b ::
       LoadBooks.BulkAdd (golit "index") (json.Marshal LoadBooks.Book_fields b) ::
       fst (LoadBooks.run_callbacks (fst (LoadBooks.bulk_Add env (length pre)))),
       inl (Fatal (Printf (golit "error adding item to bulk indexer: %v") [AErr e])))).
  { rewrite (process_decoded env l _ b Ub), He.
    rewrite Ec at 2. cbn [snd bind check halt]. rewrite app_nil_r. reflexivity. }
  destruct (main_stops_in_line env pre l rest flt books _ Hl Hi St Hb Hq
              ltac:(rewrite P; reflexivity)) as (t0 & T1 & T3 & T4 & Ef & Es).
  destruct (logs_only _ Lc) as (L1 & _ & L3).
  rewrite Es, Ef, P. cbn [fst].
  split; [reflexivity|]. split; [|split].
  - rewrite submitted_app, map_app, T1. cbn [LoadBooks.submitted map]. rewrite L1. reflexivity.
  - rewrite reads_app, T3. cbn [LoadBooks.reads]. rewrite L3. lia.
  - intros H. apply in_app_iff in H. destruct H as [H|H]; [contradiction|].
    cbn [In] in H. destruct H as [H|[H|[H|H]]]; try discriminate H.
    rewrite forallb_forall in Lc. specialize (Lc _ H). discriminate Lc.
Qed.

Lemma add_error_aborts_witness :
  snd (LoadBooks.main
         (loading_env (line_A ++ lines_CD) None (only_at 1 ([], Some some_error)) ([], None)))
    = Fatal (Printf (golit "error adding item to bulk indexer: %v") [AErr some_error]) /\
  LoadBooks.submitted (fst (LoadBooks.main
         (loading_env (line_A ++ lines_CD) None (only_at 1 ([], Some some_error)) ([], None))))
    = [json.Marshal LoadBooks.Book_fields book_A; json.Marshal LoadBooks.Book_fields book_C].
Proof.
  pose proof (add_error_aborts
    (loading_env (line_A ++ lines_CD) None (only_at 1 ([], Some some_error)) ([], None))
    [line_A] line_C line_D None [book_A] book_C some_error) as H.
  destruct H as (H1 & H2 & _).
  - constructor; [vm_compute; reflexivity | constructor].
  - vm_compute. reflexivity.
  - unfold LoadBooks.starts.
    split; [reflexivity|]. split; [reflexivity|].
    split; [exists 200, []; reflexivity|]. split; reflexivity.
  - constructor; [vm_compute; reflexivity | constructor].
  - vm_compute. reflexivity.
  - intros n Hn. cbn [length] in Hn. assert (n = 0%nat) as -> by lia. split; reflexivity.
  - reflexivity.
  - reflexivity.
  - split; [exact H1 | exact H2].
Defined.

(** X7: when the worker of the bulk indexer reports a failed flush
    through [OnError] while a record is added, the run ends there with the
    message of line 80, whatever [Add] itself returns: the failures of
    items reported before it are logged, the record had been handed to the
    indexer, and no later line is read. *)
Theorem flush_error_aborts env pre l rest flt books b cs1 e cs2 :
  Forall LoadBooks.is_line pre -> LoadBooks.is_line l ->
  LoadBooks.starts env (bufio.mkReader (concat pre ++ l ++ rest) flt) ->
  Forall2 LoadBooks.decodes pre books -> LoadBooks.decodes l b ->
  LoadBooks.quiet env (length pre) ->
  fst (LoadBooks.bulk_Add env (length pre)) = cs1 ++ LoadBooks.OnError e :: cs2 ->
  existsb LoadBooks.is_OnError cs1 = false ->
  snd (LoadBooks.main env) = Fatal (Printf (golit "bulkindexer OnError %#v") [AErr e]) /\
  LoadBooks.submitted (fst (LoadBooks.main env))
    = map (json.Marshal LoadBooks.Book_fields) (books ++ [b]) /\
  LoadBooks.reads (fst (LoadBooks.main env)) = S (length pre) /\
  ~ In LoadBooks.BulkClose (fst (LoadBooks.main env)).
Proof.
  intros Hl Hi St Hb Ub Hq Hc H1.
  destruct (run_callbacks_logs _ H1) as [_ Lc].
  assert (P : LoadBooks.process env l (length pre)
    = (LoadBooks.Decoded b ::
       LoadBooks.BulkAdd (golit "index") (json.Marshal LoadBooks.Book_fields b) ::
       fst (LoadBooks.run_callbacks cs1),
       inl (Fatal (Printf (golit "bulkindexer OnError %#v") [AErr e])))).
  { rewrite (process_decoded env l _ b Ub), Hc, (run_callbacks_OnError cs1 e cs2 H1).
    reflexivity. }
  destruct (main_stops_in_line env pre l rest flt books _ Hl Hi St Hb Hq
              ltac:(rewrite P; reflexivity)) as (t0 & T1 & T3 & T4 & Ef & Es).
  destruct (logs_only _ Lc) as (L1 & _ & L3).
  rewrite Es, Ef, P. cbn [fst].
  split; [reflexivity|]. split; [|split].
  - rewrite submitted_app, map_app, T1. cbn [LoadBooks.submitted map]. rewrite L1. reflexivity.
  - rewrite reads_app, T3. cbn [LoadBooks.reads]. rewrite L3. lia.
  - intros H. apply in_app_iff in H. destruct H as [H|H]; [contradiction|].
    cbn [In] in H. destruct H as [H|[H|[H|H]]]; try discriminate H.
    rewrite forallb_forall in Lc. specialize (Lc _ H). discriminate Lc.
Qed.

Lemma flush_error_aborts_witness :
  snd (LoadBooks.main
         (loading_env (line_A ++ lines_CD) None
            (only_at 1 ([LoadBooks.OnFailure (lit "mapper_parsing_exception") (lit "failed to parse") None;
                         LoadBooks.OnError some_error], None)) ([], None)))
    = Fatal (Printf (golit "bulkindexer OnError %#v") [AErr some_error]) /\
  LoadBooks.submitted (fst (LoadBooks.main
         (loading_env (line_A ++ lines_CD) None
            (only_at 1 ([LoadBooks.OnFailure (lit "mapper_parsing_exception") (lit "failed to parse") None;
                         LoadBooks.OnError some_error], None)) ([], None))))
    = [json.Marshal LoadBooks.Book_fields book_A; json.Marshal LoadBooks.Book_fields book_C].
Proof.
  pose proof (flush_error_aborts
    (loading_env (line_A ++ lines_CD) None
       (only_at 1 ([LoadBooks.OnFailure (lit "mapper_parsing_exception") (lit "failed to parse") None;
                    LoadBooks.OnError some_error], None)) ([], None))
    [line_A] line_C line_D None [book_A] book_C
    [LoadBooks.OnFailure (lit "mapper_parsing_exception") (lit "failed to parse") None]
    some_error []) as H.
  destruct H as (H1 & H2 & _).
  - constructor; [vm_compute; reflexivity | constructor].
  - vm_compute. reflexivity.
  - unfold LoadBooks.starts.
    split; [reflexivity|]. split; [reflexivity|].
    split; [exists 200, []; reflexivity|]. split; reflexivity.
  - constructor; [vm_compute; reflexivity | constructor].
  - vm_compute. reflexivity.
  - intros n Hn. cbn [length] in Hn. assert (n = 0%nat) as -> by lia. split; reflexivity.
  - reflexivity.
  - reflexivity.
  - split; [exact H1 | exact H2].
Defined.

Lemma run_callbacks_fails cs :
  existsb LoadBooks.is_OnError cs = true ->
  exists o, snd (LoadBooks.run_callbacks cs) = inl o.
Proof.
  induction cs as [|c cs IH]; [discriminate|].
  cbn [existsb LoadBooks.run_callbacks]. rewrite snd_bind.
  destruct c as [e|ty re [e|]]; cbn [LoadBooks.is_OnError orb LoadBooks.run_callback halt emit snd].
  - intros _. eauto.
  - exact IH.
  - exact IH.
Qed.

Lemma closing_inr env : snd (LoadBooks.closing env) = inr tt -> closes env.
Proof.
  unfold closes, LoadBooks.closing.
  destruct (LoadBooks.bulk_Close env) as [cbs err]. cbv beta iota zeta. cbn [fst snd].
  rewrite !snd_bind. cbn [emit snd].
  destruct (existsb LoadBooks.is_OnError cbs) eqn:Ex.
  - destruct (run_callbacks_fails cbs Ex) as [o ->]. discriminate.
  - destruct (snd (LoadBooks.run_callbacks cbs)); [discriminate|].
    destruct err; cbn [check halt ret snd]; [discriminate|]. auto.
Qed.

(** X8: when [bulkIndexer.Close] fails, by its result or by [OnError]
    during the last flush, the run ends with [log.Fatal] although every
    record of the file has been handed to the indexer; the file is then
    not closed. *)
Theorem close_error_is_fatal env lines tail books :
  Forall LoadBooks.is_line lines -> bufio.split_after x0a tail = None ->
  LoadBooks.starts env (bufio.mkReader (concat lines ++ tail) None) ->
  Forall2 LoadBooks.decodes lines books -> LoadBooks.quiet env (length lines) ->
  ~ closes env ->
  (exists m, snd (LoadBooks.main env) = Fatal m) /\
  (forall e, existsb LoadBooks.is_OnError (fst (LoadBooks.bulk_Close env)) = false ->
     snd (LoadBooks.bulk_Close env) = Some e ->
     snd (LoadBooks.main env) = Fatal (Printf (golit "Unexpected error: %s") [AErr e])) /\
  LoadBooks.submitted (fst (LoadBooks.main env))
    = map (json.Marshal LoadBooks.Book_fields) books /\
  In LoadBooks.BulkClose (fst (LoadBooks.main env)) /\
  ~ In LoadBooks.FileClose (fst (LoadBooks.main env)).
Proof.
  intros Hl Ht St Hb Hq Hc.
  destruct (main_after_lines env lines tail None books Hl St Hb Hq)
    as (t0 & T1 & _ & _ & _ & T5 & E).
  rewrite E, (run_loop_last env tail None _ Ht). rewrite finish_eq.
  cbn [bind fst snd].
  destruct (closing_cases env) as (logs & L & [[Hs Hf]|(m & Hs & Hf)]).
  { exfalso. apply Hc, closing_inr, Hs. }
  destruct (logs_only _ L) as (L1 & _ & _).
  assert (M : forall e, existsb LoadBooks.is_OnError (fst (LoadBooks.bulk_Close env)) = false ->
     snd (LoadBooks.bulk_Close env) = Some e ->
     m = Printf (golit "Unexpected error: %s") [AErr e]).
  { intros e He1 He2. revert Hs. unfold LoadBooks.closing.
    destruct (LoadBooks.bulk_Close env) as [cbs err]. cbn [fst snd] in He1, He2. subst err.
    cbv beta iota zeta.
    destruct (run_callbacks_logs cbs He1) as [Ec _].
    rewrite !snd_bind. cbn [emit snd]. rewrite Ec. cbn [snd check halt].
    intros [= <-]. reflexivity. }
  destruct (LoadBooks.closing env) as [tc rc]. cbn [fst snd] in Hs, Hf. subst tc rc.
  cbn [fst snd].
  split; [eauto|]. split; [|split; [|split]].
  - intros e He1 He2. rewrite (M e He1 He2). reflexivity.
  - rewrite !submitted_app, T1. cbn [LoadBooks.submitted]. rewrite L1, app_nil_r. reflexivity.
  - apply in_app_iff. right. right. left. reflexivity.
  - intros H. apply in_app_iff in H. destruct H as [H|H]; [contradiction|].
    cbn [In app] in H. destruct H as [H|[H|H]]; try discriminate H.
    rewrite forallb_forall in L. specialize (L _ H). discriminate L.
Qed.

Lemma close_error_is_fatal_witness :
  snd (LoadBooks.main (loading_env (line_A ++ tail_E) None (fun _ => ([], None))
                         ([], Some some_error)))
    = Fatal (Printf (golit "Unexpected error: %s") [AErr some_error]) /\
  LoadBooks.submitted (fst (LoadBooks.main
      (loading_env (line_A ++ tail_E) None (fun _ => ([], None)) ([], Some some_error))))
    = [json.Marshal LoadBooks.Book_fields book_A].
Proof.
  pose proof (close_error_is_fatal
    (loading_env (line_A ++ tail_E) None (fun _ => ([], None)) ([], Some some_error))
    [line_A] tail_E [book_A]) as H.
  destruct H as (_ & H2 & H3 & _).
  - constructor; [vm_compute; reflexivity | constructor].
  - vm_compute. reflexivity.
  - unfold LoadBooks.starts.
    split; [reflexivity|]. split; [reflexivity|].
    split; [exists 200, []; reflexivity|]. split; reflexivity.
  - constructor; [vm_compute; reflexivity | constructor].
  - intros n Hn. split; reflexivity.
  - intros [_ C]. discriminate C.
  - split; [apply (H2 some_error); reflexivity | exact H3].
Defined.

(** X9: when reading the file fails with an error that is not the end of
    the file, the run ends with the message of line 102, after the records
    of the complete lines read before the error have been handed to the
    indexer; the bytes read after the last newline are dropped, and the
    indexer is not closed. *)
Theorem read_error_aborts env lines tail e books :
  Forall LoadBooks.is_line lines -> bufio.split_after x0a tail = None ->
  e <> io_EOF ->
  LoadBooks.starts env (bufio.mkReader (concat lines ++ tail) (Some e)) ->
  Forall2 LoadBooks.decodes lines books -> LoadBooks.quiet env (length lines) ->
  snd (LoadBooks.main env) = Fatal (Printf (golit "error reading readBytes: %v") [AErr e]) /\
  LoadBooks.decoded_books (fst (LoadBooks.main env)) = books /\
  LoadBooks.submitted (fst (LoadBooks.main env))
    = map (json.Marshal LoadBooks.Book_fields) books /\
  ~ In LoadBooks.BulkClose (fst (LoadBooks.main env)).
Proof.
  intros Hl Ht He St Hb Hq.
  destruct (main_after_lines env lines tail (Some e) books Hl St Hb Hq)
    as (t0 & T1 & T2 & _ & T4 & _ & E).
  rewrite E, (run_loop_last env tail (Some e) _ Ht). rewrite finish_eq.
  destruct e as [| | |text]; [congruence| | |]; cbn [bind fst snd];
    rewrite submitted_app, decoded_books_app, T1, T2;
    cbn [LoadBooks.submitted LoadBooks.decoded_books]; rewrite !app_nil_r;
    (split; [reflexivity|]); (split; [reflexivity|]); (split; [reflexivity|]);
    intros H; apply in_app_iff in H; destruct H as [H|H]; try contradiction;
    cbn [In] in H; destruct H as [H|H]; try discriminate H; contradiction.
Qed.

Lemma read_error_aborts_witness :
  snd (LoadBooks.main (loading_env (line_A ++ tail_E) (Some some_error)
                         (fun _ => ([], None)) ([], None)))
    = Fatal (Printf (golit "error reading readBytes: %v") [AErr some_error]) /\
  LoadBooks.submitted (fst (LoadBooks.main
      (loading_env (line_A ++ tail_E) (Some some_error) (fun _ => ([], None)) ([], None))))
    = [json.Marshal LoadBooks.Book_fields book_A].
Proof.
  pose proof (read_error_aborts
    (loading_env (line_A ++ tail_E) (Some some_error) (fun _ => ([], None)) ([], None))
    [line_A] tail_E some_error [book_A]) as H.
  destruct H as (H1 & _ & H3 & _).
  - constructor; [vm_compute; reflexivity | constructor].
  - vm_compute. reflexivity.
  - discriminate.
  - unfold LoadBooks.starts.
    split; [reflexivity|]. split; [reflexivity|].
    split; [exists 200, []; reflexivity|]. split; reflexivity.
  - constructor; [vm_compute; reflexivity | constructor].
  - intros n Hn. split; reflexivity.
  - split; [exact H1 | exact H3].
Defined.

(** ** The documents the loader submits *)

Lemma escape_ascii_safe b : forallb line_safe (json.escape_ascii b) = true.
Proof. destruct b; vm_compute; reflexivity. Qed.

Lemma high_safe l : Forall (fun c => 0x80 <= b2z c) l -> forallb line_safe l = true.
Proof.
  induction 1 as [|c l Hc _ IH]; [reflexivity|].
  cbn [forallb]. rewrite IH, andb_true_r.
  unfold line_safe, json.is_.
  repeat (apply andb_true_iff; split);
    [apply Z.leb_le; lia | | |]; apply negb_true_iff, Z.eqb_neq; lia.
Qed.

(** The bytes [DecodeRune] consumes after a first byte that is not ASCII
    are no ASCII either. *)
Lemma decoded_bytes_high c t rr size :
  0x80 <= b2z c -> utf8.DecodeRune (c :: t) = (rr, size) ->
  Forall (fun c => 0x80 <= b2z c) (firstn size (c :: t)).
Proof.
  intros Ha D.
  destruct (decode_sound (c :: t) rr size ltac:(discriminate) D) as [[_ ->]|(Sc & Hn & Hf)].
  - cbn [firstn]. constructor; [exact Ha | constructor].
  - rewrite Hf. apply encode_high; [exact Sc|].
    destruct (Z.ltb_spec rr utf8.RuneSelf) as [Hr|Hr]; [|exact Hr].
    exfalso. unfold utf8.EncodeRune in Hf.
    destruct Sc as [[Sc1 Sc2] _]. unfold utf8.RuneSelf in *.
    replace (uint32 rr <=? utf8.rune1Max) with true in Hf
      by (symmetry; apply Z.leb_le; unfold uint32, utf8.rune1Max;
          rewrite Z.mod_small; lia).
    pose proof (DecodeRune_size (c :: t) rr size ltac:(discriminate) D) as Hs.
    destruct size as [|size]; [lia|]. cbn [firstn] in Hf.
    injection Hf as Hc _. rewrite Hc in Ha. unfold utf8.byte_of in Ha.
    rewrite b2z_z2b in Ha. rewrite Z.mod_mod in Ha by lia.
    rewrite Z.mod_small in Ha by lia. lia.
Qed.

Lemma encode_loop_safe fuel : forall s,
  forallb line_safe (json.encode_string_loop fuel s) = true.
Proof.
  induction fuel as [|fuel IH]; intros s; [reflexivity|].
  destruct s as [|b t]; [reflexivity|].
  cbn [json.encode_string_loop].
  destruct (Z.ltb_spec (b2z b) utf8.RuneSelf) as [Ha|Ha].
  - destruct (json.htmlSafeSet b) eqn:Hs.
    + cbn [forallb]. rewrite IH, andb_true_r.
      revert Hs. unfold json.htmlSafeSet, line_safe.
      destruct (0x20 <=? b2z b), (b2z b <=? 0x7f), (json.is_ b 0x22), (json.is_ b 0x5c),
        (json.is_ b 0x26), (json.is_ b 0x3c), (json.is_ b 0x3e); cbn; congruence.
    + rewrite forallb_app, escape_ascii_safe, IH. reflexivity.
  - destruct (utf8.DecodeRune (b :: t)) as [c size] eqn:D.
    destruct ((c =? utf8.RuneError) && (size =? 1)%nat).
    + change (forallb line_safe (x5c :: lit "ufffd" ++ ?x))
        with (forallb line_safe x). apply IH.
    + destruct (Z.eqb_spec c 0x2028) as [->|N1]; cbn [orb].
      * change (forallb line_safe (x5c :: lit "u202" ++ json.hexdigit (Z.land 0x2028 0xF) :: ?x))
          with (forallb line_safe x). apply IH.
      * destruct (Z.eqb_spec c 0x2029) as [->|N2].
        -- change (forallb line_safe (x5c :: lit "u202" ++ json.hexdigit (Z.land 0x2029 0xF) :: ?x))
             with (forallb line_safe x). apply IH.
        -- rewrite forallb_app, IH, andb_true_r.
           apply high_safe. eapply decoded_bytes_high; eauto.
Qed.

Lemma book_bytes_safe T U D : forallb line_safe (json.book_bytes T U D) = true.
Proof.
  unfold json.book_bytes, json.encode_string_body.
  repeat first
    [ rewrite forallb_app | rewrite encode_loop_safe
    | match goal with
      | |- context [forallb line_safe (?c :: ?l)] =>
          change (forallb line_safe (c :: l)) with (line_safe c && forallb line_safe l)
      end ].
  vm_compute. reflexivity.
Qed.

Lemma line_safe_no_newline l : forallb line_safe l = true -> ~ In x0a l.
Proof.
  intros H Hin. rewrite forallb_forall in H. specialize (H _ Hin). discriminate H.
Qed.

(** X10: every document handed to the bulk indexer is the encoding of a
    record the run decoded; it is well-formed JSON on one line (no control
    character, so no newline, which the line-oriented bulk format needs),
    holds none of [<], [>], [&], and decodes back to the record it
    encodes. *)
Theorem submitted_documents_are_one_line_json env body :
  In body (LoadBooks.submitted (fst (LoadBooks.main env))) ->
  exists b, In b (LoadBooks.decoded_books (fst (LoadBooks.main env))) /\
    body = json.Marshal LoadBooks.Book_fields b /\
    json.Valid body = true /\
    forallb line_safe body = true /\ ~ In x0a body /\
    json.Unmarshal LoadBooks.Book_fields LoadBooks.zero_Book body = json.Ok b.
Proof.
  intros H. destruct (main_general env) as (A & V & _).
  rewrite A in H. apply in_map_iff in H. destruct H as (b & <- & Hb).
  rewrite Forall_forall in V. destruct (V b Hb) as (VT & VU & VD).
  exists b. split; [exact Hb|]. split; [reflexivity|].
  assert (Sf : forallb line_safe (json.Marshal LoadBooks.Book_fields b) = true)
    by (rewrite Marshal_load_book; apply book_bytes_safe).
  split; [|split; [exact Sf|split; [apply line_safe_no_newline; exact Sf|]]].
  - unfold json.Valid. rewrite Marshal_load_book, scan_book by assumption. reflexivity.
  - apply Unmarshal_Marshal_load; assumption.
Qed.

Lemma submitted_documents_are_one_line_json_witness :
  exists b, In b (LoadBooks.decoded_books (fst (LoadBooks.main (calm_env line_A)))) /\
    json.Marshal LoadBooks.Book_fields book_A = json.Marshal LoadBooks.Book_fields b /\
    json.Valid (json.Marshal LoadBooks.Book_fields book_A) = true /\
    forallb line_safe (json.Marshal LoadBooks.Book_fields book_A) = true /\
    ~ In x0a (json.Marshal LoadBooks.Book_fields book_A) /\
    json.Unmarshal LoadBooks.Book_fields LoadBooks.zero_Book
      (json.Marshal LoadBooks.Book_fields book_A) = json.Ok b.
Proof.
  apply (submitted_documents_are_one_line_json (calm_env line_A)).
  vm_compute. left. reflexivity.
Defined.

Lemma split_after_own_line l :
  ~ In x0a l -> bufio.split_after x0a (l ++ [x0a]) = Some (l ++ [x0a], []).
Proof.
  induction l as [|c l IH]; intros H; [reflexivity|].
  cbn [app bufio.split_after].
  destruct (Z.eqb_spec (b2z c) (b2z x0a)) as [E|E].
  - exfalso. apply H. left. apply b2z_inj. exact E.
  - rewrite IH by (intros Hin; apply H; right; exact Hin). reflexivity.
Qed.

Lemma decodes_own_line b :
  LoadBooks.valid_Book b ->
  LoadBooks.decodes (json.Marshal LoadBooks.Book_fields b ++ [x0a]) b.
Proof.
  intros (VT & VU & VD). unfold LoadBooks.decodes, json.Unmarshal, json.scan.
  rewrite Marshal_load_book.
  pose proof (book_bytes_length (LoadBooks.Title b) (LoadBooks.Url b) (LoadBooks.Description b)) as L.
  rewrite length_app.
  destruct (length (json.book_bytes _ _ _)) as [|[|[|[|[|n]]]]]; try lia.
  cbn [plus].
  rewrite (parse_value_book (S (n + length [x0a]))) by (auto; unfold json.maxNestingDepth; lia).
  change (json.skip_ws [x0a]) with (@nil byte). cbv iota.
  rewrite decode_load_book by assumption. destruct b; reflexivity.
Qed.

(** X11: the documents the loader submits are input lines it accepts
    unchanged: on a file that holds, one per line, the encodings of
    records whose fields are well-formed UTF-8, the loader decodes these
    very records and submits the same documents again. *)
Theorem reloading_output_is_stable env books :
  Forall LoadBooks.valid_Book books ->
  LoadBooks.starts env (bufio.mkReader (concat (lines_of books)) None) ->
  LoadBooks.quiet env (length books) ->
  LoadBooks.decoded_books (fst (LoadBooks.main env)) = books /\
  LoadBooks.submitted (fst (LoadBooks.main env))
    = map (json.Marshal LoadBooks.Book_fields) books.
Proof.
  intros V St Hq.
  assert (Hl : Forall LoadBooks.is_line (lines_of books)).
  { unfold lines_of. apply Forall_map. apply Forall_forall. intros b _.
    apply split_after_own_line, line_safe_no_newline.
    rewrite Marshal_load_book. apply book_bytes_safe. }
  assert (Hd : Forall2 LoadBooks.decodes (lines_of books) books).
  { unfold lines_of. clear St Hq Hl.
    induction V as [|b bs Vb _ IH]; cbn [map]; constructor;
      [apply decodes_own_line; exact Vb | exact IH]. }
  assert (Len : length (lines_of books) = length books)
    by (unfold lines_of; apply length_map).
  rewrite <- (app_nil_r (concat (lines_of books))) in St. rewrite <- Len in Hq.
  destruct (run_all_lines env (lines_of books) [] books Hl eq_refl St Hd Hq) as (R1 & R2 & _).
  split; assumption.
Qed.

Lemma reloading_output_is_stable_witness :
  LoadBooks.decoded_books (fst (LoadBooks.main (calm_env (concat (lines_of [book_A; book_C])))))
    = [book_A; book_C] /\
  LoadBooks.submitted (fst (LoadBooks.main (calm_env (concat (lines_of [book_A; book_C])))))
    = map (json.Marshal LoadBooks.Book_fields) [book_A; book_C].
Proof.
  apply (reloading_output_is_stable (calm_env (concat (lines_of [book_A; book_C])))
           [book_A; book_C]).
  - constructor; [apply (Unmarshal_valid line_A); vm_compute; reflexivity|].
    constructor; [apply (Unmarshal_valid line_C); vm_compute; reflexivity|constructor].
  - unfold LoadBooks.starts.
    split; [reflexivity|]. split; [reflexivity|].
    split; [exists 200, []; reflexivity|]. split; reflexivity.
  - intros n Hn. split; reflexivity.
Defined.

(** X12: a line that holds a JSON value that is no object is not treated
    as malformed in one case: for [null] the decoder leaves the record
    as it is, and the loader submits a record with three empty fields.
    For an array, a string, a number or a boolean the decoder reports a
    type error and the run ends with the message of line 109, nothing
    being submitted for the line. *)
Theorem line_that_is_no_object env l n v :
  json.scan l = Some v -> (forall ms, v <> json.Object ms) ->
  match v with
  | json.Null =>
    LoadBooks.decodes l LoadBooks.zero_Book /\
    LoadBooks.submitted (fst (LoadBooks.process env l n))
      = [golit "{'title':'','url':'','description':''}"]
  | _ =>
    LoadBooks.process env l n
    = ([], inl (Fatal (Printf (golit "error unmarshalling json: %v")
                              [AErr json_UnmarshalTypeError])))
  end.
Proof.
  intros Hs Hn.
  assert (U : json.Unmarshal LoadBooks.Book_fields LoadBooks.zero_Book l
              = match v with
                | json.Null => json.Ok LoadBooks.zero_Book
                | _ => json.Err json_UnmarshalTypeError
                end).
  { unfold json.Unmarshal. rewrite Hs.
    destruct v as [|b|t|t|vs|ms]; try reflexivity. exfalso. exact (Hn ms eq_refl). }
  destruct v as [|b|t|t|vs|ms]; try (apply process_Err; exact U).
  split; [exact U|].
  destruct (process_Ok env l n _ U) as (P1 & _). rewrite P1.
  vm_compute. reflexivity.
Qed.

Lemma line_that_is_no_object_witness :
  LoadBooks.decodes (lit "null" ++ [x0a]) LoadBooks.zero_Book /\
  LoadBooks.submitted (fst (LoadBooks.process (calm_env []) (lit "null" ++ [x0a]) 0))
    = [golit "{'title':'','url':'','description':''}"].
Proof.
  apply (line_that_is_no_object (calm_env []) (lit "null" ++ [x0a]) 0 json.Null).
  - vm_compute. reflexivity.
  - discriminate.
Defined.

(** ** The searcher when the request or the response fails *)

(** X13: when the search request fails, by an error of the transport or
    by an answer with an error status, the first copy of the search tool
    ends with [log.Fatal] right after the request: with the error, or
    with the status and the body of the answer; the answer is not
    decoded and no hit is printed. *)
Theorem search_failure_is_fatal env q :
  q <> [] ->
  SearchBooks.godotenv_Load env = None -> SearchBooks.NewClient env = None ->
  match SearchBooks.client_Search env (golit "books") (query_body q) with
  | TransportError e =>
    SearchBooks.main env q
    = ([SearchBooks.Stdout (search_header q);
        SearchBooks.Search (golit "books") (query_body q)],
       Fatal (Print [AErr e]))
  | Response code body =>
    IsError code = true ->
    SearchBooks.main env q
    = ([SearchBooks.Stdout (search_header q);
        SearchBooks.Search (golit "books") (query_body q)],
       Fatal (Printf (golit "Error querying, status: %s, response body: %s")
                     [AStatus code; AResponse code body]))
  end.
Proof.
  intros Hq H1 H2. rewrite main_spec by exact Hq. rewrite H1, H2.
  rewrite search_and_print_spec.
  destruct (SearchBooks.client_Search env (golit "books") (query_body q)) as [e|code body].
  - run_steps. reflexivity.
  - intros He. rewrite He. run_steps. reflexivity.
Qed.

Lemma search_failure_is_fatal_witness :
  SearchBooks.main
    (SearchBooks.mkEnv None None (fun _ _ => Response 404 (lit "no such index"))
       parse_float_table) dogs
  = ([SearchBooks.Stdout (search_header dogs);
      SearchBooks.Search (golit "books") (query_body dogs)],
     Fatal (Printf (golit "Error querying, status: %s, response body: %s")
                   [AStatus 404; AResponse 404 (lit "no such index")])).
Proof.
  apply (search_failure_is_fatal
    (SearchBooks.mkEnv None None (fun _ _ => Response 404 (lit "no such index"))
       parse_float_table) dogs).
  - discriminate.
  - reflexivity.
  - reflexivity.
  - reflexivity.
Defined.

(** X14: when the decoder reports an error on the response, a syntax
    error or a value of the wrong type anywhere in it, the first copy
    ends with [log.Fatal] and prints no hit at all, not even the hits
    that stand before the faulty one. *)
Theorem undecodable_response_prints_no_hit env q code body e :
  q <> [] ->
  SearchBooks.godotenv_Load env = None -> SearchBooks.NewClient env = None ->
  SearchBooks.client_Search env (golit "books") (query_body q) = Response code body ->
  IsError code = false ->
  json.Decode (SearchBooks.BookSearchResponse_fields (SearchBooks.ParseFloat env))
    SearchBooks.zero_Response body = json.Err e ->
  SearchBooks.main env q
  = ([SearchBooks.Stdout (search_header q);
      SearchBooks.Search (golit "books") (query_body q)],
     Fatal (Print [AErr e])).
Proof.
  intros Hq H1 H2 Hs He Hd. rewrite main_spec by exact Hq. rewrite H1, H2.
  rewrite search_and_print_spec, Hs, He, Hd. run_steps. reflexivity.
Qed.

Lemma undecodable_response_prints_no_hit_witness :
  SearchBooks.main
    (SearchBooks.mkEnv None None (fun _ _ => Response 200 bad_score_response)
       parse_float_table) dogs
  = ([SearchBooks.Stdout (search_header dogs);
      SearchBooks.Search (golit "books") (query_body dogs)],
     Fatal (Print [AErr json_UnmarshalTypeError])).
Proof.
  apply (undecodable_response_prints_no_hit
    (SearchBooks.mkEnv None None (fun _ _ => Response 200 bad_score_response)
       parse_float_table) dogs 200 bad_score_response json_UnmarshalTypeError).
  - discriminate.
  - reflexivity.
  - reflexivity.
  - reflexivity.
  - reflexivity.
  - vm_compute. reflexivity.
Defined.

(** X15: the first copy sends at most one search request in a run, with
    the body built from the query as it stands, and none when the query
    is empty or when the environment file or the client fails; the line
    that announces the search is printed before these two steps. *)
Theorem first_copy_sends_one_request env q :
  SearchBooks.requests (fst (SearchBooks.main env q))
  = match q, SearchBooks.godotenv_Load env, SearchBooks.NewClient env with
    | _ :: _, None, None => [query_body q]
    | _, _, _ => []
    end /\
  match q with
  | [] => printed (fst (SearchBooks.main env q)) = []
  | _ :: _ => exists rest, printed (fst (SearchBooks.main env q)) = search_header q :: rest
  end.
Proof.
  destruct q as [|c q].
  - rewrite main_empty. split; reflexivity.
  - rewrite main_spec by discriminate. rewrite fst_finish, fst_bind.
    cbn [emit fst snd app SearchBooks.requests printed].
    split; [|eauto].
    destruct (SearchBooks.godotenv_Load env); [reflexivity|].
    rewrite fst_bind. cbn [check ret fst snd app].
    destruct (SearchBooks.NewClient env); [reflexivity|].
    rewrite fst_bind. cbn [check ret fst snd app].
    rewrite search_and_print_spec, fst_bind.
    cbn [emit fst snd app SearchBooks.requests]. f_equal.
    destruct (SearchBooks.client_Search _ _ _) as [e|code body]; [reflexivity|].
    destruct (IsError code); [reflexivity|].
    destruct (json.Decode _ _ body); try reflexivity.
    cbn [fst]. rewrite requests_app, requests_hit_events. reflexivity.
Qed.

(** X16: no response makes the search tool panic: each copy ends by
    returning from [main], after printing the hits, or by [log.Fatal]. *)
Theorem searcher_ends_by_return_or_fatal env q :
  (snd (SearchBooks.main env q) = Exit0 \/ exists m, snd (SearchBooks.main env q) = Fatal m) /\
  (snd (SearchBooksAlt.main env q) = Exit0 \/
   exists m, snd (SearchBooksAlt.main env q) = Fatal m).
Proof.
  assert (S : forall body,
    match snd (SearchBooks.search_and_print env body) with
    | inl o => exists m, o = Fatal m
    | inr _ => True
    end).
  { intros body. rewrite search_and_print_spec, snd_bind. cbn [emit snd].
    destruct (SearchBooks.client_Search _ _ _) as [e|code rbody]; [cbn; eauto|].
    destruct (IsError code); [cbn; eauto|].
    pose proof (Decode_no_panic (SearchBooks.ParseFloat env) rbody) as NP.
    destruct (json.Decode _ _ rbody); [exact I | cbn; eauto | congruence]. }
  assert (K : forall (pre : M SearchBooks.event unit) body,
    snd pre = inr tt ->
    let r := snd (finish (bind pre (fun _ =>
               bind (check (SearchBooks.godotenv_Load env)
                       (fun _ => Print [AStr (golit "Error loading .env file")])) (fun _ =>
               bind (check (SearchBooks.NewClient env) (fun e => Print [AErr e])) (fun _ =>
               SearchBooks.search_and_print env body))))) in
    r = Exit0 \/ exists m, r = Fatal m).
  { intros pre body Hp. cbv zeta. rewrite finish_eq. cbn [snd].
    rewrite snd_bind, Hp.
    rewrite snd_bind. destruct (SearchBooks.godotenv_Load env); cbn [check halt ret snd]; [eauto|].
    rewrite snd_bind. destruct (SearchBooks.NewClient env); cbn [check halt ret snd]; [eauto|].
    specialize (S body). destruct (snd (SearchBooks.search_and_print env body)); eauto. }
  split.
  - destruct q as [|c q]; [rewrite main_empty; cbn; eauto|].
    rewrite main_spec by discriminate. apply K. reflexivity.
  - rewrite alt_main_spec. apply K. reflexivity.
Qed.

(** ** The text that reaches the search engine *)

Lemma encode_long r : utf8.scalar r -> 0x80 <= r -> (2 <= length (utf8.EncodeRune r))%nat.
Proof.
  intros [[R1 R2] _] Hr. unfold utf8.EncodeRune, utf8.encode3.
  replace (uint32 r) with r by (unfold uint32; rewrite Z.mod_small; lia).
  unfold utf8.rune1Max.
  destruct (Z.leb_spec r 127); [lia|].
  repeat match goal with |- context [if ?b then _ else _] => destruct b end;
    cbn [length]; lia.
Qed.

(** On well-formed UTF-8 without quote, backslash and control character
    the first loop of [unquoteBytes] runs to the end. *)
Lemma unquote_plain_all q : utf8.valid q -> forall fuel,
  (length q <= fuel)%nat -> forallb plain q = true ->
  json.unquote_plain fuel q = length q.
Proof.
  induction 1 as [|r rest Sc _ IH]; intros fuel Hf Hp.
  - destruct fuel; reflexivity.
  - rewrite forallb_app in Hp. apply andb_true_iff in Hp. destruct Hp as [Hp1 Hp2].
    rewrite length_app in Hf |- *.
    pose proof (encode_length r Sc) as Hlen.
    destruct fuel as [|fuel]; [lia|].
    pose proof (decode_encode r rest Sc) as D.
    destruct (utf8.EncodeRune r) as [|c e] eqn:E; [cbn in Hlen; lia|].
    cbn [app] in *. cbn [json.unquote_plain].
    cbn [forallb] in Hp1. apply andb_true_iff in Hp1. destruct Hp1 as [Hc _].
    unfold plain in Hc.
    destruct (json.is_ c 0x22); [discriminate Hc|].
    destruct (json.is_ c 0x5c); [discriminate Hc|].
    destruct (b2z c <? 0x20); [discriminate Hc|]. cbn [orb].
    destruct (Z.ltb_spec (b2z c) utf8.RuneSelf) as [Ha|Ha].
    + assert (e = []) as ->.
      { destruct (Z.ltb_spec r 0x80) as [Hr|Hr].
        - destruct Sc as [[? ?] _]. rewrite encode_1 in E by lia. congruence.
        - exfalso. pose proof (encode_high r Sc Hr) as Hh. rewrite E in Hh.
          inversion Hh; subst. unfold utf8.RuneSelf in Ha. lia. }
      cbn [app length plus]. f_equal. apply IH; [cbn [length] in Hf; lia | exact Hp2].
    + rewrite D.
      assert (L2 : (2 <= length (c :: e))%nat).
      { rewrite <- E. apply encode_long; [exact Sc|].
        destruct (Z.ltb_spec r 0x80) as [Hr|Hr]; [|exact Hr].
        exfalso. destruct Sc as [[? ?] _]. rewrite encode_1 in E by lia.
        injection E as Ec _. subst c. rewrite b2z_z2b, Z.mod_small in Ha by lia.
        unfold utf8.RuneSelf in Ha. lia. }
      replace ((length (c :: e) =? 1)%nat) with false
        by (symmetry; apply Nat.eqb_neq; lia).
      rewrite andb_false_r.
      change (c :: e ++ rest) with ((c :: e) ++ rest).
      rewrite skipn_app, skipn_all, Nat.sub_diag. cbn [app skipn].
      rewrite IH; [reflexivity | cbn [length] in *; lia | exact Hp2].
Qed.

Lemma unquoteBytes_plain q :
  utf8.valid q -> forallb plain q = true -> json.unquoteBytes q = Some q.
Proof.
  intros V P. unfold json.unquoteBytes.
  rewrite (unquote_plain_all q V (length q) (le_n _) P).
  rewrite Nat.eqb_refl. reflexivity.
Qed.

(** X17: for a query of well-formed UTF-8 without double quote,
    backslash and control character, the body the first copy builds is
    the JSON document of the template, and the string in it, unquoted as
    a JSON decoder does, is the query itself. *)
Theorem harmless_query_arrives_intact q :
  utf8.valid q -> forallb plain q = true ->
  json.scan (query_body q) = Some (query_value q) /\
  json.unquoteBytes q = Some q.
Proof.
  intros V P. split.
  - apply scan_query_body, scan_string_plains, P.
  - apply unquoteBytes_plain; assumption.
Qed.

Lemma harmless_query_arrives_intact_witness :
  json.scan (query_body dogs) = Some (query_value dogs) /\
  json.unquoteBytes dogs = Some dogs.
Proof.
  apply (harmless_query_arrives_intact dogs).
  - apply (Unmarshal_valid (golit "{'title':'dogs'}") (LoadBooks.mkBook dogs [] [])).
    vm_compute. reflexivity.
  - vm_compute. reflexivity.
Defined.

Lemma escape_byte_cases c :
  (unreserved c = true /\ url.escape_byte c = [c]) \/
  (unreserved c = false /\
   ((c = x20 /\ url.escape_byte c = [x2b]) \/
    exists h l, url.escape_byte c = [x25; h; l])).
Proof.
  unfold unreserved, url.escape_byte.
  destruct (json.is_ c 0x20) eqn:E.
  - right. split; [reflexivity|]. left. split; [|reflexivity].
    apply (is_eq c _ E). reflexivity.
  - destruct (url.shouldEscape c).
    + right. split; [reflexivity|]. right. eauto.
    + left. split; reflexivity.
Qed.

Lemma QueryEscape_length q : (length q <= length (url.QueryEscape q))%nat.
Proof.
  induction q as [|c q IH]; [apply le_n|].
  unfold url.QueryEscape in *. cbn [flat_map]. rewrite length_app. cbn [length].
  destruct (escape_byte_cases c) as [[_ ->]|[_ [[_ ->]|(h & l & ->)]]]; cbn [length]; lia.
Qed.

Lemma QueryEscape_fixed q : url.QueryEscape q = q <-> forallb unreserved q = true.
Proof.
  induction q as [|c q IH]; [split; reflexivity|].
  unfold url.QueryEscape in *. cbn [flat_map forallb].
  destruct (escape_byte_cases c) as [[U ->]|[U [[-> ->]|(h & l & ->)]]]; rewrite U; cbn [app andb].
  - rewrite <- IH. split; [intros [= H]; exact H | intros ->; reflexivity].
  - split; discriminate.
  - split; [|discriminate]. intros [= _ H]. exfalso.
    pose proof (QueryEscape_length q) as L. unfold url.QueryEscape in L.
    rewrite <- H in L at 1. cbn [length] in L. lia.
Qed.

Lemma ascii_valid l : forallb (fun c => b2z c <? 0x80) l = true -> utf8.valid l.
Proof.
  induction l as [|c l IH]; intros H; [constructor|].
  cbn [forallb] in H. apply andb_true_iff in H. destruct H as [Hc Hl].
  apply valid_ascii; [apply Z.ltb_lt; exact Hc | apply IH; exact Hl].
Qed.

Lemma escape_byte_ascii c : forallb (fun c => b2z c <? 0x80) (url.escape_byte c) = true.
Proof. destruct c; vm_compute; reflexivity. Qed.

Lemma QueryEscape_valid q : utf8.valid (url.QueryEscape q).
Proof.
  apply ascii_valid. induction q as [|c q IH]; [reflexivity|].
  unfold url.QueryEscape in *. cbn [flat_map]. rewrite forallb_app, escape_byte_ascii. exact IH.
Qed.

(** X18: the second copy of the search tool sends, when its two setup
    steps succeed, one request whose body is well-formed JSON whatever
    the query; the string in that body is the percent-encoding of the
    query, which is the query itself exactly when the query is made of
    letters, digits and [-], [_], [.], [~]: for every other query the
    engine is asked for a text the user did not type. *)
Theorem escaped_query_is_wellformed_but_changed env q :
  SearchBooks.requests (fst (SearchBooksAlt.main env q))
  = match SearchBooks.godotenv_Load env, SearchBooks.NewClient env with
    | None, None => [query_body (url.QueryEscape q)]
    | _, _ => []
    end /\
  json.scan (query_body (url.QueryEscape q)) = Some (query_value (url.QueryEscape q)) /\
  json.unquoteBytes (url.QueryEscape q) = Some (url.QueryEscape q) /\
  (url.QueryEscape q = q <-> forallb unreserved q = true).
Proof.
  split; [|split; [|split]].
  - rewrite alt_main_spec. rewrite fst_finish, fst_bind.
    cbn [emit fst snd app SearchBooks.requests].
    destruct (SearchBooks.godotenv_Load env); [reflexivity|].
    rewrite fst_bind. cbn [check ret fst snd app].
    destruct (SearchBooks.NewClient env); [reflexivity|].
    rewrite fst_bind. cbn [check ret fst snd app].
    rewrite search_and_print_spec, fst_bind.
    cbn [emit fst snd app SearchBooks.requests]. f_equal.
    destruct (SearchBooks.client_Search _ _ _) as [e|code body]; [reflexivity|].
    destruct (IsError code); [reflexivity|].
    destruct (json.Decode _ _ body); try reflexivity.
    cbn [fst]. rewrite requests_app, requests_hit_events. reflexivity.
  - apply scan_query_body, scan_string_plains, QueryEscape_plain.
  - apply unquoteBytes_plain; [apply QueryEscape_valid | apply QueryEscape_plain].
  - apply QueryEscape_fixed.
Qed.

(** X19: the second copy prints, after its greeting, one line per hit of
    the decoded response, in the order of the hits and in the format of
    the first copy, and ends with status 0; the line by which the first
    copy announces the query is not printed. *)
Theorem second_copy_prints_hits env q code body resp :
  SearchBooks.godotenv_Load env = None -> SearchBooks.NewClient env = None ->
  SearchBooks.client_Search env (golit "books") (query_body (url.QueryEscape q))
    = Response code body ->
  IsError code = false ->
  json.Decode (SearchBooks.BookSearchResponse_fields (SearchBooks.ParseFloat env))
    SearchBooks.zero_Response body = json.Ok resp ->
  printed (fst (SearchBooksAlt.main env q))
    = golit "Hello from search-books\n"
      :: map hit_line (SearchBooks.Hits (SearchBooks.Hits_ resp)) /\
  snd (SearchBooksAlt.main env q) = Exit0.
Proof.
  intros H1 H2 Hs He Hd. rewrite alt_main_spec, H1, H2.
  rewrite finish_eq. rewrite search_and_print_spec, Hs, He, Hd.
  run_steps. split; [|reflexivity].
  cbn [printed]. rewrite printed_app, printed_hit_events.
  cbn [printed]. rewrite app_nil_r. reflexivity.
Qed.

Lemma second_copy_prints_hits_witness :
  printed (fst (SearchBooksAlt.main search_env dogs))
  = [ golit "Hello from search-books\n";
      lit "A, u with score of 1.500000" ++ [x0a];
      lit "B, v with score of 3.000000" ++ [x0a] ] /\
  snd (SearchBooksAlt.main search_env dogs) = Exit0.
Proof.
  pose proof (second_copy_prints_hits search_env dogs 200 two_hits_response two_hits) as H.
  destruct H as (H1 & H2).
  - reflexivity.
  - reflexivity.
  - reflexivity.
  - reflexivity.
  - vm_compute. reflexivity.
  - split; [|exact H2]. rewrite H1. vm_compute. reflexivity.
Defined.

(** X20: whatever bytes the file holds, the three fields of every record
    the loader decodes are well-formed UTF-8: the decoder replaces what
    is not by U+FFFD instead of reporting an error. *)
Theorem decoded_records_are_utf8 env b :
  In b (LoadBooks.decoded_books (fst (LoadBooks.main env))) ->
  utf8.valid (LoadBooks.Title b) /\ utf8.valid (LoadBooks.Url b) /\
  utf8.valid (LoadBooks.Description b).
Proof.
  intros H. destruct (main_general env) as (_ & V & _).
  rewrite Forall_forall in V. exact (V b H).
Qed.

Lemma decoded_records_are_utf8_witness :
  LoadBooks.decoded_books (fst (LoadBooks.main (calm_env line_bad_utf8)))
    = [LoadBooks.mkBook [xef; xbf; xbd] [] []] /\
  utf8.valid [xef; xbf; xbd].
Proof.
  assert (E : LoadBooks.decoded_books (fst (LoadBooks.main (calm_env line_bad_utf8)))
              = [LoadBooks.mkBook [xef; xbf; xbd] [] []]) by (vm_compute; reflexivity).
  split; [exact E|].
  apply (decoded_records_are_utf8 (calm_env line_bad_utf8)
           (LoadBooks.mkBook [xef; xbf; xbd] [] [])).
  rewrite E. left. reflexivity.
Defined.
